(** * CDBMS: a shallow embedding of [sqlparser.h] and [main.c]

    The development follows the layout of the header: the C library
    routines it relies on, the data declarations, the lexer, the predicate
    evaluator, the storage engine, the catalog and the query executors;
    the shell of [main.c] comes last.

    Conventions.
    - A C string is a [string]; [NULL] token lists are the empty list.
    - [int] and [long] are 32 bits and [size_t] is 64 bits wide (the header
      targets the Windows C runtime: [<io.h>], [_mktemp]); their values are
      [Z] with the wrap-around written out.
    - [float] and [double] values are [spec_float] (IEEE 754 binary32 and
      binary64).
    - A computation whose behaviour the C standard leaves undefined (reads
      and writes outside an object, reads of uninitialised storage) ends in
      [Undef]; [malloc], [strdup] and [realloc] are taken to succeed. *)

From Stdlib Require Import ZArith Ascii String List Lia DecimalString.
From Stdlib Require Import DecimalPos.
From Stdlib Require Import Floats.SpecFloat.
From stdpp Require Import base option gmap strings.

Local Open Scope string_scope.
Local Open Scope Z_scope.

(** ** Outcome of a computation *)

Inductive Outcome (A : Type) : Type :=
| Ret (a : A)
| Undef.
Arguments Ret {A} a.
Arguments Undef {A}.

#[global] Instance Outcome_ret : MRet Outcome := fun _ a => Ret a.
#[global] Instance Outcome_bind : MBind Outcome := fun _ _ f m =>
  match m with
  | Ret a => f a
  | Undef => Undef
  end.

(** ** The C library *)

Module Libc.

Definition INT_BITS : Z := 32.
Definition LONG_MAX : Z := 2 ^ 31 - 1.
Definition LONG_MIN : Z := - 2 ^ 31.
Definition INT_MAX : Z := 2 ^ 31 - 1.
Definition INT_MIN : Z := - 2 ^ 31.
Definition SIZE_BITS : Z := 64.

(** Conversion of an integer to [int]: reduction modulo [2^32] into the
    signed range. *)
Definition to_int (z : Z) : Z :=
  (z + 2 ^ 31) mod 2 ^ INT_BITS - 2 ^ 31.

(** Arithmetic in [size_t]. *)
Definition to_size_t (z : Z) : Z := z mod 2 ^ SIZE_BITS.

Definition code (c : ascii) : Z := Z.of_nat (nat_of_ascii c).

(** [isspace] in the "C" locale. *)
Definition isspace (c : ascii) : bool :=
  let n := code c in
  (n =? 32) || ((9 <=? n) && (n <=? 13)).

Definition digit (c : ascii) : option Z :=
  let n := code c in
  if (48 <=? n) && (n <=? 57) then Some (n - 48) else None.

(** The bytes of a buffer up to its first NUL. *)
Fixpoint cstr (s : string) : string :=
  match s with
  | EmptyString => EmptyString
  | String c rest => if code c =? 0 then EmptyString else String c (cstr rest)
  end.

(** [strcmp]: the sign of the first difference, bytes compared as
    [unsigned char]. *)
Fixpoint strcmp (a b : string) : Z :=
  match a, b with
  | EmptyString, EmptyString => 0
  | EmptyString, String _ _ => -1
  | String _ _, EmptyString => 1
  | String x a', String y b' =>
      if code x <? code y then -1
      else if code y <? code x then 1
      else strcmp a' b'
  end.

Fixpoint skip_space (s : string) : string :=
  match s with
  | String c rest => if isspace c then skip_space rest else s
  | EmptyString => s
  end.

(** An optional sign: [true] for a minus. *)
Definition sign (s : string) : bool * string :=
  match s with
  | String "-" rest => (true, rest)
  | String "+" rest => (false, rest)
  | _ => (false, s)
  end.

(** The longest prefix of decimal digits: its value, how many digits it
    has, and what follows it. *)
Fixpoint digits (acc : Z) (n : Z) (s : string) : Z * Z * string :=
  match s with
  | String c rest =>
      match digit c with
      | Some d => digits (10 * acc + d) (n + 1) rest
      | None => (acc, n, s)
      end
  | EmptyString => (acc, n, s)
  end.

(** [strtol (s, NULL, 10)]: leading white space, an optional sign, decimal
    digits; 0 when there is no digit, and the nearest [long] when the
    value is out of range. *)
Definition strtol (s : string) : Z :=
  let '(neg, s1) := sign (skip_space s) in
  let '(v, _, _) := digits 0 0 s1 in
  let v := if neg then - v else v in
  Z.max LONG_MIN (Z.min LONG_MAX v).

(** *** Floating point *)

Definition float_prec : Z := 24.
Definition float_emax : Z := 128.
Definition double_prec : Z := 53.
Definition double_emax : Z := 1024.

(** [strtod (s, NULL)] on the decimal syntax of C89: white space, sign,
    digits with an optional point, an optional exponent; the result is
    the [double] nearest to the decimal value. *)
Definition exponent (s : string) : Z :=
  match s with
  | String c rest =>
      if (code c =? 101) || (code c =? 69) then
        let '(neg, s1) := sign rest in
        let '(v, n, _) := digits 0 0 s1 in
        if n =? 0 then 0 else if neg then - v else v
      else 0
  | EmptyString => 0
  end.

Definition decimal (neg : bool) (m : Z) (e : Z) : spec_float :=
  match m with
  | Zpos p =>
      if 0 <=? e
      then binary_normalize double_prec double_emax
             (cond_Zopp neg (m * 10 ^ e)) 0 neg
      else SFdiv double_prec double_emax
             (S754_finite neg p 0)
             (S754_finite false (Z.to_pos (10 ^ (- e))) 0)
  | _ => S754_zero neg
  end.

Definition strtod (s : string) : spec_float :=
  let '(neg, s1) := sign (skip_space s) in
  let '(ip, ni, s2) := digits 0 0 s1 in
  let '(m, nf, s3) :=
    match s2 with
    | String "." rest => digits ip 0 rest
    | _ => (ip, 0, s2)
    end in
  if ni + nf =? 0 then S754_zero false
  else decimal neg m (exponent s3 - nf).

(** Conversion of a [double] to [float]: round to nearest, ties to even. *)
Definition to_float (d : spec_float) : spec_float :=
  match d with
  | S754_finite s m e => binary_round float_prec float_emax s m e
  | _ => d
  end.

(** Conversion of a floating value to [int]: the fractional part is
    discarded; undefined when the integral part does not fit. *)
Definition trunc (x : spec_float) : Outcome Z :=
  match x with
  | S754_zero _ => Ret 0
  | S754_finite s m e =>
      let a := if 0 <=? e then Zpos m * 2 ^ e else Zpos m / 2 ^ (- e) in
      let v := cond_Zopp s a in
      if (INT_MIN <=? v) && (v <=? INT_MAX) then Ret v else Undef
  | _ => Undef
  end.

(** *** Formatted output *)

(** ["%d"]. *)
Definition fmt_d (z : Z) : string := NilZero.string_of_int (Z.to_int z).

Fixpoint spaces (n : nat) : string :=
  match n with
  | O => EmptyString
  | S k => String " " (spaces k)
  end.

(** A field of minimum width 10, right justified (["%10..."]) or left
    justified (["%-10..."]). *)
Definition pad_left (s : string) : string :=
  spaces (10 - String.length s) +:+ s.
Definition pad_right (s : string) : string :=
  s +:+ spaces (10 - String.length s).

(** ["%g"] at the default precision of six significant digits. *)

(** The decimal exponent of the positive rational [n / d]. *)
Fixpoint exp10_up (fuel : nat) (n d x : Z) : Z :=
  match fuel with
  | O => x
  | S k => if n <? 10 * d then x else exp10_up k n (10 * d) (x + 1)
  end.
Fixpoint exp10_down (fuel : nat) (n d x : Z) : Z :=
  match fuel with
  | O => x
  | S k => if d <=? n then x else exp10_down k (10 * n) d (x - 1)
  end.
Definition exp10 (n d : Z) : Z :=
  if d <=? n
  then exp10_up (Z.to_nat (Z.log2 n) + 1) n d 0
  else exp10_down (Z.to_nat (Z.log2 d) + 1) n d 0.

(** [n / d] rounded to the nearest integer, ties to even. *)
Definition round_div (n d : Z) : Z :=
  let q := n / d in
  let r := n mod d in
  match 2 * r ?= d with
  | Lt => q
  | Gt => q + 1
  | Eq => if Z.even q then q else q + 1
  end.

(** The six significant digits of [n / d] and its decimal exponent. *)
Definition sig6 (n d : Z) : Z * Z :=
  let x := exp10 n d in
  let m := if 5 <=? x then round_div n (d * 10 ^ (x - 5))
           else round_div (n * 10 ^ (5 - x)) d in
  if m =? 1000000 then (100000, x + 1) else (m, x).

Fixpoint strip0 (rev_digits : list ascii) : list ascii :=
  match rev_digits with
  | "0"%char :: rest => strip0 rest
  | _ => rev_digits
  end.

(** A fraction with its trailing zeros removed, and the point with it
    when nothing is left. *)
Definition fraction (ds : string) : string :=
  match rev (strip0 (rev (list_ascii_of_string ds))) with
  | nil => EmptyString
  | l => String "." (string_of_list_ascii l)
  end.

Fixpoint zeros (n : nat) : string :=
  match n with
  | O => EmptyString
  | S k => String "0" (zeros k)
  end.

Definition fmt_g_pos (n d : Z) : string :=
  let '(m, x) := sig6 n d in
  let ds := fmt_d m in
  if (x <? -4) || (6 <=? x) then
    let e := fmt_d (Z.abs x) in
    substring 0 1 ds +:+ fraction (substring 1 5 ds)
      +:+ (if x <? 0 then "e-" else "e+")
      +:+ (if Z.abs x <? 10 then "0" +:+ e else e)
  else if 0 <=? x then
    substring 0 (Z.to_nat (x + 1)) ds
      +:+ fraction (substring (Z.to_nat (x + 1)) (Z.to_nat (5 - x)) ds)
  else
    "0" +:+ fraction (zeros (Z.to_nat (- x - 1)) +:+ ds).

Definition fmt_g (x : spec_float) : string :=
  match x with
  | S754_zero s => if s then "-0" else "0"
  | S754_infinity s => if s then "-inf" else "inf"
  | S754_nan => "nan"
  | S754_finite s m e =>
      (if s then "-" else "") +:+
      (if 0 <=? e then fmt_g_pos (Zpos m * 2 ^ e) 1
       else fmt_g_pos (Zpos m) (2 ^ (- e)))
  end.

End Libc.

Import Libc.

(** ** Data declarations *)

Inductive ScannerState := ScanValue | ScanToken.

Inductive QueryType := Create | Select | Delete | Insert | Update | Invalid.

(** [enum FieldType].  [Unknown] is the value 5 ([Invalid] of
    [enum QueryType]) that [SQLParser_GetFieldType] hands back for a name
    outside [DataTypes]; no [switch] over a field type has a case for it. *)
Module FieldType.
Inductive t := Integer | Number | String | Boolean | Unknown.
End FieldType.

Inductive Operator :=
| InvalidOperator
| EqualOperator
| NotEqualOperator
| GreaterThanOperator
| LessThanOperator
| GreaterOrEqualOperator
| LessOrEqualOperator
| AssignOperator.

#[global] Instance Operator_eq_dec : EqDecision Operator.
Proof. solve_decision. Defined.

(** A node of [struct TokenList]; a pointer to a node is the list that
    starts there. *)
Module Token.
Record t := { keyword : string; value : string; operator : Operator }.
End Token.
Abbreviation TokenList := (list Token.t).

(** [union Value], with the member last stored; [VIndeterminate] is a value
    that was never stored to. *)
Inductive Value :=
| VInteger (i : Z)
| VNumber (x : spec_float)
| VString (s : string)
| VBoolean (b : bool)
| VIndeterminate.

Module Column.
Record t := { value : Value; type : FieldType.t; position : Z }.
(** A column of a zero-filled row. *)
Definition zero : t :=
  {| value := VInteger 0; type := FieldType.Integer; position := 0 |}.
End Column.

Module Row.
Record t := { index : Z; columns : list Column.t; columnCount : Z }.
End Row.

(** [struct Table]: the rows, [rowCount] being their number. *)
Abbreviation Table := (list Row.t).

Module TableStructureInfo.
Record t := {
  count : Z;
  columns : list string;
  columnTypes : list FieldType.t;
  name : string }.
(** The result of [memset (&table, 0, sizeof (table))]. *)
Definition zero : t :=
  {| count := 0; columns := []; columnTypes := []; name := "" |}.
End TableStructureInfo.

(** Element [i] of an array of 128 slots of which [l] holds the leading
    ones, the others being [d]. *)
Definition slot {A} (l : list A) (d : A) (i : Z) : Outcome A :=
  if (0 <=? i) && (i <? 128) then Ret (nth (Z.to_nat i) l d) else Undef.

Fixpoint store_nat {A} (l : list A) (d : A) (n : nat) (x : A) : list A :=
  match n, l with
  | O, [] => [x]
  | O, _ :: l' => x :: l'
  | S k, [] => d :: store_nat [] d k x
  | S k, y :: l' => y :: store_nat l' d k x
  end.

Definition store {A} (l : list A) (d : A) (i : Z) (x : A) : Outcome (list A) :=
  if (0 <=? i) && (i <? 128) then Ret (store_nat l d (Z.to_nat i) x) else Undef.

Definition of_bool (b : bool) : Z := if b then 1 else 0.

(** ** Values *)

Fixpoint strip_last_quote (s : string) : string :=
  match s with
  | String c EmptyString => if code c =? 39 then EmptyString else s
  | String c rest => String c (strip_last_quote rest)
  | EmptyString => EmptyString
  end.

(** Convert the parsed string to a column value.  For a [String] the copy
    is looked up at [length - 1], which lies before the copy when it is
    empty. *)
Definition SQLvalueFromStringAndType (string : string) (type : FieldType.t)
  : Outcome Value :=
  match type with
  | FieldType.Integer => Ret (VInteger (to_int (strtol string)))
  | FieldType.Boolean => Ret (VBoolean (strcmp "True" string =? 0))
  | FieldType.Number => Ret (VNumber (to_float (strtod string)))
  | FieldType.String =>
      let string :=
        match string with
        | String c rest => if code c =? 39 then rest else string
        | EmptyString => string
        end in
      match string with
      | EmptyString => Undef
      | _ => Ret (VString (strip_last_quote string))
      end
  | FieldType.Unknown => Ret VIndeterminate
  end.

(** ** Predicate evaluator *)

(** The outcome of one relational operator on two [int] operands, as the
    Integer and Number branches of [SQLcompareValues] spell it out. *)
Definition compare_ints (operator : Operator) (lhs rhs : Z) : Z :=
  match operator with
  | EqualOperator => of_bool (lhs =? rhs)
  | NotEqualOperator => of_bool (negb (lhs =? rhs))
  | GreaterThanOperator => of_bool (lhs >? rhs)
  | GreaterOrEqualOperator => of_bool (lhs >=? rhs)
  | LessThanOperator => of_bool (lhs <? rhs)
  | LessOrEqualOperator => of_bool (lhs >=? rhs)
  | _ => -1
  end.

(** Compare the values, according to their type and operator. *)
Definition SQLcompareValues (list : TokenList) (value : Value)
    (type : FieldType.t) : Outcome Z :=
  match list with
  | [] => Ret (-1)
  | tok :: _ =>
      match Token.operator tok with
      | InvalidOperator => Ret (-1)
      | operator =>
          match type with
          | FieldType.Integer =>
              let lhs := to_int (strtol (Token.value tok)) in
              match value with
              | VInteger rhs => Ret (compare_ints operator lhs rhs)
              | _ => Undef
              end
          | FieldType.Number =>
              lhs ← trunc (strtod (Token.value tok));
              match value with
              | VNumber number =>
                  rhs ← trunc number;
                  Ret (compare_ints operator lhs rhs)
              | _ => Undef
              end
          | FieldType.String =>
              match value with
              | VString string =>
                  let c := strcmp (Token.value tok) string in
                  Ret match operator with
                      | EqualOperator => of_bool (c =? 0)
                      | NotEqualOperator => of_bool (negb (c =? 0))
                      | GreaterThanOperator => of_bool (c >? 0)
                      | GreaterOrEqualOperator => of_bool (c >=? 0)
                      | LessThanOperator => of_bool (c <? 0)
                      | LessOrEqualOperator => of_bool (c <=? 0)
                      | _ => -1
                      end
              | _ => Undef
              end
          | FieldType.Boolean =>
              match value with
              | VBoolean boolean =>
                  Ret match operator with
                      | EqualOperator
                      | NotEqualOperator
                      | GreaterThanOperator
                      | GreaterOrEqualOperator
                      | LessThanOperator
                      | LessOrEqualOperator =>
                          of_bool (Bool.eqb (strcmp "True" (Token.value tok) =? 0)
                                            boolean)
                      | _ => -1
                      end
              | _ => Undef
              end
          | FieldType.Unknown => Ret 1
          end
      end
  end.

(** ** Lexer *)

Definition ch (c : ascii) (lit : ascii) : bool := code c =? code lit.

(** The character a string starts with, NUL at its end. *)
Definition peek (s : string) : ascii :=
  match s with
  | String c _ => c
  | EmptyString => zero
  end.

(** [SQLfindOperator_helper]: the operator that starts at the head of
    [query], and whether [*source] was moved on by one character. *)
Definition SQLfindOperator_helper (query : string) : Operator * bool :=
  let c := peek query in
  let c1 := peek (match query with String _ q1 => q1 | EmptyString => query end) in
  if ch c ">" then
    if ch c1 "=" then (GreaterOrEqualOperator, true)
    else (GreaterThanOperator, false)
  else if ch c "<" then
    if ch c1 "=" then (LessOrEqualOperator, true)
    else if ch c1 ">" then (NotEqualOperator, true)
    else (LessThanOperator, false)
  else if ch c "!" && ch c "=" then (NotEqualOperator, true)
  else if ch c "=" then (EqualOperator, false)
  else (AssignOperator, false).

(** What [SQLParser_Parse] hands back: the head of the list it built, or
    [NULL] through its [abort] label, which reports
    ["error: cannot parse query."] and frees the partial list. *)
Inductive Parse :=
| Tokens (head : TokenList)
| Abort.

Module Lexer.
(** The locals of [SQLParser_Parse]; [buffer] holds the [index] bytes
    accumulated so far. *)
Record t := {
  state : ScannerState;
  buffer : string;
  keyword : string;
  operator : Operator;
  head : TokenList }.

Definition init : t :=
  {| state := ScanToken; buffer := ""; keyword := "";
     operator := AssignOperator; head := [] |}.

(** [buffer[index++] = c]. *)
Definition push (c : ascii) (lx : t) : t :=
  {| state := state lx; buffer := buffer lx +:+ String c "";
     keyword := keyword lx; operator := operator lx; head := head lx |}.

(** [appendToken (head, keyword, operator, buffer)], the buffer being
    cleared for what comes next. *)
Definition emit (next : ScannerState) (lx : t) : t :=
  {| state := next; buffer := ""; keyword := keyword lx;
     operator := operator lx;
     head := head lx ++ [ {| Token.keyword := keyword lx;
                             Token.value := buffer lx;
                             Token.operator := operator lx |} ] |}.
End Lexer.

Fixpoint drop_trailing_space (s : string) : string :=
  match s with
  | EmptyString => EmptyString
  | String c rest =>
      match drop_trailing_space rest with
      | EmptyString => if isspace c then EmptyString else String c EmptyString
      | rest' => String c rest'
      end
  end.

(** The two loops that remove leading and trailing white space from the
    accumulated keyword.  When all of the buffer is white space (or it is
    empty) the first loop decrements [index] below zero and the second
    looks at [buffer[index - 1]] before testing [index > 0]. *)
Definition trim (buffer : string) : Outcome string :=
  match skip_space buffer with
  | EmptyString => Undef
  | b => Ret (drop_trailing_space b)
  end.

(** The position of the scanner inside one turn of the main loop of
    [SQLParser_Parse]: at the [switch], in the loop that skips the white
    space after an operator, or in the loop that copies a quoted span. *)
Inductive Position := AtSwitch | AfterOperator | InQuote.

(** The main loop of [SQLParser_Parse] on what is left of the query.  Each
    turn consumes at least one character, so the loops inside it become
    positions of one recursion on the query. *)
Fixpoint scan (at_ : Position) (lx : Lexer.t) (query : string)
  : Outcome Parse :=
  match query with
  | EmptyString =>
      match at_ with
      | InQuote =>
          (* the terminator is copied and [query] moves past it *)
          Undef
      | _ =>
          match Lexer.state lx with
          | ScanValue => Ret (Tokens (Lexer.head (Lexer.emit ScanValue lx)))
          | ScanToken => Ret (Tokens (Lexer.head lx))
          end
      end
  | String c rest =>
      let switch :=
        if ch c ":" || ch c "<" || ch c ">" || ch c "!" || ch c "=" then
          let '(operator, moved) := SQLfindOperator_helper query in
          match Lexer.state lx with
          | ScanToken =>
              match trim (Lexer.buffer lx) with
              | Undef => Undef
              | Ret keyword =>
                  let lx' :=
                    {| Lexer.state := ScanValue; Lexer.buffer := "";
                       Lexer.keyword := keyword; Lexer.operator := operator;
                       Lexer.head := Lexer.head lx |} in
                  if moved
                  then match rest with
                       | String _ rest' => scan AfterOperator lx' rest'
                       | EmptyString => scan AfterOperator lx' rest
                       end
                  else scan AfterOperator lx' rest
              end
          | ScanValue => Ret Abort
          end
        else if ch c "'" then
          match Lexer.state lx with
          | ScanValue => scan InQuote lx rest
          | ScanToken => Ret Abort
          end
        else if ch c " " || ch c "009" || ch c "010" then
          match Lexer.state lx with
          | ScanValue => scan AtSwitch (Lexer.emit ScanToken lx) rest
          | ScanToken => scan AtSwitch lx rest
          end
        else scan AtSwitch (Lexer.push c lx) rest in
      match at_ with
      | AtSwitch => switch
      | AfterOperator => if isspace c then scan AfterOperator lx rest else switch
      | InQuote =>
          if ch c "'" then scan AtSwitch lx rest
          else scan InQuote (Lexer.push c lx) rest
      end
  end.

Definition SQLParser_Parse (query : string) : Outcome Parse :=
  scan AtSwitch Lexer.init (cstr query).

(** ** The lexer on the object that holds the query *)

(** [SQLParser_Parse] reads its argument through a pointer that the loop of
    a quoted span moves past the terminator when the closing quote is
    missing, so that what it goes on to read is what lies behind the query
    in the object that holds it (in the shell, what is left in [input] of
    the lines before).  Here the lexer runs on the bytes of that object
    from the query on: [memory] is the query, its terminator and what lies
    behind it, and the scan ends in [Undef] when it leaves the object.
    [buffer] and [keyword] have [1 + strlen (query)] bytes, [room] being
    that length. *)
Module Memory.

(** [buffer[index++] = c]. *)
Definition push (room : nat) (c : ascii) (lx : Lexer.t) : Outcome Lexer.t :=
  if (String.length (Lexer.buffer lx) <=? room)%nat
  then Ret (Lexer.push c lx) else Undef.

(** [buffer[index] = '\0']. *)
Definition terminate (room : nat) (lx : Lexer.t) : Outcome unit :=
  if (String.length (Lexer.buffer lx) <=? room)%nat then Ret tt else Undef.

(** [buffer[index] = '\0'] and [appendToken (head, keyword, operator,
    buffer)], which takes of [buffer] what [strdup] takes: the bytes up to
    its first NUL. *)
Definition emit (room : nat) (next : ScannerState) (lx : Lexer.t)
  : Outcome Lexer.t :=
  _ ← terminate room lx;
  Ret {| Lexer.state := next; Lexer.buffer := "";
         Lexer.keyword := Lexer.keyword lx;
         Lexer.operator := Lexer.operator lx;
         Lexer.head := Lexer.head lx
                       ++ [ {| Token.keyword := Lexer.keyword lx;
                               Token.value := cstr (Lexer.buffer lx);
                               Token.operator := Lexer.operator lx |} ] |}.

(** The main loop of [SQLParser_Parse] on what is left of the object. *)
Fixpoint scan (room : nat) (at_ : Position) (lx : Lexer.t) (memory : string)
  : Outcome Parse :=
  match memory with
  | EmptyString => Undef
  | String c rest =>
      if code c =? 0 then
        match at_ with
        | InQuote =>
            (* the terminator is copied; [query] has moved past it when the
               loop ends, and moves once more at the end of the turn *)
            lx' ← push room c lx;
            _ ← terminate room lx';
            match rest with
            | String _ rest' => scan room AtSwitch lx' rest'
            | EmptyString => Undef
            end
        | _ =>
            match Lexer.state lx with
            | ScanValue =>
                lx' ← emit room ScanValue lx; Ret (Tokens (Lexer.head lx'))
            | ScanToken => Ret (Tokens (Lexer.head lx))
            end
        end
      else
        let switch :=
          if ch c ":" || ch c "<" || ch c ">" || ch c "!" || ch c "=" then
            if (ch c "<" || ch c ">") && (String.length rest =? 0)%nat then
              (* [*(query + 1)] lies outside the object *)
              Undef
            else
              let '(operator, moved) := SQLfindOperator_helper memory in
              match Lexer.state lx with
              | ScanToken =>
                  match trim (Lexer.buffer lx) with
                  | Undef => Undef
                  | Ret keyword =>
                      let lx' :=
                        {| Lexer.state := ScanValue; Lexer.buffer := "";
                           Lexer.keyword := cstr keyword;
                           Lexer.operator := operator;
                           Lexer.head := Lexer.head lx |} in
                      if moved
                      then match rest with
                           | String _ rest' => scan room AfterOperator lx' rest'
                           | EmptyString => scan room AfterOperator lx' rest
                           end
                      else scan room AfterOperator lx' rest
                  end
              | ScanValue => Ret Abort
              end
          else if ch c "'" then
            match Lexer.state lx with
            | ScanValue => scan room InQuote lx rest
            | ScanToken => Ret Abort
            end
          else if ch c " " || ch c "009" || ch c "010" then
            match Lexer.state lx with
            | ScanValue =>
                lx' ← emit room ScanToken lx; scan room AtSwitch lx' rest
            | ScanToken => scan room AtSwitch lx rest
            end
          else lx' ← push room c lx; scan room AtSwitch lx' rest in
        match at_ with
        | AtSwitch => switch
        | AfterOperator =>
            if isspace c then scan room AfterOperator lx rest else switch
        | InQuote =>
            if ch c "'" then _ ← terminate room lx; scan room AtSwitch lx rest
            else lx' ← push room c lx; scan room InQuote lx' rest
        end
  end.

(** [SQLParser_Parse (query)], [query] pointing at the first byte of
    [memory]. *)
Definition SQLParser_Parse (memory : string) : Outcome Parse :=
  scan (String.length (cstr memory)) AtSwitch Lexer.init memory.

End Memory.

(** The NUL byte as a string. *)
Definition nul : string := String zero "".

(** ** Command classifier *)

(** [struct StringIntMap] holds its [type] as an [enum QueryType]; the
    entries of [DataTypes] keep the field types in it. *)
Definition QueryTypes : list (string * QueryType) :=
  [("DATASET", Create); ("DELETE", Delete); ("INSERT_INTO", Insert);
   ("SELECT", Select); ("UPDATE", Update)].

Definition DataTypes : list (string * FieldType.t) :=
  [("BOOLEAN", FieldType.Boolean); ("INTEGER", FieldType.Integer);
   ("NUMBER", FieldType.Number); ("STRING", FieldType.String)].

(** [bsearch] with the [compare] of the header: halve the range
    [lo, hi) until the key is met. *)
Fixpoint bsearch {A} (fuel : nat) (query : string) (map : list (string * A))
    (lo hi : nat) : option A :=
  match fuel with
  | O => None
  | S fuel' =>
      if (lo <? hi)%nat then
        let mid := ((lo + hi) / 2)%nat in
        match nth_error map mid with
        | Some (name, type) =>
            let c := strcmp query name in
            if c <? 0 then bsearch fuel' query map lo mid
            else if 0 <? c then bsearch fuel' query map (S mid) hi
            else Some type
        | None => None
        end
      else None
  end.

Definition SQLParser_FindInMap {A} (query : string) (map : list (string * A))
    (invalid : A) : A :=
  match bsearch (S (length map)) query map 0 (length map) with
  | Some type => type
  | None => invalid
  end.

Definition SQLParser_GetQueryType (query : string) : QueryType :=
  SQLParser_FindInMap query QueryTypes Invalid.

Definition SQLParser_GetFieldType (query : string) : FieldType.t :=
  SQLParser_FindInMap query DataTypes FieldType.Unknown.

(** ** Storage *)

(** The files the engine works on.  [catalog] is ["__tables_data.dat"],
    a sequence of [struct TableStructureInfo] records, absent before the
    first CREATE, and kept apart from the text files: no record is taken
    to bear the name of the catalog file (the records that CREATE writes
    bear at most the 7 bytes that [DATASET] has).  [files] are the text
    files (table storage and temporaries) by path; [fopen] fails on the
    paths in [denied] and on the empty path; [tmpname] is the name
    [_mktemp] makes of the template, if any; [stdout] is what has been
    printed.  [remove] and [rename] are taken to succeed, as are the
    writes to an open stream; [Unreliable] below has them fail. *)
Module World.
Record t := {
  catalog : option (list TableStructureInfo.t);
  files : gmap string string;
  denied : gset string;
  tmpname : option string;
  stdout : string }.

Definition with_files (f : gmap string string) (w : t) : t :=
  {| catalog := catalog w; files := f; denied := denied w;
     tmpname := tmpname w; stdout := stdout w |}.

Definition with_catalog (c : option (list TableStructureInfo.t)) (w : t) : t :=
  {| catalog := c; files := files w; denied := denied w;
     tmpname := tmpname w; stdout := stdout w |}.

Definition printf (s : string) (w : t) : t :=
  {| catalog := catalog w; files := files w; denied := denied w;
     tmpname := tmpname w; stdout := stdout w +:+ s |}.

(** Whether [fopen] can succeed on [path] at all. *)
Definition openable (path : string) (w : t) : bool :=
  negb (String.eqb path "") && bool_decide (path ∉ denied w).

(** [fopen (path, "r")]: the content to read. *)
Definition fopen_r (path : string) (w : t) : option string :=
  if openable path w then files w !! path else None.

(** [fopen (path, "w")]: the file is created empty. *)
Definition fopen_w (path : string) (w : t) : option t :=
  if openable path w then Some (with_files (<[path := ""]> (files w)) w)
  else None.

(** [fopen (path, "a+")]: the file is created when absent. *)
Definition fopen_a (path : string) (w : t) : option t :=
  if openable path w
  then Some (with_files (<[path := default "" (files w !! path)]> (files w)) w)
  else None.

(** What has been written to a stream reaches the file by [fclose]. *)
Definition fwrite (path : string) (text : string) (w : t) : t :=
  with_files (<[path := default "" (files w !! path) +:+ text]> (files w)) w.

Definition remove (path : string) (w : t) : t :=
  with_files (delete path (files w)) w.

Definition rename (old new : string) (w : t) : t :=
  match files w !! old with
  | Some text => with_files (<[new := text]> (delete old (files w))) w
  | None => w
  end.
End World.

(** The loop of [SQLParser_FindColumn], [n] turns from column [i] on. *)
Fixpoint find_column (n : nat) (i : Z) (table : TableStructureInfo.t)
    (column : string) : Outcome Z :=
  match n with
  | O => Ret (-1)
  | S n' =>
      name ← slot (TableStructureInfo.columns table) "" i;
      if strcmp column name =? 0 then Ret (to_int i)
      else find_column n' (i + 1) table column
  end.

(** Simple brute force search for a column position.  Column 128 is
    outside [table->columns], so the search is over by then whatever
    [table->count] says. *)
Definition SQLParser_FindColumn (table : TableStructureInfo.t)
    (column : string) : Outcome Z :=
  find_column (Z.to_nat (Z.min (TableStructureInfo.count table) 129)) 0
    table column.

(** One field of a record, by the [switch] of [SQLwriteRowToFile]. *)
Definition file_field (column : Column.t) : Outcome string :=
  match Column.type column, Column.value column with
  | FieldType.Integer, VInteger i => Ret (fmt_d i +:+ ";")
  | FieldType.Boolean, VBoolean b => Ret ((if b then "True" else "False") +:+ ";")
  | FieldType.Number, VNumber x => Ret (fmt_g x +:+ ";")
  | FieldType.String, VString s => Ret ("'" +:+ s +:+ "';")
  | FieldType.Unknown, _ => Ret ""
  | _, _ => Undef
  end.

(** One field of a printed row, by the [switch] of [SQLwriteRowToStdout]. *)
Definition stdout_field (column : Column.t) : Outcome string :=
  match Column.type column, Column.value column with
  | FieldType.Integer, VInteger i => Ret (pad_left (fmt_d i) +:+ "|" +:+ String "009" "")
  | FieldType.Boolean, VBoolean b =>
      Ret (pad_right (if b then "True" else "False") +:+ "|" +:+ String "009" "")
  | FieldType.Number, VNumber x => Ret (pad_left (fmt_g x) +:+ "|" +:+ String "009" "")
  | FieldType.String, VString s => Ret (pad_right s +:+ "|" +:+ String "009" "")
  | FieldType.Unknown, _ => Ret ""
  | _, _ => Undef
  end.

(** The loop [for (i = 0 ; i < row->columnCount ; ++i)] over the columns of
    a row, [n] turns from column [i] on. *)
Fixpoint fields (field : Column.t -> Outcome string) (n : nat) (i : Z)
    (row : Row.t) : Outcome string :=
  match n with
  | O => Ret ""
  | S n' =>
      column ← slot (Row.columns row) Column.zero i;
      text ← field column;
      more ← fields field n' (i + 1) row;
      Ret (text +:+ more)
  end.

(** How many turns the loop over the columns takes; since column 128 is
    outside the row, nothing is lost by stopping there. *)
Definition turns (row : Row.t) : nat :=
  Z.to_nat (Z.min (Row.columnCount row) 129).

Definition newline : string := String "010" "".

(** Send the row to stdout, for printing select results. *)
Definition SQLwriteRowToStdout (row : Row.t) : Outcome string :=
  text ← fields stdout_field (turns row) 0 row;
  Ret (text +:+ newline).

(** Send row to a [FILE *]: the text of the record. *)
Definition SQLwriteRowToFile (row : Row.t) : Outcome string :=
  text ← fields file_field (turns row) 0 row;
  Ret (fmt_d (Row.index row) +:+ ";" +:+ text +:+ newline).

(** Modify the row, and send it to the file. *)
Fixpoint update_row (tableStructure : TableStructureInfo.t) (list : TokenList)
    (row : Row.t) : Outcome Row.t :=
  match list with
  | [] => Ret row
  | tok :: next =>
      match Token.operator tok with
      | AssignOperator =>
          index ← SQLParser_FindColumn tableStructure (Token.keyword tok);
          if index =? -1 then update_row tableStructure next row
          else
            type ← slot (TableStructureInfo.columnTypes tableStructure)
                        FieldType.Integer index;
            value ← SQLvalueFromStringAndType (Token.value tok) type;
            column ← slot (Row.columns row) Column.zero index;
            columns ← store (Row.columns row) Column.zero index
                        {| Column.value := value;
                           Column.type := Column.type column;
                           Column.position := Column.position column |};
            update_row tableStructure next
              {| Row.index := Row.index row; Row.columns := columns;
                 Row.columnCount := Row.columnCount row |}
      | _ => update_row tableStructure next row
      end
  end.

Definition SQLupdateRowAndWriteToFile (tableStructure : TableStructureInfo.t)
    (list : TokenList) (row : Row.t) : Outcome string :=
  row' ← update_row tableStructure list row;
  SQLwriteRowToFile row'.

(** Write one row to the file. *)
Definition SQLwriteRow (table : string) (row : Row.t) (w : World.t)
  : Outcome World.t :=
  match World.fopen_a table w with
  | None => Ret w
  | Some w' =>
      text ← SQLwriteRowToFile row;
      Ret (World.fwrite table text w')
  end.

(** [fgets (line, size, file)] with [k = size - 1] bytes of room: the
    line read and what is left of the file. *)
Fixpoint fgets (k : nat) (file : string) : string * string :=
  match k, file with
  | S k', String c rest =>
      if ch c "010" then (String c "", rest)
      else let '(line, rest') := fgets k' rest in (String c line, rest')
  | _, _ => ("", file)
  end.

(** The tokens that successive calls of [strtok (.., ";")] cut out of a
    line: its non-empty stretches free of [;]. *)
Fixpoint strtok (current : string) (line : string) : list string :=
  match line with
  | EmptyString =>
      match current with
      | EmptyString => []
      | _ => [current]
      end
  | String c rest =>
      if ch c ";" then
        match current with
        | EmptyString => strtok "" rest
        | _ => current :: strtok "" rest
        end
      else strtok (current +:+ String c "") rest
  end.

(** The loop of [SQLreadRow] over the tokens of a line. *)
Fixpoint read_columns (tableStructure : TableStructureInfo.t)
    (tokens : list string) (columnIndex : Z) (current : Row.t)
  : Outcome Row.t :=
  match tokens with
  | [] => Ret current
  | token :: tokens' =>
      if columnIndex >? -1 then
        type ← slot (TableStructureInfo.columnTypes tableStructure)
                    FieldType.Integer columnIndex;
        value ← SQLvalueFromStringAndType token type;
        columns ← store (Row.columns current) Column.zero columnIndex
                    {| Column.value := value; Column.type := type;
                       Column.position := columnIndex |};
        read_columns tableStructure tokens' (columnIndex + 1)
          {| Row.index := Row.index current; Row.columns := columns;
             Row.columnCount := to_size_t (Row.columnCount current + 1) |}
      else
        read_columns tableStructure tokens' (columnIndex + 1)
          {| Row.index := to_int (strtol token);
             Row.columns := Row.columns current;
             Row.columnCount := Row.columnCount current |}
  end.

(** This will read a row from the file: nothing at its end, else the row
    and the rest of the file.  The line buffer has
    [2 + 128 * tableStructure->count] bytes. *)
Definition SQLreadRow (file : string) (tableStructure : TableStructureInfo.t)
  : Outcome (option (Row.t * string)) :=
  match file with
  | EmptyString => Ret None
  | _ =>
      let size := 2 + 128 * TableStructureInfo.count tableStructure in
      let room := Z.min (size - 1) (Z.of_nat (String.length file)) in
      let '(line, rest) := fgets (Z.to_nat room) file in
      current ← read_columns tableStructure (strtok "" (cstr line)) (-1)
                  {| Row.index := 0; Row.columns := []; Row.columnCount := 0 |};
      Ret (Some ({| Row.index := Row.index current;
                    Row.columns := Row.columns current;
                    Row.columnCount := to_size_t (Row.columnCount current - 1) |},
                 rest))
  end.

(** The conditions of [SQLfilterRow], from the token after the command on. *)
Fixpoint filter_conditions (list : TokenList)
    (tableStructure : TableStructureInfo.t) (row : Row.t) : Outcome Z :=
  match list with
  | [] => Ret 1
  | tok :: next =>
      position ← SQLParser_FindColumn tableStructure (Token.keyword tok);
      if negb (position =? -1) then
        column ← slot (Row.columns row) Column.zero position;
        compared ← SQLcompareValues list (Column.value column) (Column.type column);
        if negb (compared =? -1)
           && (position =? Column.position column) && (compared =? 0)
        then Ret 0
        else filter_conditions next tableStructure row
      else filter_conditions next tableStructure row
  end.

(** This function will filter the row according to the conditions in list:
    0 when some condition on a column of the row fails, 1 otherwise. *)
Definition SQLfilterRow (list : TokenList)
    (tableStructure : TableStructureInfo.t) (row : Row.t) : Outcome Z :=
  match list with
  | [] => Ret 0
  | _ :: [] => Ret 1
  | _ :: next => filter_conditions next tableStructure row
  end.

(** The reading loop of [SQLloadTable]; every turn consumes some of the
    file, so its length bounds the turns. *)
Fixpoint load_rows (fuel : nat) (file : string) (list : TokenList)
    (tableStructure : TableStructureInfo.t) : Outcome Table :=
  match fuel with
  | O => Undef
  | S fuel' =>
      read ← SQLreadRow file tableStructure;
      match read with
      | None => Ret []
      | Some (row, rest) =>
          keep ← match list with
                 | [] => Ret true
                 | _ => kept ← SQLfilterRow list tableStructure row;
                        Ret (negb (kept =? 0))
                 end;
          rows ← load_rows fuel' rest list tableStructure;
          Ret (if keep : bool then row :: rows else rows)
      end
  end.

(** [SQLloadTable]: the rows of the table that pass the filter of [list],
    all of them when [list] is [NULL].  [table.rowCount] is set when a row
    is stored and by nothing else, so the structure that is handed back is
    indeterminate when the file cannot be opened or no row is kept. *)
Definition SQLloadTable (list : TokenList)
    (tableStructure : TableStructureInfo.t) (w : World.t)
  : Outcome Table :=
  match World.fopen_r (TableStructureInfo.name tableStructure) w with
  | None => Undef
  | Some file =>
      rows ← load_rows (S (String.length file)) file list tableStructure;
      match rows with
      | [] => Undef
      | _ => Ret rows
      end
  end.

(** Check if this row is valid: the answer, after what is printed. *)
Definition SQLisValidRow (list : TokenList)
    (tableStructure : TableStructureInfo.t) (row : Row.t) (w : World.t)
  : Outcome (World.t * Z) :=
  match list with
  | [] => Ret (w, 1)
  | tok :: _ =>
      if Row.columnCount row >? TableStructureInfo.count tableStructure then
        Ret (World.printf ("you specified more columns than avaiable" +:+ newline) w, 0)
      else
        position ← SQLParser_FindColumn tableStructure (Token.keyword tok);
        if position =? -1 then
          Ret (World.printf ("no column `" +:+ Token.keyword tok
                             +:+ "` in table `"
                             +:+ TableStructureInfo.name tableStructure
                             +:+ "`" +:+ newline) w, 0)
        else Ret (w, 1)
  end.

(** Print the table to stdout. *)
Fixpoint SQLprintTable (rows : Table) (w : World.t) : Outcome World.t :=
  match rows with
  | [] => Ret w
  | row :: rows' =>
      text ← SQLwriteRowToStdout row;
      SQLprintTable rows' (World.printf text w)
  end.

(** The sql select function. *)
Definition SQLselect (list : TokenList) (tableStructure : TableStructureInfo.t)
    (w : World.t) : Outcome World.t :=
  table ← SQLloadTable list tableStructure w;
  SQLprintTable table w.

(** ** Query executors *)

(** The loop of [SQLdelete] over the loaded rows: the world (for what is
    printed) and either the text written to the temporary file, or [None]
    when a row is invalid and the operation is aborted. *)
Fixpoint delete_rows (list : TokenList) (tableStructure : TableStructureInfo.t)
    (rows : Table) (w : World.t) : Outcome (World.t * option string) :=
  match rows with
  | [] => Ret (w, Some "")
  | row :: rows' =>
      '(w1, valid) ← SQLisValidRow (tl list) tableStructure row w;
      if valid =? 0 then Ret (w1, None)
      else
        kept ← SQLfilterRow list tableStructure row;
        text ← (if kept =? 0 then SQLwriteRowToFile row else Ret "");
        '(w2, more) ← delete_rows list tableStructure rows' w1;
        Ret (w2, option_map (fun t => text +:+ t) more)
  end.

(** The loop of [SQLupdate] over the loaded rows. *)
Fixpoint update_rows (list : TokenList) (tableStructure : TableStructureInfo.t)
    (rows : Table) (w : World.t) : Outcome (World.t * option string) :=
  match rows with
  | [] => Ret (w, Some "")
  | row :: rows' =>
      '(w1, valid) ← SQLisValidRow (tl list) tableStructure row w;
      if valid =? 0 then Ret (w1, None)
      else
        kept ← SQLfilterRow list tableStructure row;
        text ← (if kept =? 0 then SQLwriteRowToFile row
                else SQLupdateRowAndWriteToFile tableStructure (tl list) row);
        '(w2, more) ← update_rows list tableStructure rows' w1;
        Ret (w2, option_map (fun t => text +:+ t) more)
  end.

(** The sql delete function: the temporary file is made and opened, the
    table is loaded, the rows that do not satisfy the conditions are written
    back, and the temporary file takes the place of the storage file; when a
    row is invalid the temporary file is removed instead. *)
Definition SQLdelete (list : TokenList) (tableStructure : TableStructureInfo.t)
    (w : World.t) : Outcome World.t :=
  match World.tmpname w with
  | None => Ret w
  | Some filename =>
      match World.fopen_w filename w with
      | None => Ret w
      | Some w0 =>
          table ← SQLloadTable [] tableStructure w0;
          match list with
          | [] => Undef
          | _ =>
              '(w1, written) ← delete_rows list tableStructure table w0;
              match written with
              | Some text =>
                  let w2 := World.fwrite filename text w1 in
                  let w3 := World.remove (TableStructureInfo.name tableStructure) w2 in
                  Ret (World.rename filename
                         (TableStructureInfo.name tableStructure) w3)
              | None => Ret (World.remove filename w1)
              end
          end
      end
  end.

(** The sql update function: as [SQLdelete], the rows that satisfy the
    conditions being written back modified. *)
Definition SQLupdate (list : TokenList) (tableStructure : TableStructureInfo.t)
    (w : World.t) : Outcome World.t :=
  match World.tmpname w with
  | None => Ret w
  | Some filename =>
      match World.fopen_w filename w with
      | None => Ret w
      | Some w0 =>
          table ← SQLloadTable [] tableStructure w0;
          match list with
          | [] => Undef
          | _ =>
              '(w1, written) ← update_rows list tableStructure table w0;
              match written with
              | Some text =>
                  let w2 := World.fwrite filename text w1 in
                  let w3 := World.remove (TableStructureInfo.name tableStructure) w2 in
                  Ret (World.rename filename
                         (TableStructureInfo.name tableStructure) w3)
              | None => Ret (World.remove filename w1)
              end
          end
      end
  end.

(** Simple check operators are equal function. *)
Definition SQLcheckOperator (lhs rhs : Operator) (w : World.t) : World.t * Z :=
  if bool_decide (lhs = rhs) then (w, 1)
  else (World.printf ("invalid operator for expression." +:+ newline) w, 0).
(** The loop of [SQLinsert] over the assignments: the row they make, or
    [None] when one of them is turned down. *)
Fixpoint insert_row (list : TokenList) (tableStructure : TableStructureInfo.t)
    (row : Row.t) (w : World.t) : Outcome (World.t * option Row.t) :=
  match list with
  | [] => Ret (w, Some row)
  | tok :: next =>
      let '(w1, same) := SQLcheckOperator (Token.operator tok) AssignOperator w in
      if same =? 0 then Ret (w1, None)
      else
        '(w2, valid) ← SQLisValidRow list tableStructure row w1;
        if valid =? 0 then Ret (w2, None)
        else
          type ← slot (TableStructureInfo.columnTypes tableStructure)
                      FieldType.Integer (Row.columnCount row);
          value ← SQLvalueFromStringAndType (Token.value tok) type;
          position ← SQLParser_FindColumn tableStructure (Token.keyword tok);
          columns ← store (Row.columns row) Column.zero (Row.columnCount row)
                      {| Column.value := value; Column.type := type;
                         Column.position := position |};
          insert_row next tableStructure
            {| Row.index := Row.index row; Row.columns := columns;
               Row.columnCount := to_size_t (Row.columnCount row + 1) |} w2
  end.

(** The sql insert function. *)
Definition SQLinsert (list : TokenList) (tableStructure : TableStructureInfo.t)
    (w : World.t) : Outcome World.t :=
  match list with
  | [] => Ret w
  | _ :: next =>
      let tableName := TableStructureInfo.name tableStructure in
      '(w1, made) ← insert_row next tableStructure
                      {| Row.index := 0; Row.columns := []; Row.columnCount := 0 |} w;
      match made with
      | Some row => SQLwriteRow tableName row w1
      | None => Ret w1
      end
  end.

(** ** Catalog *)

Definition catalog_path : string := "__tables_data.dat".

(** [memcpy (info.name, list->value, length)] on the zero-filled name:
    the C string that results.  [value] has one byte more than its length,
    and nothing beyond that may be read. *)
Definition copy_name (value : string) (length : nat) : Outcome string :=
  if (length <=? S (String.length value))%nat
  then Ret (substring 0 length value)
  else Undef.

(** The loop of [SQLParser_CreateTable] over the columns.  A name of 128
    bytes or more fills its slot of [info.columns] without a terminator or
    runs over it; the test on its length lets it pass,
    [sizeof (info.columns)] being 16384. *)
Fixpoint create_columns (current : TokenList) (info : TableStructureInfo.t)
  : Outcome (option TableStructureInfo.t) :=
  match current with
  | [] => Ret (Some info)
  | tok :: next =>
      let length := Z.of_nat (String.length (Token.keyword tok)) in
      if length >? 128 * 128 - 1 then Ret None
      else if length >? 127 then Undef
      else
        columns ← store (TableStructureInfo.columns info) ""
                    (TableStructureInfo.count info) (Token.keyword tok);
        columnTypes ← store (TableStructureInfo.columnTypes info)
                        FieldType.Integer (TableStructureInfo.count info)
                        (SQLParser_GetFieldType (Token.value tok));
        let count := to_size_t (TableStructureInfo.count info + 1) in
        if count >? 128 * 4 then Ret None
        else create_columns next
               {| TableStructureInfo.count := count;
                  TableStructureInfo.columns := columns;
                  TableStructureInfo.columnTypes := columnTypes;
                  TableStructureInfo.name := TableStructureInfo.name info |}
  end.

(** This function will create a table in the database: 0 when the record
    was written, 1 otherwise. *)
Definition SQLParser_CreateTable (list : TokenList) (w : World.t)
  : Outcome (World.t * Z) :=
  match list with
  | [] => Ret (w, 1)
  | tok :: next =>
      if World.openable catalog_path w then
        (* the file exists from now on *)
        let w0 := World.with_catalog (Some (default [] (World.catalog w))) w in
        let length := String.length (Token.keyword tok) in
        if (Z.of_nat length >? 128 - 1) then Ret (w0, 1)
        else
          name ← copy_name (Token.value tok) length;
          made ← create_columns next
                   {| TableStructureInfo.count := 0;
                      TableStructureInfo.columns := [];
                      TableStructureInfo.columnTypes := [];
                      TableStructureInfo.name := name |};
          match made with
          | Some info =>
              Ret (World.with_catalog
                     (Some (default [] (World.catalog w) ++ [info])%list) w, 0)
          | None => Ret (w0, 1)
          end
      else Ret (w, 1)
  end.

(** The records of the catalog are read until one bears the name. *)
Fixpoint find_record (name : string) (records : list TableStructureInfo.t)
  : TableStructureInfo.t :=
  match records with
  | [] => TableStructureInfo.zero
  | table :: records' =>
      if strcmp name (TableStructureInfo.name table) =? 0 then table
      else find_record name records'
  end.

(** This function searches for a table in the catalog; the zero-filled
    structure stands for none. *)
Definition SQLParser_FindTable (name : string) (w : World.t)
  : TableStructureInfo.t :=
  if World.openable catalog_path w then
    match World.catalog w with
    | Some records => find_record name records
    | None => TableStructureInfo.zero
    end
  else TableStructureInfo.zero.

(** ** Entry point *)

(** Execute query function: 1 when the query yields no token list, 0 in
    every other case. *)
Definition SQLExecuteQuery (query : string) (w : World.t)
  : Outcome (World.t * Z) :=
  parsed ← SQLParser_Parse query;
  match parsed with
  | Abort => Ret (World.printf ("error: cannot parse query." +:+ newline) w, 1)
  | Tokens [] => Ret (w, 1)
  | Tokens ((tok :: _) as list) =>
      let table := SQLParser_FindTable (Token.value tok) w in
      w' ← match SQLParser_GetQueryType (Token.keyword tok) with
           | Create =>
               if ch (peek (TableStructureInfo.name table)) zero then
                 '(w1, _) ← SQLParser_CreateTable list w; Ret w1
               else
                 Ret (World.printf
                        ("there is a table with the same name, cannot create table `"
                         +:+ Token.value tok +:+ "`" +:+ newline) w)
           | Select => SQLselect list table w
           | Update => SQLupdate list table w
           | Insert => SQLinsert list table w
           | Delete => SQLdelete list table w
           | Invalid => Ret w
           end;
      Ret (w', 0)
  end.

(** ** Storage that fails *)

(** The paths on which a storage operation fails: what is written to a
    stream on a path of [write] does not reach the file, [remove] of a path
    of [remove] and [rename] from or to a path of [rename] leave the files
    as they are.  ([rename] to a path that bears a file fails on the
    Windows runtime and replaces the file elsewhere; [rename] covers
    both.) *)
Module Faults.
Record t := {
  write : gset string;
  remove : gset string;
  rename : gset string }.

Definition none : t := {| write := ∅; remove := ∅; rename := ∅ |}.
End Faults.

(** The executors over storage that fails.  They are those of the header
    once more: no result of [fprintf], [fwrite], [fclose], [remove] or
    [rename] is looked at but that of [fwrite] in [SQLParser_CreateTable],
    whose status [SQLExecuteQuery] drops. *)
Module Unreliable.
Section WithFaults.

Variable faults : Faults.t.

Definition fwrite (path : string) (text : string) (w : World.t) : World.t :=
  if bool_decide (path ∈ Faults.write faults) then w
  else World.fwrite path text w.

Definition remove (path : string) (w : World.t) : World.t :=
  if bool_decide (path ∈ Faults.remove faults) then w
  else World.remove path w.

Definition rename (old new : string) (w : World.t) : World.t :=
  if bool_decide (old ∈ Faults.rename faults)
     || bool_decide (new ∈ Faults.rename faults) then w
  else World.rename old new w.

(** Write one row to the file. *)
Definition SQLwriteRow (table : string) (row : Row.t) (w : World.t)
  : Outcome World.t :=
  match World.fopen_a table w with
  | None => Ret w
  | Some w' =>
      text ← SQLwriteRowToFile row;
      Ret (fwrite table text w')
  end.

(** The sql delete function. *)
Definition SQLdelete (list : TokenList) (tableStructure : TableStructureInfo.t)
    (w : World.t) : Outcome World.t :=
  match World.tmpname w with
  | None => Ret w
  | Some filename =>
      match World.fopen_w filename w with
      | None => Ret w
      | Some w0 =>
          table ← SQLloadTable [] tableStructure w0;
          match list with
          | [] => Undef
          | _ =>
              '(w1, written) ← delete_rows list tableStructure table w0;
              match written with
              | Some text =>
                  let w2 := fwrite filename text w1 in
                  let w3 := remove (TableStructureInfo.name tableStructure) w2 in
                  Ret (rename filename
                         (TableStructureInfo.name tableStructure) w3)
              | None => Ret (remove filename w1)
              end
          end
      end
  end.

(** The sql update function. *)
Definition SQLupdate (list : TokenList) (tableStructure : TableStructureInfo.t)
    (w : World.t) : Outcome World.t :=
  match World.tmpname w with
  | None => Ret w
  | Some filename =>
      match World.fopen_w filename w with
      | None => Ret w
      | Some w0 =>
          table ← SQLloadTable [] tableStructure w0;
          match list with
          | [] => Undef
          | _ =>
              '(w1, written) ← update_rows list tableStructure table w0;
              match written with
              | Some text =>
                  let w2 := fwrite filename text w1 in
                  let w3 := remove (TableStructureInfo.name tableStructure) w2 in
                  Ret (rename filename
                         (TableStructureInfo.name tableStructure) w3)
              | None => Ret (remove filename w1)
              end
          end
      end
  end.

(** The sql insert function. *)
Definition SQLinsert (list : TokenList) (tableStructure : TableStructureInfo.t)
    (w : World.t) : Outcome World.t :=
  match list with
  | [] => Ret w
  | _ :: next =>
      let tableName := TableStructureInfo.name tableStructure in
      '(w1, made) ← insert_row next tableStructure
                      {| Row.index := 0; Row.columns := []; Row.columnCount := 0 |} w;
      match made with
      | Some row => SQLwriteRow tableName row w1
      | None => Ret w1
      end
  end.

(** This function will create a table in the database: 0 when [fwrite]
    wrote the record, 1 otherwise. *)
Definition SQLParser_CreateTable (list : TokenList) (w : World.t)
  : Outcome (World.t * Z) :=
  match list with
  | [] => Ret (w, 1)
  | tok :: next =>
      if World.openable catalog_path w then
        let w0 := World.with_catalog (Some (default [] (World.catalog w))) w in
        let length := String.length (Token.keyword tok) in
        if (Z.of_nat length >? 128 - 1) then Ret (w0, 1)
        else
          name ← copy_name (Token.value tok) length;
          made ← create_columns next
                   {| TableStructureInfo.count := 0;
                      TableStructureInfo.columns := [];
                      TableStructureInfo.columnTypes := [];
                      TableStructureInfo.name := name |};
          match made with
          | Some info =>
              if bool_decide (catalog_path ∈ Faults.write faults)
              then Ret (w0, 1)
              else Ret (World.with_catalog
                          (Some (default [] (World.catalog w) ++ [info])%list)
                          w, 0)
          | None => Ret (w0, 1)
          end
      else Ret (w, 1)
  end.

(** Execute query function. *)
Definition SQLExecuteQuery (query : string) (w : World.t)
  : Outcome (World.t * Z) :=
  parsed ← SQLParser_Parse query;
  match parsed with
  | Abort => Ret (World.printf ("error: cannot parse query." +:+ newline) w, 1)
  | Tokens [] => Ret (w, 1)
  | Tokens ((tok :: _) as list) =>
      let table := SQLParser_FindTable (Token.value tok) w in
      w' ← match SQLParser_GetQueryType (Token.keyword tok) with
           | Create =>
               if ch (peek (TableStructureInfo.name table)) zero then
                 '(w1, _) ← SQLParser_CreateTable list w; Ret w1
               else
                 Ret (World.printf
                        ("there is a table with the same name, cannot create table `"
                         +:+ Token.value tok +:+ "`" +:+ newline) w)
           | Select => SQLselect list table w
           | Update => SQLupdate list table w
           | Insert => SQLinsert list table w
           | Delete => SQLdelete list table w
           | Invalid => Ret w
           end;
      Ret (w', 0)
  end.

End WithFaults.
End Unreliable.

(** ** The shell ([main.c]) *)

(** What [main] prints first. *)
Definition banner : string :=
  "--------------------- Database Manager ---------------------" +:+ newline.

(** What it prints before every line it reads. *)
Definition prompt : string := "dbc > ".

(** [if (input[length - 1] == '\n') input[length - 1] = '\0'], for an
    input that is not empty. *)
Fixpoint chomp (input : string) : string :=
  match input with
  | String c EmptyString => if ch c "010" then EmptyString else input
  | String c rest => String c (chomp rest)
  | EmptyString => EmptyString
  end.

(** The loop of [main] over what is left of stdin: the world and the exit
    status.  [input] has 500 bytes; every turn consumes some of stdin, so
    its length bounds the turns.  An input whose first byte is NUL has
    length 0 and is looked up at [length - 1], before the array. *)
Fixpoint main_loop (fuel : nat) (stdin : string) (w : World.t)
  : Outcome (World.t * Z) :=
  match fuel with
  | O => Undef
  | S fuel' =>
      let w := World.printf prompt w in
      match stdin with
      | EmptyString => Ret (w, -1)
      | _ =>
          let '(line, rest) := fgets 499 stdin in
          match cstr line with
          | EmptyString => Undef
          | input =>
              let input := chomp input in
              if (strcmp input "exit" =? 0) || (strcmp input "\q" =? 0)
              then Ret (w, 0)
              else
                '(w', _) ← SQLExecuteQuery input w;
                main_loop fuel' rest w'
          end
      end
  end.

(** [main]: the world at its end and the status it returns. *)
Definition main (stdin : string) (w : World.t) : Outcome (World.t * Z) :=
  main_loop (S (String.length stdin)) stdin (World.printf banner w).

(** ** Auxiliary definitions for the statements *)

Definition token (keyword : string) (operator : Operator) (value : string)
  : Token.t :=
  {| Token.keyword := keyword; Token.value := value;
     Token.operator := operator |}.

Definition quote : ascii := "'".

(** No single quote occurs in the string. *)
Fixpoint quote_free (s : string) : bool :=
  match s with
  | EmptyString => true
  | String c rest => negb (ch c quote) && quote_free rest
  end.

(** [buffer] with a run of characters added, one [buffer[index++] = c] at
    a time. *)
Definition pushes (span : string) (lx : Lexer.t) : Lexer.t :=
  {| Lexer.state := Lexer.state lx;
     Lexer.buffer := Lexer.buffer lx +:+ span;
     Lexer.keyword := Lexer.keyword lx;
     Lexer.operator := Lexer.operator lx;
     Lexer.head := Lexer.head lx |}.

(** A world for the examples: no catalog yet, no file, every path open. *)
Definition fresh : World.t :=
  {| World.catalog := None; World.files := ∅; World.denied := ∅;
     World.tmpname := Some "__database_Temporary_a01234";
     World.stdout := "" |}.

(** The schema [people (age INTEGER)] and a world that holds it, with the
    given storage file for it. *)
Definition people : TableStructureInfo.t :=
  {| TableStructureInfo.count := 1;
     TableStructureInfo.columns := ["age"];
     TableStructureInfo.columnTypes := [FieldType.Integer];
     TableStructureInfo.name := "people" |}.

Definition with_people (file : option string) (denied : gset string)
  : World.t :=
  {| World.catalog := Some [people];
     World.files := match file with
                    | Some text => {[ "people" := text ]}
                    | None => ∅
                    end;
     World.denied := denied;
     World.tmpname := Some "__database_Temporary_a01234";
     World.stdout := "" |}.

(** The world after [DATASET:customers id:INTEGER] in [fresh]. *)
Definition customers : World.t :=
  World.with_catalog
    (Some [ {| TableStructureInfo.count := 1;
               TableStructureInfo.columns := ["id"];
               TableStructureInfo.columnTypes := [FieldType.Integer];
               TableStructureInfo.name := "custome" |} ]) fresh.

(** The records of the rows of a table, one after the other, as
    [SQLwriteRowToFile] writes them. *)
Fixpoint records (table : Table) : Outcome string :=
  match table with
  | [] => Ret ""
  | row :: rows =>
      text ← SQLwriteRowToFile row;
      more ← records rows;
      Ret (text +:+ more)
  end.

(** The row [SQLinsert] starts from. *)
Definition new_row : Row.t :=
  {| Row.index := 0; Row.columns := []; Row.columnCount := 0 |}.

(** ** Auxiliary definitions for the further properties *)

(** Whether the operator is one of the six relations. *)
Definition relational (operator : Operator) : bool :=
  match operator with
  | InvalidOperator | AssignOperator => false
  | _ => true
  end.

(** An operator character or a quote. *)
Definition special (c : ascii) : bool :=
  ch c ":" || ch c "<" || ch c ">" || ch c "!" || ch c "=" || ch c "'".

(** No operator character occurs in the string. *)
Fixpoint operator_free (s : string) : bool :=
  match s with
  | EmptyString => true
  | String c rest => negb (special c) && operator_free rest
  end.

(** A keyword as the lexer stores it: not empty, no white space at either
    end. *)
Definition trimmed (keyword : string) : Prop :=
  keyword <> "" /\ skip_space keyword = keyword
  /\ drop_trailing_space keyword = keyword.

(** A token as the lexer makes it. *)
Definition token_ok (tok : Token.t) : Prop :=
  trimmed (Token.keyword tok) /\ Token.operator tok <> InvalidOperator.

(** The tokens made so far are as the lexer makes them, and so is the one
    under way once its operator has been read. *)
Definition lexer_ok (lx : Lexer.t) : Prop :=
  Forall token_ok (Lexer.head lx)
  /\ (Lexer.state lx = ScanValue ->
      trimmed (Lexer.keyword lx) /\ Lexer.operator lx <> InvalidOperator).

(** The [switch] of the main loop on the character [c] with [rest] behind
    it. *)
Definition switch (c : ascii) (rest : string) (lx : Lexer.t) : Outcome Parse :=
  if ch c ":" || ch c "<" || ch c ">" || ch c "!" || ch c "=" then
    let '(operator, moved) := SQLfindOperator_helper (String c rest) in
    match Lexer.state lx with
    | ScanToken =>
        match trim (Lexer.buffer lx) with
        | Undef => Undef
        | Ret keyword =>
            let lx' :=
              {| Lexer.state := ScanValue; Lexer.buffer := "";
                 Lexer.keyword := keyword; Lexer.operator := operator;
                 Lexer.head := Lexer.head lx |} in
            if moved
            then match rest with
                 | String _ rest' => scan AfterOperator lx' rest'
                 | EmptyString => scan AfterOperator lx' rest
                 end
            else scan AfterOperator lx' rest
        end
    | ScanValue => Ret Abort
    end
  else if ch c "'" then
    match Lexer.state lx with
    | ScanValue => scan InQuote lx rest
    | ScanToken => Ret Abort
    end
  else if ch c " " || ch c "009" || ch c "010" then
    match Lexer.state lx with
    | ScanValue => scan AtSwitch (Lexer.emit ScanToken lx) rest
    | ScanToken => scan AtSwitch lx rest
    end
  else scan AtSwitch (Lexer.push c lx) rest.

(** How an operator is written in a query. *)
Definition lexeme (operator : Operator) : string :=
  match operator with
  | EqualOperator => "="
  | NotEqualOperator => "<>"
  | GreaterThanOperator => ">"
  | LessThanOperator => "<"
  | GreaterOrEqualOperator => ">="
  | LessOrEqualOperator => "<="
  | AssignOperator => ":"
  | InvalidOperator => ""
  end.

(** A character that is neither white space, nor an operator character or
    a quote, nor NUL. *)
Definition plain (c : ascii) : bool :=
  negb (isspace c || special c || (code c =? 0)).

(** Plain characters only. *)
Fixpoint plain_tail (s : string) : bool :=
  match s with
  | EmptyString => true
  | String c rest => plain c && plain_tail rest
  end.

(** A word: plain characters, one at least. *)
Definition word (s : string) : bool :=
  match s with
  | EmptyString => false
  | _ => plain_tail s
  end.

(** A token that can be written out as [keyword operator value]. *)
Definition writable (tok : Token.t) : bool :=
  word (Token.keyword tok) && word (Token.value tok)
  && negb (bool_decide (Token.operator tok = InvalidOperator)).

(** The tokens written one after the other, a blank behind each. *)
Fixpoint serialize (list : TokenList) : string :=
  match list with
  | [] => ""
  | tok :: next =>
      Token.keyword tok +:+ lexeme (Token.operator tok) +:+ Token.value tok
        +:+ String " " (serialize next)
  end.

(** The state of the scanner behind a token. *)
Definition behind (tok : Token.t) (lx : Lexer.t) : Lexer.t :=
  {| Lexer.state := ScanToken; Lexer.buffer := "";
     Lexer.keyword := Token.keyword tok;
     Lexer.operator := Token.operator tok;
     Lexer.head := Lexer.head lx ++ [tok] |}.

(** No NUL occurs in the string. *)
Fixpoint nul_free (s : string) : bool :=
  match s with
  | EmptyString => true
  | String c rest => negb (code c =? 0) && nul_free rest
  end.

(** Nothing but the output differs between the two worlds. *)
Definition only_printed (w w' : World.t) : Prop :=
  World.files w' = World.files w /\ World.catalog w' = World.catalog w
  /\ World.denied w' = World.denied w /\ World.tmpname w' = World.tmpname w.

(** What a statement leaves of the files: no text file but that of [name]
    differs, and the catalog is as it was. *)
Definition touches_only (name : string) (w w' : World.t) : Prop :=
  (forall path, path <> name -> World.files w' !! path = World.files w !! path)
  /\ World.catalog w' = World.catalog w.

(** [_mktemp] makes a name that no file bears. *)
Definition temporary_is_fresh (w : World.t) : Prop :=
  forall filename,
    World.tmpname w = Some filename -> World.files w !! filename = None.

(** [people] and a second file next to it. *)
Definition two_files : World.t :=
  World.with_files
    {[ "people" := "0;30;" +:+ newline; "others" := "0;1;" +:+ newline ]}
    (with_people None ∅).

(** The rows of a table that the conditions turn down, in order. *)
Fixpoint unmatched (list : TokenList) (tableStructure : TableStructureInfo.t)
    (table : Table) : Outcome Table :=
  match table with
  | [] => Ret []
  | row :: rows =>
      kept ← SQLfilterRow list tableStructure row;
      more ← unmatched list tableStructure rows;
      Ret (if kept =? 0 then row :: more else more)
  end.

(** The schema [people (name STRING, age INTEGER)]. *)
Definition persons : TableStructureInfo.t :=
  {| TableStructureInfo.count := 2;
     TableStructureInfo.columns := ["name"; "age"];
     TableStructureInfo.columnTypes := [FieldType.String; FieldType.Integer];
     TableStructureInfo.name := "people" |}.

(** The value of a decimal numeral read from the left, [acc] being the
    value of the digits before it. *)
Fixpoint uint_value (acc : Z) (d : Decimal.uint) : Z :=
  match d with
  | Decimal.Nil => acc
  | Decimal.D0 d => uint_value (10 * acc) d
  | Decimal.D1 d => uint_value (10 * acc + 1) d
  | Decimal.D2 d => uint_value (10 * acc + 2) d
  | Decimal.D3 d => uint_value (10 * acc + 3) d
  | Decimal.D4 d => uint_value (10 * acc + 4) d
  | Decimal.D5 d => uint_value (10 * acc + 5) d
  | Decimal.D6 d => uint_value (10 * acc + 6) d
  | Decimal.D7 d => uint_value (10 * acc + 7) d
  | Decimal.D8 d => uint_value (10 * acc + 8) d
  | Decimal.D9 d => uint_value (10 * acc + 9) d
  end.

(** Whether no byte of [s] has the code [n]. *)
Fixpoint free_of (n : Z) (s : string) : bool :=
  match s with
  | EmptyString => true
  | String c rest => negb (code c =? n) && free_of n rest
  end.

(** A string without NUL, newline and semicolon: one that a field of a
    record can hold. *)
Definition clean (s : string) : bool :=
  free_of 0 s && free_of 10 s && free_of 59 s.

(** The text of a field before its semicolon. *)
Definition field_body (column : Column.t) : string :=
  match Column.value column with
  | VInteger i => fmt_d i
  | VBoolean b => if b then "True" else "False"
  | VString s => "'" +:+ s +:+ "'"
  | _ => ""
  end.

(** A column that a record keeps: its tag is [type], which is not [Number]
    or [Unknown], the value is of that type, an integer fits an [int] and a
    string is clean. *)
Definition storable (type : FieldType.t) (column : Column.t) : bool :=
  match type, Column.type column, Column.value column with
  | FieldType.Integer, FieldType.Integer, VInteger i =>
      (INT_MIN <=? i) && (i <=? INT_MAX)
  | FieldType.Boolean, FieldType.Boolean, VBoolean _ => true
  | FieldType.String, FieldType.String, VString s => clean s
  | _, _, _ => false
  end.

(** The fields of a record, each with its semicolon. *)
Fixpoint record_fields (columns : list Column.t) : string :=
  match columns with
  | [] => ""
  | column :: columns' => field_body column +:+ ";" +:+ record_fields columns'
  end.

(** Every column is storable by the type the schema has at its place,
    [i] being the place of the first. *)
Fixpoint storable_from (types : list FieldType.t) (i : nat)
    (columns : list Column.t) : bool :=
  match columns with
  | [] => true
  | column :: columns' =>
      storable (nth i types FieldType.Integer) column
      && storable_from types (S i) columns'
  end.

(** The row [0 | 'Ann' | 30] of [persons]. *)
Definition ann : Row.t :=
  {| Row.index := 0;
     Row.columns :=
       [{| Column.value := VString "Ann"; Column.type := FieldType.String;
           Column.position := 0 |};
        {| Column.value := VInteger 30; Column.type := FieldType.Integer;
           Column.position := 1 |}];
     Row.columnCount := 2 |}.

(** The union member the tag selects is the one that was stored. *)
Definition tagged (column : Column.t) : bool :=
  match Column.type column, Column.value column with
  | FieldType.Integer, VInteger _ => true
  | FieldType.Number, VNumber _ => true
  | FieldType.String, VString _ => true
  | FieldType.Boolean, VBoolean _ => true
  | FieldType.Unknown, VIndeterminate => true
  | _, _ => false
  end.

(** No assignment of the list names column [i]. *)
Definition unassigned (tableStructure : TableStructureInfo.t) (i : nat)
    (list : TokenList) : Prop :=
  Forall (fun tok =>
            Token.operator tok = AssignOperator ->
            SQLParser_FindColumn tableStructure (Token.keyword tok)
            <> Ret (Z.of_nat i)) list.

(** [row'] has the index, the column count and, place by place, the values
    and tags of [row]. *)
Definition same_fields (row row' : Row.t) : Prop :=
  Row.index row' = Row.index row
  /\ Row.columnCount row' = Row.columnCount row
  /\ Forall2 (fun column column' =>
                Column.value column' = Column.value column
                /\ Column.type column' = Column.type column)
       (Row.columns row)
       (firstn (length (Row.columns row)) (Row.columns row')).

(** A row that a table file of the schema keeps: storable columns, as many
    as the count says and less than 128, an index that fits an [int], and a
    record that fits the line buffer. *)
Definition storable_row (tableStructure : TableStructureInfo.t) (row : Row.t)
  : bool :=
  storable_from (TableStructureInfo.columnTypes tableStructure) 0
    (Row.columns row)
  && (Row.columnCount row =? Z.of_nat (length (Row.columns row)))
  && (Z.of_nat (length (Row.columns row)) <? 128)
  && (INT_MIN <=? Row.index row) && (Row.index row <=? INT_MAX)
  && match SQLwriteRowToFile row with
     | Ret text =>
         Z.of_nat (String.length text)
         <=? 1 + 128 * TableStructureInfo.count tableStructure
     | Undef => false
     end.

(** The row [1 | 'Bob' | 41] of [persons]. *)
Definition bob : Row.t :=
  {| Row.index := 1;
     Row.columns :=
       [{| Column.value := VString "Bob"; Column.type := FieldType.String;
           Column.position := 0 |};
        {| Column.value := VInteger 41; Column.type := FieldType.Integer;
           Column.position := 1 |}];
     Row.columnCount := 2 |}.

(** The text of the lines, each with its newline. *)
Fixpoint lines (queries : list string) : string :=
  match queries with
  | [] => ""
  | query :: queries' => query +:+ newline +:+ lines queries'
  end.

(** The queries executed one after the other, each behind a prompt, their
    results dropped. *)
Fixpoint session (queries : list string) (w : World.t) : Outcome World.t :=
  match queries with
  | [] => Ret w
  | query :: queries' =>
      '(w', _) ← SQLExecuteQuery query (World.printf prompt w);
      session queries' w'
  end.

(** A line that the shell hands to [SQLExecuteQuery] whole: it fits the
    input buffer with its newline, has no NUL and no newline inside, and
    is not one of the two words that end the session. *)
Definition statement (query : string) : bool :=
  free_of 0 query && free_of 10 query
  && (Z.of_nat (String.length query) <? 499)
  && negb (strcmp query "exit" =? 0) && negb (strcmp query "\q" =? 0).

(** The [switch] of the main loop of [Memory.scan] on the byte [c] with
    [rest] behind it. *)
Definition memory_switch (room : nat) (c : ascii) (rest : string)
    (lx : Lexer.t) : Outcome Parse :=
  if ch c ":" || ch c "<" || ch c ">" || ch c "!" || ch c "=" then
    if (ch c "<" || ch c ">") && (String.length rest =? 0)%nat then Undef
    else
      let '(operator, moved) := SQLfindOperator_helper (String c rest) in
      match Lexer.state lx with
      | ScanToken =>
          match trim (Lexer.buffer lx) with
          | Undef => Undef
          | Ret keyword =>
              let lx' :=
                {| Lexer.state := ScanValue; Lexer.buffer := "";
                   Lexer.keyword := cstr keyword;
                   Lexer.operator := operator;
                   Lexer.head := Lexer.head lx |} in
              if moved
              then match rest with
                   | String _ rest' => Memory.scan room AfterOperator lx' rest'
                   | EmptyString => Memory.scan room AfterOperator lx' rest
                   end
              else Memory.scan room AfterOperator lx' rest
          end
      | ScanValue => Ret Abort
      end
  else if ch c "'" then
    match Lexer.state lx with
    | ScanValue => Memory.scan room InQuote lx rest
    | ScanToken => Ret Abort
    end
  else if ch c " " || ch c "009" || ch c "010" then
    match Lexer.state lx with
    | ScanValue =>
        lx' ← Memory.emit room ScanToken lx; Memory.scan room AtSwitch lx' rest
    | ScanToken => Memory.scan room AtSwitch lx rest
    end
  else lx' ← Memory.push room c lx; Memory.scan room AtSwitch lx' rest.

(** The state of the scan fits the buffers: no NUL has been copied, and
    what has been copied and what is left of the query have room. *)
Definition fits (room : nat) (lx : Lexer.t) (query : string) : Prop :=
  nul_free (Lexer.buffer lx) = true
  /\ (String.length (Lexer.buffer lx) + String.length query <= room)%nat.

(** * Properties *)

(** The functions of the header are unfolded by name only. *)
Arguments slot : simpl never.
Arguments store : simpl never.
Arguments SQLvalueFromStringAndType : simpl never.
Arguments SQLcompareValues : simpl never.
Arguments SQLParser_FindColumn : simpl never.
Arguments SQLwriteRowToFile : simpl never.
Arguments SQLupdateRowAndWriteToFile : simpl never.
Arguments SQLfilterRow : simpl never.
Arguments SQLisValidRow : simpl never.
Arguments SQLcheckOperator : simpl never.
Arguments SQLloadTable : simpl never.
Arguments SQLwriteRow : simpl never.
Arguments World.fopen_r : simpl never.
Arguments World.fopen_w : simpl never.
Arguments World.fopen_a : simpl never.
Arguments World.fwrite : simpl never.
Arguments World.remove : simpl never.
Arguments World.rename : simpl never.
Arguments World.printf : simpl never.
Arguments World.openable : simpl never.

Lemma bind_Ret {A B} (f : A -> Outcome B) (a : A) : (Ret a ≫= f) = f a.
Proof. reflexivity. Qed.

Lemma bind_Undef {A B} (f : A -> Outcome B) : (Undef ≫= f) = Undef.
Proof. reflexivity. Qed.

Lemma bind_inv {A B} (f : A -> Outcome B) (m : Outcome A) (b : B) :
  (m ≫= f) = Ret b -> exists a, m = Ret a /\ f a = Ret b.
Proof. destruct m as [a|]; [intros H; exists a; auto | discriminate]. Qed.


(** ** The C library on examples *)

Example strtol_stops_at_letters : strtol "  -12abc" = -12.
Proof. reflexivity. Qed.

Example strtol_saturates : strtol "99999999999" = LONG_MAX.
Proof. reflexivity. Qed.

Example strtod_three_halves :
  strtod "1.5" = S754_finite false 6755399441055744 (-52).
Proof. reflexivity. Qed.

Example trunc_towards_zero : trunc (strtod "-2.75") = Ret (-2).
Proof. reflexivity. Qed.

Example fmt_g_examples :
  map (fun s => fmt_g (to_float (strtod s)))
    ["1.5"; "0.1"; "100000"; "1000000"; "123456789"; "0.0001"; "0.00001234567";
     "-2.5e-10"; "30"]
  = ["1.5"; "0.1"; "100000"; "1e+06"; "1.23457e+08"; "0.0001"; "1.23457e-05";
     "-2.5e-10"; "30"].
Proof. vm_compute. reflexivity. Qed.

(** ** The lexer and the executors on examples *)

Example parse_select :
  SQLParser_Parse "SELECT:people age>25 name='Ann B' h <= 3"
  = Ret (Tokens [token "SELECT" AssignOperator "people";
                 token "age" GreaterThanOperator "25";
                 token "name" EqualOperator "Ann B";
                 token "h" LessOrEqualOperator "3"]).
Proof. reflexivity. Qed.

(** Without an operator character no token is made and the list is
    [NULL]. *)
Example parse_without_operator :
  SQLParser_Parse "DATASET users name STRING" = Ret (Tokens []).
Proof. reflexivity. Qed.

(** The schema [people] is what its CREATE records. *)
Example create_people :
  SQLExecuteQuery "DATASET:people age:INTEGER" fresh
  = Ret (with_people None ∅, 0).
Proof. vm_compute. reflexivity. Qed.

(** CREATE, two INSERTs and a SELECT; the condition [age>25] holds of the
    row whose age the literal 25 exceeds. *)
Example create_insert_select :
  ('(w1, _) ← SQLExecuteQuery "DATASET:people name:STRING age:INTEGER" fresh;
   '(w2, _) ← SQLExecuteQuery "INSERT_INTO:people name:'Ann' age:30" w1;
   '(w3, _) ← SQLExecuteQuery "INSERT_INTO:people name:'Bob' age:20" w2;
   '(w4, r) ← SQLExecuteQuery "SELECT:people age>25" w3;
   Ret (World.files w3 !! "people", World.stdout w4, r))
  = Ret (Some ("0;'Ann';30;" +:+ newline +:+ "0;'Bob';20;" +:+ newline),
         "Bob       |" +:+ String "009" "        20|" +:+ String "009" newline,
         0).
Proof. vm_compute. reflexivity. Qed.

(** ** Predicate evaluator *)

Section Evaluator.

Variables (tok : Token.t) (next : TokenList).

Lemma compare_ints_LessOrEqual lhs rhs :
  compare_ints LessOrEqualOperator lhs rhs = of_bool (rhs <=? lhs).
Proof. cbn. now rewrite Z.geb_leb. Qed.

(** C1.  On a numeric column a [LessOrEqual] condition is evaluated as
    [>=]: the evaluator answers 1 exactly when the stored value is less
    than or equal to the literal of the condition, not when the literal
    is less than or equal to the stored value.  On an Integer column the
    operands are the [strtol] of the literal and the stored integer; on a
    Number column they are the integral parts of the [strtod] of the
    literal and of the stored number. *)
Theorem LessOrEqual_evaluated_as_GreaterOrEqual :
  Token.operator tok = LessOrEqualOperator ->
  (forall rhs,
      SQLcompareValues (tok :: next) (VInteger rhs) FieldType.Integer
      = Ret (of_bool (rhs <=? to_int (strtol (Token.value tok)))))
  /\ (forall number lhs rhs,
         trunc (strtod (Token.value tok)) = Ret lhs ->
         trunc number = Ret rhs ->
         SQLcompareValues (tok :: next) (VNumber number) FieldType.Number
         = Ret (of_bool (rhs <=? lhs))).
Proof.
  intros Hop; split.
  - intros rhs. unfold SQLcompareValues. rewrite Hop.
    now rewrite compare_ints_LessOrEqual.
  - intros number lhs rhs Hl Hr. unfold SQLcompareValues.
    rewrite Hop, Hl. cbn. rewrite Hr. cbn. now rewrite Z.geb_leb.
Qed.

(** C7.  On a Number column both operands are converted to [int] before
    the relational operator is applied: the outcome is that of the
    operator on the integral parts of the literal and of the stored
    number. *)
Theorem Number_operands_are_truncated number lhs rhs :
  Token.operator tok <> InvalidOperator ->
  trunc (strtod (Token.value tok)) = Ret lhs ->
  trunc number = Ret rhs ->
  SQLcompareValues (tok :: next) (VNumber number) FieldType.Number
  = Ret (compare_ints (Token.operator tok) lhs rhs).
Proof.
  intros Hop Hl Hr. unfold SQLcompareValues. rewrite Hl. cbn. rewrite Hr. cbn.
  destruct (Token.operator tok); [contradiction | reflexivity..].
Qed.

End Evaluator.

(** The condition [age<=1] against a stored 2: the literal is less than the
    stored value and the evaluator answers 0. *)
Lemma LessOrEqual_evaluated_as_GreaterOrEqual_witness :
  SQLcompareValues [token "age" LessOrEqualOperator "1"] (VInteger 2)
    FieldType.Integer = Ret 0
  /\ (to_int (strtol "1") <=? 2) = true
  /\ SQLcompareValues [token "h" LessOrEqualOperator "1"]
       (VNumber (to_float (strtod "2"))) FieldType.Number = Ret 0.
Proof.
  destruct (LessOrEqual_evaluated_as_GreaterOrEqual
              (token "age" LessOrEqualOperator "1") [] eq_refl) as [Hi Hn].
  split; [exact (Hi 2) | split; [reflexivity |]].
  exact (Hn (to_float (strtod "2")) 1 2 eq_refl eq_refl).
Defined.

(** The condition [h>1.5] against a stored 1.25: as [float]s the literal is
    the greater, as integers both are 1 and the evaluator answers 0. *)
Lemma Number_operands_are_truncated_witness :
  SQLcompareValues [token "h" GreaterThanOperator "1.5"]
    (VNumber (to_float (strtod "1.25"))) FieldType.Number = Ret 0
  /\ SFltb (to_float (strtod "1.25")) (to_float (strtod "1.5")) = true.
Proof.
  split; [| reflexivity].
  apply (Number_operands_are_truncated
           (token "h" GreaterThanOperator "1.5") [] _ 1 1);
    [discriminate | reflexivity | reflexivity].
Defined.

(** ** Lexer *)

Lemma append_String (c : ascii) (s t : string) :
  String c s +:+ t = String c (s +:+ t).
Proof. reflexivity. Qed.

Lemma append_empty_r (s : string) : s +:+ "" = s.
Proof.
  induction s as [|c s IH]; [reflexivity | now rewrite append_String, IH].
Qed.

Lemma append_push (b : string) (c : ascii) (s : string) :
  (b +:+ String c "") +:+ s = b +:+ String c s.
Proof.
  induction b as [|x b IH]; [reflexivity | now rewrite !append_String, IH].
Qed.

Lemma pushes_empty lx : pushes "" lx = lx.
Proof. destruct lx; unfold pushes; cbn. now rewrite append_empty_r. Qed.

Lemma pushes_push c span lx :
  pushes span (Lexer.push c lx) = pushes (String c span) lx.
Proof. unfold pushes, Lexer.push; cbn. now rewrite append_push. Qed.

Section QuotedSpan.

(** Inside a quoted span every character up to the closing quote is
    copied, and the scan resumes behind that quote. *)
Lemma scan_quoted_span span : forall lx rest,
  quote_free span = true ->
  scan InQuote lx (span +:+ String quote rest)
  = scan AtSwitch (pushes span lx) rest.
Proof.
  induction span as [|c span IH]; intros lx rest Hfree.
  - cbn. now rewrite pushes_empty.
  - cbn in Hfree. apply andb_prop in Hfree as [Hc Hfree].
    rewrite append_String. cbn [scan]. fold quote.
    destruct (ch c quote); [discriminate |].
    rewrite IH by assumption. now rewrite pushes_push.
Qed.

(** A span that runs to the end of the input takes the scan past the
    terminator of the query. *)
Lemma scan_open_span span : forall lx,
  quote_free span = true -> scan InQuote lx span = Undef.
Proof.
  induction span as [|c span IH]; intros lx Hfree; [reflexivity |].
  cbn in Hfree. apply andb_prop in Hfree as [Hc Hfree].
  cbn [scan]. fold quote.
  destruct (ch c quote); [discriminate |]. now apply IH.
Qed.

(** Outside a quoted span a quote goes through the [switch]. *)
Lemma scan_at_quote at_ lx rest :
  at_ <> InQuote ->
  scan at_ lx (String quote rest)
  = match Lexer.state lx with
    | ScanValue => scan InQuote lx rest
    | ScanToken => Ret Abort
    end.
Proof. intros Hat. destruct at_; [reflexivity | reflexivity | contradiction]. Qed.

End QuotedSpan.

(** C5, as amended.  A single quote met while a token name is being
    scanned makes the lexer abort with no token list, closed or not.  A
    quote met while a value is being scanned opens a span that is copied
    into the value as it stands, white space included, up to the closing
    quote. *)
Theorem quote_handling at_ lx span rest :
  at_ <> InQuote ->
  quote_free span = true ->
  (Lexer.state lx = ScanToken ->
   scan at_ lx (String quote (span +:+ rest)) = Ret Abort)
  /\ (Lexer.state lx = ScanValue ->
      scan at_ lx (String quote (span +:+ String quote rest))
      = scan AtSwitch (pushes span lx) rest).
Proof.
  intros Hat Hfree. split; intros Hst; rewrite scan_at_quote by assumption;
    rewrite Hst.
  - reflexivity.
  - now apply scan_quoted_span.
Qed.

Lemma quote_handling_witness :
  SQLParser_Parse "a'b c'" = Ret Abort
  /\ SQLParser_Parse "a:'b c' d>1"
     = Ret (Tokens [token "a" AssignOperator "b c";
                    token "d" GreaterThanOperator "1"]).
Proof.
  pose (name := Lexer.push "a" Lexer.init).
  pose (value :=
          {| Lexer.state := ScanValue; Lexer.buffer := ""; Lexer.keyword := "a";
             Lexer.operator := AssignOperator; Lexer.head := [] |}).
  split.
  - apply (quote_handling AtSwitch name "b c" "");
      [discriminate | reflexivity | reflexivity].
  - change (scan AfterOperator value (String quote ("b c" +:+ String quote " d>1"))
            = Ret (Tokens [token "a" AssignOperator "b c";
                           token "d" GreaterThanOperator "1"])).
    rewrite (proj2 (quote_handling AfterOperator value "b c" " d>1"
                      ltac:(discriminate) eq_refl) eq_refl).
    reflexivity.
Defined.

(** C5, as stated, fails.  [a:'b] opens a quote that is never closed.  In
    the input buffer of the shell, with the line [xxxxxxxx] typed before
    it, the terminator that [fgets] wrote and two bytes of that line lie
    behind the query, and the lexer returns the token [a:b]: a token list
    and no parse error. *)
Lemma unterminated_quote_is_no_parse_error :
  quote_free "b" = true
  /\ Memory.SQLParser_Parse ("a:'b" +:+ nul +:+ nul +:+ "xx" +:+ nul)
     = Ret (Tokens [token "a" AssignOperator "b"]).
Proof. split; reflexivity. Qed.

Section ExclamationEqual.

Variable rest : string.

(** C6.  The helper never reads [!=] as an operator of its own: at [!]
    it answers [AssignOperator] and leaves the [=] in place; the scan
    then finds that [=] where a value is expected.  So wherever the
    lexer meets [!=] outside a quoted span, no [NotEqualOperator] token
    is made: the lexer aborts, or fails earlier on an empty keyword. *)
Theorem exclamation_equal_is_not_NotEqual at_ lx :
  at_ <> InQuote ->
  SQLfindOperator_helper (String "!" (String "=" rest))
  = (AssignOperator, false)
  /\ scan at_ lx (String "!" (String "=" rest))
     = match Lexer.state lx with
       | ScanValue => Ret Abort
       | ScanToken => _ ← trim (Lexer.buffer lx); Ret Abort
       end.
Proof.
  intros Hat. split; [reflexivity |].
  assert (Hswitch :
            scan AtSwitch lx (String "!" (String "=" rest))
            = match Lexer.state lx with
              | ScanValue => Ret Abort
              | ScanToken => _ ← trim (Lexer.buffer lx); Ret Abort
              end).
  { cbn [scan]. cbn. destruct (Lexer.state lx); [reflexivity |].
    destruct (trim (Lexer.buffer lx)); reflexivity. }
  destruct at_; [exact Hswitch | exact Hswitch | contradiction].
Qed.

End ExclamationEqual.

(** The condition [a!=1] is turned down as a whole. *)
Lemma exclamation_equal_is_not_NotEqual_witness :
  SQLParser_Parse "a!=1" = Ret Abort.
Proof.
  exact (proj2 (exclamation_equal_is_not_NotEqual "1" AtSwitch
                  (Lexer.push "a" Lexer.init) ltac:(discriminate))).
Defined.

(** ** Catalog *)

Lemma create_columns_name current : forall info info',
  create_columns current info = Ret (Some info') ->
  TableStructureInfo.name info' = TableStructureInfo.name info.
Proof.
  induction current as [|tok next IH]; intros info info' H; cbn in H.
  - now inversion H.
  - destruct (_ >? 128 * 128 - 1); [discriminate |].
    destruct (_ >? 127); [discriminate |].
    destruct (store (TableStructureInfo.columns info) _ _ _); [| discriminate].
    cbn in H.
    destruct (store (TableStructureInfo.columnTypes info) _ _ _); [| discriminate].
    cbn in H.
    destruct (_ >? 128 * 4); [discriminate |].
    now rewrite (IH _ _ H).
Qed.

(** C4.  The name a successful CREATE records is the leading part of the
    name supplied, as long as the command keyword: the length copied is
    that of [list->keyword], not of [list->value].  A table whose name is
    longer than its CREATE keyword is filed under a shorter name. *)
Theorem created_name_is_cut_to_keyword_length tok next w w' :
  SQLParser_CreateTable (tok :: next) w = Ret (w', 0) ->
  exists info,
    World.catalog w' = Some (default [] (World.catalog w) ++ [info])%list
    /\ TableStructureInfo.name info
       = substring 0 (String.length (Token.keyword tok)) (Token.value tok).
Proof.
  unfold SQLParser_CreateTable. intros H.
  destruct (World.openable catalog_path w); [| discriminate].
  destruct (_ >? 128 - 1); [discriminate |].
  unfold copy_name in H.
  destruct (_ <=? _)%nat; [| discriminate]. cbn in H.
  destruct (create_columns next _) as [[info|]|] eqn:Hc; cbn in H;
    [| discriminate | discriminate].
  inversion H; subst. exists info. split; [reflexivity |].
  now rewrite (create_columns_name _ _ _ Hc).
Qed.

(** [DATASET:customers id:INTEGER] succeeds, the table is recorded as
    [custome], and looking [customers] up finds nothing. *)
Lemma created_name_is_cut_to_keyword_length_witness :
  SQLExecuteQuery "DATASET:customers id:INTEGER" fresh = Ret (customers, 0)
  /\ (exists info, World.catalog customers = Some [info]
                   /\ TableStructureInfo.name info = "custome")
  /\ SQLParser_FindTable "customers" customers = TableStructureInfo.zero.
Proof.
  split; [reflexivity | split; [| reflexivity]].
  apply (created_name_is_cut_to_keyword_length
           (token "DATASET" AssignOperator "customers")
           [token "id" AssignOperator "INTEGER"] fresh customers).
  reflexivity.
Defined.

(** ** Storage *)

Lemma SQLisValidRow_cases list tableStructure row w w' valid :
  SQLisValidRow list tableStructure row w = Ret (w', valid) ->
  (valid = 1 /\ w' = w)
  \/ (valid = 0 /\ World.files w' = World.files w
      /\ World.catalog w' = World.catalog w).
Proof.
  unfold SQLisValidRow. intros H. destruct list as [|tok next].
  - inversion H; auto.
  - destruct (_ >? _).
    + inversion H; subst; right; auto.
    + destruct (SQLParser_FindColumn _ _) as [p|]; [| discriminate]. cbn in H.
      destruct (p =? -1); inversion H; subst; auto.
Qed.

Lemma insert_row_made list tableStructure : forall row w w' row',
  insert_row list tableStructure row w = Ret (w', Some row') ->
  w' = w /\ Row.index row' = Row.index row.
Proof.
  induction list as [|tok next IH]; intros row w w' row' H; cbn in H.
  - inversion H; auto.
  - unfold SQLcheckOperator in H. case_bool_decide; cbn in H; [| discriminate].
    destruct (SQLisValidRow _ _ _ _) as [[w2 valid]|] eqn:Hv; [| discriminate].
    cbn in H. apply SQLisValidRow_cases in Hv as [[-> ->] | [-> _]];
      cbn in H; [| discriminate].
    destruct (slot _ _ _) as [type|]; [| discriminate]. cbn in H.
    destruct (SQLvalueFromStringAndType _ _) as [value|]; [| discriminate].
    cbn in H.
    destruct (SQLParser_FindColumn _ _) as [position|]; [| discriminate].
    cbn in H.
    destruct (store _ _ _ _) as [columns|]; [| discriminate]. cbn in H.
    apply IH in H as [-> ->]. auto.
Qed.

(** An assignment to a column that the schema does not have leaves no row
    to append. *)
Lemma insert_row_unknown_column list tableStructure : forall row w w' made,
  Exists (fun tok => SQLParser_FindColumn tableStructure (Token.keyword tok)
                     = Ret (-1)) list ->
  insert_row list tableStructure row w = Ret (w', made) ->
  made = None /\ World.files w' = World.files w.
Proof.
  induction list as [|tok next IH]; intros row w w' made Hex H.
  - inversion Hex.
  - cbn in H. unfold SQLcheckOperator in H.
    case_bool_decide; cbn in H; [| now inversion H].
    destruct (SQLisValidRow _ _ _ _) as [[w2 valid]|] eqn:Hv; [| discriminate].
    cbn in H.
    pose proof (SQLisValidRow_cases _ _ _ _ _ _ Hv) as [[-> ->] | [-> [Hf _]]];
      cbn in H; [| now inversion H; subst].
    destruct (slot _ _ _) as [type|]; [| discriminate]. cbn in H.
    destruct (SQLvalueFromStringAndType _ _) as [value|]; [| discriminate].
    cbn in H.
    destruct (SQLParser_FindColumn _ _) as [position|] eqn:Hp; [| discriminate].
    cbn in H.
    destruct (store _ _ _ _) as [columns|]; [| discriminate]. cbn in H.
    apply Exists_cons in Hex as [Hhere | Hlater]; [| now apply (IH _ _ _ _ Hlater H)].
    exfalso. unfold SQLisValidRow in Hv.
    destruct (_ >? _); [discriminate |].
    rewrite Hhere in Hv. cbn in Hv. discriminate.
Qed.

Lemma insert_rejects_unknown_column command next tableStructure w w' :
  Exists (fun tok => SQLParser_FindColumn tableStructure (Token.keyword tok)
                     = Ret (-1)) next ->
  SQLinsert (command :: next) tableStructure w = Ret w' ->
  World.files w' = World.files w.
Proof.
  intros Hex. unfold SQLinsert.
  destruct (insert_row next tableStructure _ w) as [[w1 made]|] eqn:Hrow;
    [| discriminate].
  destruct (insert_row_unknown_column _ _ _ _ _ _ Hex Hrow) as [-> Hf].
  cbn. inversion 1; subst. exact Hf.
Qed.

Lemma SQLwriteRowToFile_index row text :
  SQLwriteRowToFile row = Ret text ->
  exists fields, text = fmt_d (Row.index row) +:+ ";" +:+ fields +:+ newline.
Proof.
  unfold SQLwriteRowToFile. intros H.
  destruct (fields _ _ _ _) as [t|]; [| discriminate].
  inversion H. now exists t.
Qed.

(** C10.  When INSERT succeeds (every assignment is accepted, the table
    file opens and the row can be written), the record it appends to the
    table file starts with the row index 0, whatever the file held. *)
Theorem inserted_record_has_index_zero tok next tableStructure w w1 w2 row text :
  insert_row next tableStructure new_row w = Ret (w1, Some row) ->
  World.fopen_a (TableStructureInfo.name tableStructure) w1 = Some w2 ->
  SQLwriteRowToFile row = Ret text ->
  exists w',
    SQLinsert (tok :: next) tableStructure w = Ret w'
    /\ World.files w' !! TableStructureInfo.name tableStructure
       = Some (default "" (World.files w !! TableStructureInfo.name tableStructure)
               +:+ text)
    /\ Row.index row = 0
    /\ exists fields, text = "0;" +:+ fields +:+ newline.
Proof.
  intros Hrow Hopen Htext.
  destruct (insert_row_made _ _ _ _ _ _ Hrow) as [-> Hindex].
  exists (World.fwrite (TableStructureInfo.name tableStructure) text w2).
  repeat split.
  - unfold SQLinsert. fold new_row. rewrite Hrow. cbn.
    unfold SQLwriteRow. rewrite Hopen, Htext. reflexivity.
  - unfold World.fopen_a in Hopen.
    destruct (World.openable _ _); [| discriminate].
    inversion Hopen; subst. unfold World.fwrite, World.with_files; cbn.
    now rewrite lookup_insert_eq, lookup_insert_eq.
  - exact Hindex.
  - destruct (SQLwriteRowToFile_index _ _ Htext) as [fields Hf].
    exists fields. now rewrite Hf, Hindex.
Qed.

(** A second INSERT into [people]: the file grows by a record that starts
    with 0, like the first. *)
Lemma inserted_record_has_index_zero_witness :
  exists w',
    SQLinsert [token "INSERT_INTO" AssignOperator "people";
               token "age" AssignOperator "41"] people
      (with_people (Some ("0;30;" +:+ newline)) ∅) = Ret w'
    /\ World.files w' !! "people"
       = Some (("0;30;" +:+ newline) +:+ ("0;41;" +:+ newline)).
Proof.
  destruct (inserted_record_has_index_zero
              (token "INSERT_INTO" AssignOperator "people")
              [token "age" AssignOperator "41"] people
              (with_people (Some ("0;30;" +:+ newline)) ∅)
              (with_people (Some ("0;30;" +:+ newline)) ∅)
              (with_people (Some ("0;30;" +:+ newline)) ∅)
              {| Row.index := 0;
                 Row.columns := [ {| Column.value := VInteger 41;
                                     Column.type := FieldType.Integer;
                                     Column.position := 0 |} ];
                 Row.columnCount := 1 |}
              ("0;41;" +:+ newline))
    as [w' [Hrun [Hfile _]]]; [reflexivity | reflexivity | reflexivity |].
  exists w'. split; [exact Hrun | exact Hfile].
Defined.

(** *** Reading terminates *)

Lemma fgets_split k : forall file line rest,
  fgets k file = (line, rest) ->
  String.length file = (String.length line + String.length rest)%nat.
Proof.
  induction k as [|k IH]; intros file line rest H.
  - destruct file; inversion H; reflexivity.
  - destruct file as [|c file]; [inversion H; reflexivity |].
    cbn in H. destruct (ch c "010").
    + inversion H; reflexivity.
    + destruct (fgets k file) as [l r] eqn:Hf. inversion H; subst.
      cbn. now rewrite (IH _ _ _ Hf).
Qed.

Lemma fgets_progress k c file line rest :
  fgets (S k) (String c file) = (line, rest) -> line <> "".
Proof.
  cbn. destruct (ch c "010"); [now inversion 1 |].
  destruct (fgets k file). now inversion 1.
Qed.

(** A row that is read leaves less of the file. *)
Lemma SQLreadRow_rest file tableStructure row rest :
  0 <= TableStructureInfo.count tableStructure ->
  SQLreadRow file tableStructure = Ret (Some (row, rest)) ->
  (String.length rest < String.length file)%nat.
Proof.
  intros Hcount. unfold SQLreadRow. destruct file as [|c file]; [discriminate |].
  set (room := Z.min _ _).
  assert (Hroom : exists k, Z.to_nat room = S k).
  { exists (Z.to_nat (room - 1)). subst room. cbn [String.length]. lia. }
  destruct Hroom as [k ->].
  destruct (fgets (S k) (String c file)) as [line rest'] eqn:Hf.
  destruct (read_columns _ _ _ _); [| discriminate]. cbn. intros H.
  inversion H; subst.
  pose proof (fgets_split _ _ _ _ Hf) as Hlen.
  pose proof (fgets_progress _ _ _ _ _ Hf) as Hline.
  destruct line; [contradiction | cbn in Hlen |- *; lia].
Qed.

(** The fuel of [load_rows] does not matter once it exceeds the length of
    the file: the loop ends by reaching the end of the file. *)
Lemma load_rows_fuel list tableStructure :
  0 <= TableStructureInfo.count tableStructure ->
  forall fuel fuel' file,
    (String.length file < fuel)%nat ->
    (String.length file < fuel')%nat ->
    load_rows fuel file list tableStructure
    = load_rows fuel' file list tableStructure.
Proof.
  intros Hcount. induction fuel as [|fuel IH]; intros fuel' file H H'; [lia |].
  destruct fuel' as [|fuel']; [lia |]. cbn [load_rows].
  destruct (SQLreadRow file tableStructure) as [[[row rest]|]|] eqn:Hr;
    [| reflexivity | reflexivity].
  pose proof (SQLreadRow_rest _ _ _ _ Hcount Hr). cbn.
  now rewrite (IH fuel' rest) by lia.
Qed.

(** A condition list that turns a row down is not empty, and the column
    of its first condition is looked up without fault; so the validity
    check on that row has an outcome. *)
Lemma SQLfilterRow_zero_valid command conditions tableStructure row :
  SQLfilterRow (command :: conditions) tableStructure row = Ret 0 ->
  forall w, exists w1 valid,
      SQLisValidRow conditions tableStructure row w = Ret (w1, valid).
Proof.
  unfold SQLfilterRow. destruct conditions as [|tok next]; [discriminate |].
  cbn [filter_conditions]. intros H w.
  destruct (SQLParser_FindColumn tableStructure (Token.keyword tok))
    as [p|] eqn:Hp; [| discriminate].
  unfold SQLisValidRow. rewrite Hp. cbn.
  destruct (_ >? _); [eauto |]. destruct (p =? -1); eauto.
Qed.

(** With no row satisfying the conditions, the loop of [SQLupdate] writes
    the records of the rows as they were loaded, unless it aborts. *)
Lemma update_rows_no_match command conditions tableStructure table :
  forall w text,
    (forall row, In row table ->
                 SQLfilterRow (command :: conditions) tableStructure row = Ret 0) ->
    records table = Ret text ->
    exists w1 written,
      update_rows (command :: conditions) tableStructure table w
      = Ret (w1, written)
      /\ ((written = Some text /\ w1 = w)
          \/ (written = None /\ World.files w1 = World.files w)).
Proof.
  induction table as [|row rows IH]; intros w text Hno Hrec.
  - inversion Hrec. exists w, (Some ""). auto.
  - cbn [records] in Hrec.
    destruct (SQLwriteRowToFile row) as [t|] eqn:Ht; [| discriminate].
    cbn in Hrec. destruct (records rows) as [more|] eqn:Hmore; [| discriminate].
    inversion Hrec; subst text; clear Hrec.
    assert (Hrow := Hno row (or_introl eq_refl)).
    destruct (SQLfilterRow_zero_valid _ _ _ _ Hrow w) as [w1 [valid Hv]].
    cbn [update_rows tl]. rewrite Hv. cbn.
    apply SQLisValidRow_cases in Hv as [[-> ->] | [-> [Hf _]]]; cbn.
    + rewrite Hrow. cbn. rewrite Ht. cbn.
      destruct (IH w more) as [w2 [written [Hrun Hcase]]];
        [intros r Hr; apply Hno; now right | reflexivity |].
      rewrite Hrun. cbn. exists w2.
      destruct Hcase as [[-> ->] | [-> Hf]].
      * exists (Some (t +:+ more)). auto.
      * exists None. auto.
    + exists w1, None. auto.
Qed.

(** Making the temporary file does not change what the table file holds. *)
Lemma SQLloadTable_temporary list tableStructure w filename text :
  filename <> TableStructureInfo.name tableStructure ->
  SQLloadTable list tableStructure
    (World.with_files (<[filename := text]> (World.files w)) w)
  = SQLloadTable list tableStructure w.
Proof.
  intros Hne. unfold SQLloadTable, World.fopen_r, World.openable; cbn.
  now rewrite lookup_insert_ne.
Qed.

Lemma SQLloadTable_exists list tableStructure w table :
  SQLloadTable list tableStructure w = Ret table ->
  is_Some (World.files w !! TableStructureInfo.name tableStructure).
Proof.
  unfold SQLloadTable, World.fopen_r. intros H.
  destruct (World.openable _ _); [| discriminate].
  destruct (World.files w !! _); [eauto | discriminate].
Qed.

(** With no row satisfying the conditions, UPDATE writes the rows back as
    they were loaded: either the table file is replaced by the records of
    the rows that were loaded from it, written out afresh, or the statement
    is abandoned and the file stays; no other file changes.  [table] is
    what is loaded when the statement starts, and the name [_mktemp] makes
    is one that no file bears. *)
Lemma SQLupdate_no_match
    command conditions tableStructure w table text :
  (forall filename,
      World.tmpname w = Some filename -> World.files w !! filename = None) ->
  SQLloadTable [] tableStructure w = Ret table ->
  (forall row, In row table ->
               SQLfilterRow (command :: conditions) tableStructure row = Ret 0) ->
  records table = Ret text ->
  exists w',
    SQLupdate (command :: conditions) tableStructure w = Ret w'
    /\ (World.files w'
        = <[TableStructureInfo.name tableStructure := text]> (World.files w)
        \/ World.files w' = World.files w).
Proof.
  intros Hfresh Hload Hno Hrec. unfold SQLupdate.
  destruct (World.tmpname w) as [filename|] eqn:Htmp; [| eauto].
  specialize (Hfresh filename eq_refl).
  unfold World.fopen_w.
  destruct (World.openable filename w) eqn:Hopen; [| eauto].
  assert (Hne : filename <> TableStructureInfo.name tableStructure).
  { intros ->. destruct (SQLloadTable_exists _ _ _ _ Hload) as [x Hx].
    congruence. }
  rewrite SQLloadTable_temporary by assumption. rewrite Hload. cbn.
  destruct (update_rows_no_match command conditions tableStructure table
              (World.with_files (<[filename := ""]> (World.files w)) w)
              text Hno Hrec) as [w1 [written [Hrun Hcase]]].
  rewrite Hrun. cbn. destruct Hcase as [[-> ->] | [-> Hf]].
  - eexists. split; [reflexivity | left].
    unfold World.rename, World.remove, World.fwrite, World.with_files; cbn.
    rewrite lookup_insert_eq. cbn.
    rewrite lookup_delete_ne, lookup_insert_eq by congruence. cbn.
    rewrite insert_insert_eq. apply map_eq; intros path.
    destruct (decide (path = TableStructureInfo.name tableStructure)) as [-> | Hn];
      [now rewrite !lookup_insert_eq |].
    rewrite !lookup_insert_ne by congruence.
    destruct (decide (path = filename)) as [-> | Hf];
      [now rewrite lookup_delete_eq |].
    now rewrite !lookup_delete_ne, lookup_insert_ne by congruence.
  - eexists. split; [reflexivity | right].
    unfold World.remove, World.with_files; cbn. rewrite Hf. cbn.
    now rewrite delete_insert_eq, delete_id.
Qed.

(** C9.  A record is read back through a line buffer of
    [2 + 128 * count] bytes, and INSERT writes records of any length.  After
    [DATASET:remarks text:STRING] and the INSERT of a string of 200 bytes
    the file holds one record of 206 bytes; it is loaded as two rows of no
    column, the pieces that [fgets] cuts.  The condition [text=zzz] holds
    of neither, and the UPDATE writes them back as two records [0;]: the
    string is gone.  Likewise with a column of a type the classifier does
    not know in front of an Integer column: its field is never written, the
    integer is read into its place, and an UPDATE that matches no row drops
    the integer from the record. *)
Theorem update_without_match_loses_long_records :
  ('(w1, _) ← SQLExecuteQuery "DATASET:remarks text:STRING" fresh;
   '(w2, _) ← SQLExecuteQuery
                ("INSERT_INTO:remarks text:'" +:+ zeros 200 +:+ "'") w1;
   table ← SQLloadTable [] (SQLParser_FindTable "remarks" w2) w2;
   '(w3, r) ← SQLExecuteQuery "UPDATE:remarks text=zzz text:q" w2;
   Ret (World.files w2 !! "remarks",
        map (fun row =>
               (Row.columnCount row,
                SQLfilterRow [token "UPDATE" AssignOperator "remarks";
                              token "text" EqualOperator "zzz";
                              token "text" AssignOperator "q"]
                  (SQLParser_FindTable "remarks" w2) row)) table,
        World.files w3 !! "remarks", r))
  = Ret (Some ("0;'" +:+ zeros 200 +:+ "';" +:+ newline),
         [(0, Ret 0); (0, Ret 0)],
         Some ("0;" +:+ newline +:+ "0;" +:+ newline), 0)
  /\ ('(w1, _) ← SQLExecuteQuery "DATASET:remarks kind:TEXT count:INTEGER" fresh;
      '(w2, _) ← SQLExecuteQuery "INSERT_INTO:remarks kind:x count:7" w1;
      table ← SQLloadTable [] (SQLParser_FindTable "remarks" w2) w2;
      '(w3, r) ← SQLExecuteQuery "UPDATE:remarks count=99 count:1" w2;
      Ret (World.files w2 !! "remarks",
           map (fun row =>
                  SQLfilterRow [token "UPDATE" AssignOperator "remarks";
                                token "count" EqualOperator "99";
                                token "count" AssignOperator "1"]
                    (SQLParser_FindTable "remarks" w2) row) table,
           World.files w3 !! "remarks", r))
     = Ret (Some ("0;7;" +:+ newline), [Ret 0],
            Some ("0;" +:+ newline), 0).
Proof. split; vm_compute; reflexivity. Qed.

(** C2.  Only the first token behind the command is checked against the
    schema, once per row.  [people] has no column [zz]; with [zz] behind a
    valid first condition DELETE and UPDATE go through and replace the
    table file, while with [zz] in first place DELETE is abandoned and the
    file stays. *)
Theorem unknown_column_behind_first_condition_is_not_checked :
  SQLParser_FindColumn people "zz" = Ret (-1)
  /\ (exists w',
         SQLExecuteQuery "DELETE:people age=30 zz=1"
           (with_people (Some ("0;30;" +:+ newline)) ∅) = Ret (w', 0)
         /\ World.files w' !! "people" = Some "")
  /\ (exists w',
         SQLExecuteQuery "UPDATE:people age=30 zz=1 age:31"
           (with_people (Some ("0;30;" +:+ newline)) ∅) = Ret (w', 0)
         /\ World.files w' !! "people" = Some ("0;31;" +:+ newline))
  /\ (exists w',
         SQLExecuteQuery "DELETE:people zz=1 age=30"
           (with_people (Some ("0;30;" +:+ newline)) ∅) = Ret (w', 0)
         /\ World.files w' !! "people" = Some ("0;30;" +:+ newline)).
Proof.
  split; [reflexivity |].
  repeat split; eexists; (split; [vm_compute; reflexivity | reflexivity]).
Qed.

(** C8.  The row is tested for too many columns before the column at hand
    is added to it, with [>]: on [people], of one column, an INSERT of two
    assignments is accepted and appends a record of two fields; it takes
    three assignments to be turned down. *)
Theorem insert_accepts_one_assignment_too_many :
  TableStructureInfo.count people = 1
  /\ (exists w',
         SQLExecuteQuery "INSERT_INTO:people age:1 age:2" (with_people None ∅)
         = Ret (w', 0)
         /\ World.files w' !! "people" = Some ("0;1;2;" +:+ newline))
  /\ SQLExecuteQuery "INSERT_INTO:people age:1 age:2 age:3" (with_people None ∅)
     = Ret (World.printf ("you specified more columns than avaiable" +:+ newline)
              (with_people None ∅), 0).
Proof.
  split; [reflexivity |]. split; [| vm_compute; reflexivity].
  eexists; split; [vm_compute; reflexivity | reflexivity].
Qed.

(** ** Entry point *)

Lemma stdout_fwrite path text w :
  World.stdout (World.fwrite path text w) = World.stdout w.
Proof. reflexivity. Qed.

Lemma stdout_remove path w : World.stdout (World.remove path w) = World.stdout w.
Proof. reflexivity. Qed.

Lemma stdout_rename old new w :
  World.stdout (World.rename old new w) = World.stdout w.
Proof. unfold World.rename. now destruct (World.files w !! old). Qed.

Lemma stdout_unreliable_fwrite faults path text w :
  World.stdout (Unreliable.fwrite faults path text w) = World.stdout w.
Proof. unfold Unreliable.fwrite. now destruct (bool_decide _). Qed.

Lemma stdout_unreliable_remove faults path w :
  World.stdout (Unreliable.remove faults path w) = World.stdout w.
Proof. unfold Unreliable.remove. now destruct (bool_decide _). Qed.

Lemma stdout_unreliable_rename faults old new w :
  World.stdout (Unreliable.rename faults old new w) = World.stdout w.
Proof.
  unfold Unreliable.rename. destruct (_ || _); [reflexivity |].
  apply stdout_rename.
Qed.

Lemma SQLdelete_unreliable faults list tableStructure w w0 :
  SQLdelete list tableStructure w = Ret w0 ->
  exists w',
    Unreliable.SQLdelete faults list tableStructure w = Ret w'
    /\ World.stdout w' = World.stdout w0.
Proof.
  unfold SQLdelete, Unreliable.SQLdelete.
  destruct (World.tmpname w) as [filename|]; [| intros [= <-]; eauto].
  destruct (World.fopen_w filename w) as [w1|]; [| intros [= <-]; eauto].
  destruct (SQLloadTable [] tableStructure w1) as [table|]; [| discriminate].
  rewrite !bind_Ret. destruct list as [|command conditions]; [discriminate |].
  destruct (delete_rows _ _ _ _) as [[w2 written]|]; [| discriminate].
  rewrite !bind_Ret. destruct written as [text|]; intros [= <-]; eexists;
    (split; [reflexivity |]).
  - now rewrite stdout_unreliable_rename, stdout_unreliable_remove,
      stdout_unreliable_fwrite, stdout_rename, stdout_remove, stdout_fwrite.
  - now rewrite stdout_unreliable_remove, stdout_remove.
Qed.

Lemma SQLupdate_unreliable faults list tableStructure w w0 :
  SQLupdate list tableStructure w = Ret w0 ->
  exists w',
    Unreliable.SQLupdate faults list tableStructure w = Ret w'
    /\ World.stdout w' = World.stdout w0.
Proof.
  unfold SQLupdate, Unreliable.SQLupdate.
  destruct (World.tmpname w) as [filename|]; [| intros [= <-]; eauto].
  destruct (World.fopen_w filename w) as [w1|]; [| intros [= <-]; eauto].
  destruct (SQLloadTable [] tableStructure w1) as [table|]; [| discriminate].
  rewrite !bind_Ret. destruct list as [|command conditions]; [discriminate |].
  destruct (update_rows _ _ _ _) as [[w2 written]|]; [| discriminate].
  rewrite !bind_Ret. destruct written as [text|]; intros [= <-]; eexists;
    (split; [reflexivity |]).
  - now rewrite stdout_unreliable_rename, stdout_unreliable_remove,
      stdout_unreliable_fwrite, stdout_rename, stdout_remove, stdout_fwrite.
  - now rewrite stdout_unreliable_remove, stdout_remove.
Qed.

Lemma SQLinsert_unreliable faults list tableStructure w w0 :
  SQLinsert list tableStructure w = Ret w0 ->
  exists w',
    Unreliable.SQLinsert faults list tableStructure w = Ret w'
    /\ World.stdout w' = World.stdout w0.
Proof.
  unfold SQLinsert, Unreliable.SQLinsert.
  destruct list as [|command next]; [intros [= <-]; eauto |].
  destruct (insert_row _ _ _ _) as [[w1 made]|]; [| discriminate].
  rewrite !bind_Ret. destruct made as [row|]; [| intros [= <-]; eauto].
  unfold SQLwriteRow, Unreliable.SQLwriteRow.
  destruct (World.fopen_a _ w1) as [w2|]; [| intros [= <-]; eauto].
  destruct (SQLwriteRowToFile row) as [text|]; [| discriminate].
  rewrite !bind_Ret. intros [= <-]. eexists. split; [reflexivity |].
  now rewrite stdout_unreliable_fwrite, stdout_fwrite.
Qed.

Lemma CreateTable_unreliable faults list w w0 r0 :
  SQLParser_CreateTable list w = Ret (w0, r0) ->
  exists w' r',
    Unreliable.SQLParser_CreateTable faults list w = Ret (w', r')
    /\ World.stdout w' = World.stdout w0.
Proof.
  unfold SQLParser_CreateTable, Unreliable.SQLParser_CreateTable.
  destruct list as [|tok next]; [intros [= <- _]; eauto |].
  destruct (World.openable catalog_path w); [| intros [= <- _]; eauto].
  destruct (_ >? 128 - 1); [intros [= <- _]; eauto |].
  destruct (copy_name _ _) as [name|]; [| discriminate]. rewrite !bind_Ret.
  destruct (create_columns _ _) as [[info|]|]; [| | discriminate];
    rewrite !bind_Ret; intros [= <- _].
  - destruct (bool_decide _); eauto.
  - eauto.
Qed.

(** C3, as amended.  A storage access that fails is not reported.  For a
    query that yields tokens: when the file it has to open cannot be
    opened (the catalog for CREATE, the table file for an INSERT whose
    assignments are accepted, the temporary file for UPDATE and DELETE, or
    [_mktemp] making no name for them), [SQLExecuteQuery] changes and
    prints nothing and returns 0; and whatever write, removal or renaming
    fails, it returns when it does with nothing failing, returns 0 as it
    does then, and prints what it does then. *)
Theorem storage_failure_is_not_reported faults query w tok list :
  SQLParser_Parse query = Ret (Tokens (tok :: list)) ->
  (SQLParser_GetQueryType (Token.keyword tok) = Create ->
   World.openable catalog_path w = false ->
   Unreliable.SQLExecuteQuery faults query w = Ret (w, 0))
  /\ (SQLParser_GetQueryType (Token.keyword tok) = Insert ->
      (exists w1 row,
          insert_row list (SQLParser_FindTable (Token.value tok) w) new_row w
          = Ret (w1, Some row)) ->
      World.fopen_a
        (TableStructureInfo.name (SQLParser_FindTable (Token.value tok) w)) w
      = None ->
      Unreliable.SQLExecuteQuery faults query w = Ret (w, 0))
  /\ (SQLParser_GetQueryType (Token.keyword tok) = Update
      \/ SQLParser_GetQueryType (Token.keyword tok) = Delete ->
      (forall filename,
          World.tmpname w = Some filename -> World.fopen_w filename w = None) ->
      Unreliable.SQLExecuteQuery faults query w = Ret (w, 0))
  /\ (forall w0 r0,
         SQLExecuteQuery query w = Ret (w0, r0) ->
         r0 = 0
         /\ exists w',
             Unreliable.SQLExecuteQuery faults query w = Ret (w', 0)
             /\ World.stdout w' = World.stdout w0).
Proof.
  intros Hparse. unfold SQLExecuteQuery, Unreliable.SQLExecuteQuery.
  rewrite Hparse, !bind_Ret. cbv beta iota.
  set (table := SQLParser_FindTable (Token.value tok) w).
  split; [| split; [| split]].
  - intros -> Hopen. unfold table, SQLParser_FindTable.
    rewrite Hopen. cbn [TableStructureInfo.name TableStructureInfo.zero peek].
    change (ch zero zero) with true. cbv iota.
    unfold Unreliable.SQLParser_CreateTable. now rewrite Hopen.
  - intros -> [w1 [row Hrow]] Hopen.
    destruct (insert_row_made _ _ _ _ _ _ Hrow) as [-> _].
    unfold Unreliable.SQLinsert. fold new_row. rewrite Hrow, bind_Ret.
    unfold Unreliable.SQLwriteRow. now rewrite Hopen.
  - intros Htype Hfail.
    assert (Hdelete : Unreliable.SQLdelete faults (tok :: list) table w = Ret w).
    { unfold Unreliable.SQLdelete.
      destruct (World.tmpname w) as [filename|]; [| reflexivity].
      now rewrite (Hfail filename eq_refl). }
    assert (Hupdate : Unreliable.SQLupdate faults (tok :: list) table w = Ret w).
    { unfold Unreliable.SQLupdate.
      destruct (World.tmpname w) as [filename|]; [| reflexivity].
      now rewrite (Hfail filename eq_refl). }
    destruct Htype as [-> | ->]; [now rewrite Hupdate | now rewrite Hdelete].
  - intros w0 r0.
    destruct (SQLParser_GetQueryType (Token.keyword tok)).
    + destruct (ch _ _).
      * destruct (SQLParser_CreateTable _ _) as [[w1 r1]|] eqn:Hc;
          [| discriminate].
        destruct (CreateTable_unreliable faults _ _ _ _ Hc)
          as [w' [r' [-> Hout]]].
        rewrite !bind_Ret. intros [= <- <-]. eauto.
      * rewrite !bind_Ret. intros [= <- <-]. eauto.
    + destruct (SQLselect _ _ _) as [w1|]; [| discriminate].
      rewrite !bind_Ret. intros [= <- <-]. eauto.
    + destruct (SQLdelete _ _ _) as [w1|] eqn:Hs; [| discriminate].
      destruct (SQLdelete_unreliable faults _ _ _ _ Hs) as [w' [-> Hout]].
      rewrite !bind_Ret. intros [= <- <-]. eauto.
    + destruct (SQLinsert _ _ _) as [w1|] eqn:Hs; [| discriminate].
      destruct (SQLinsert_unreliable faults _ _ _ _ Hs) as [w' [-> Hout]].
      rewrite !bind_Ret. intros [= <- <-]. eauto.
    + destruct (SQLupdate _ _ _) as [w1|] eqn:Hs; [| discriminate].
      destruct (SQLupdate_unreliable faults _ _ _ _ Hs) as [w' [-> Hout]].
      rewrite !bind_Ret. intros [= <- <-]. eauto.
    + rewrite !bind_Ret. intros [= <- <-]. eauto.
Qed.

(** An INSERT into [people] when its file cannot be opened, and an UPDATE
    of [people] when the temporary file cannot be renamed. *)
Lemma storage_failure_is_not_reported_witness :
  Unreliable.SQLExecuteQuery
    {| Faults.write := ∅; Faults.remove := ∅;
       Faults.rename := {["__database_Temporary_a01234"]} |}
    "INSERT_INTO:people age:30" (with_people None {["people"]})
  = Ret (with_people None {["people"]}, 0)
  /\ exists w',
      Unreliable.SQLExecuteQuery
        {| Faults.write := ∅; Faults.remove := ∅;
           Faults.rename := {["__database_Temporary_a01234"]} |}
        "UPDATE:people age=30 age:31"
        (with_people (Some ("0;30;" +:+ newline)) ∅)
      = Ret (w', 0)
      /\ World.stdout w' = "".
Proof.
  split.
  - edestruct (storage_failure_is_not_reported
                 {| Faults.write := ∅; Faults.remove := ∅;
                    Faults.rename := {["__database_Temporary_a01234"]} |}
                 "INSERT_INTO:people age:30" (with_people None {["people"]})
                 (token "INSERT_INTO" AssignOperator "people")
                 [token "age" AssignOperator "30"])
      as [_ [Hinsert _]]; [reflexivity |].
    apply Hinsert; [reflexivity | | reflexivity].
    exists (with_people None {["people"]}).
    eexists. vm_compute. reflexivity.
  - edestruct (storage_failure_is_not_reported
                 {| Faults.write := ∅; Faults.remove := ∅;
                    Faults.rename := {["__database_Temporary_a01234"]} |}
                 "UPDATE:people age=30 age:31"
                 (with_people (Some ("0;30;" +:+ newline)) ∅)
                 (token "UPDATE" AssignOperator "people")
                 [token "age" EqualOperator "30";
                  token "age" AssignOperator "31"])
      as [_ [_ [_ Hrun]]]; [reflexivity |].
    edestruct Hrun as [_ [w' [Hw' Hout]]]; [vm_compute; reflexivity |].
    exists w'. split; [exact Hw' | exact Hout].
Defined.

(** C3, as stated, fails.  The temporary file of a DELETE cannot be
    opened: nothing is deleted.  It cannot be written: the table is left
    empty by a DELETE that matches no record.  The temporary file of an
    UPDATE cannot be renamed: the table file is gone.  The catalog cannot
    be written: [SQLParser_CreateTable] returns 1 and [SQLExecuteQuery]
    drops it.  Each time the caller is handed 0 with nothing printed, as
    after a statement that went through. *)
Lemma storage_failure_returns_success :
  (World.fopen_w "__database_Temporary_a01234"
     (with_people (Some ("0;30;" +:+ newline)) {["__database_Temporary_a01234"]})
   = None
   /\ SQLExecuteQuery "DELETE:people age=30"
        (with_people (Some ("0;30;" +:+ newline))
           {["__database_Temporary_a01234"]})
      = Ret (with_people (Some ("0;30;" +:+ newline))
               {["__database_Temporary_a01234"]}, 0))
  /\ ('(w', r) ← Unreliable.SQLExecuteQuery
                   {| Faults.write := {["__database_Temporary_a01234"]};
                      Faults.remove := ∅; Faults.rename := ∅ |}
                   "DELETE:people age=99"
                   (with_people (Some ("0;30;" +:+ newline)) ∅);
      Ret (World.files w' !! "people", World.stdout w', r))
     = Ret (Some "", "", 0)
  /\ ('(w', r) ← Unreliable.SQLExecuteQuery
                   {| Faults.write := ∅; Faults.remove := ∅;
                      Faults.rename := {["__database_Temporary_a01234"]} |}
                   "UPDATE:people age=30 age:31"
                   (with_people (Some ("0;30;" +:+ newline)) ∅);
      Ret (World.files w' !! "people", World.stdout w', r))
     = Ret (None, "", 0)
  /\ (('(w', r) ← Unreliable.SQLParser_CreateTable
                    {| Faults.write := {[catalog_path]};
                       Faults.remove := ∅; Faults.rename := ∅ |}
                    [token "DATASET" AssignOperator "people";
                     token "age" AssignOperator "INTEGER"] fresh;
       Ret (World.catalog w', World.stdout w', r))
      = Ret (Some [], "", 1)
      /\ ('(w', r) ← Unreliable.SQLExecuteQuery
                       {| Faults.write := {[catalog_path]};
                          Faults.remove := ∅; Faults.rename := ∅ |}
                       "DATASET:people age:INTEGER" fresh;
          Ret (World.catalog w', World.stdout w', r))
         = Ret (Some [], "", 0))
  /\ exists w',
      SQLExecuteQuery "DELETE:people age=30"
        (with_people (Some ("0;30;" +:+ newline)) ∅) = Ret (w', 0).
Proof.
  split; [split; [reflexivity | vm_compute; reflexivity] |].
  split; [vm_compute; reflexivity |]. split; [vm_compute; reflexivity |].
  split; [split; vm_compute; reflexivity |].
  eexists. vm_compute. reflexivity.
Qed.

(** With no fault the executors are those of the header. *)
Lemma unreliable_none query w :
  Unreliable.SQLExecuteQuery Faults.none query w = SQLExecuteQuery query w.
Proof. reflexivity. Qed.

(** * Further properties *)

(** More of the header is unfolded by name only from here on. *)
Arguments SQLParser_CreateTable : simpl never.
Arguments SQLParser_FindTable : simpl never.
Arguments SQLParser_GetQueryType : simpl never.
Arguments SQLParser_GetFieldType : simpl never.
Arguments SQLParser_Parse : simpl never.
Arguments SQLselect : simpl never.
Arguments SQLinsert : simpl never.
Arguments SQLdelete : simpl never.
Arguments SQLupdate : simpl never.
Arguments SQLreadRow : simpl never.
Arguments SQLwriteRowToStdout : simpl never.

(** ** Byte strings *)

Lemma code_inj x y : code x = code y -> x = y.
Proof.
  unfold code. intros H. apply Nat2Z.inj in H.
  rewrite <- (ascii_nat_embedding x), <- (ascii_nat_embedding y). now rewrite H.
Qed.

Lemma strcmp_eq a : forall b, strcmp a b = 0 <-> a = b.
Proof.
  induction a as [|x a IH]; intros [|y b]; cbn; split; try easy.
  - destruct (code x <? code y) eqn:H1; [discriminate |].
    destruct (code y <? code x) eqn:H2; [discriminate |].
    intros H. apply IH in H as ->. f_equal. apply code_inj. lia.
  - intros [= -> ->]. rewrite Z.ltb_irrefl. now apply IH.
Qed.

Lemma strcmp_refl a : strcmp a a = 0.
Proof. now apply strcmp_eq. Qed.

(** ** Command classifier *)

Ltac split_ifs :=
  repeat match goal with
         | |- context [if ?b then _ else _] => destruct b eqn:?
         end.

Lemma nonneg_nonpos_zero c : (c <? 0) = false -> (0 <? c) = false -> c = 0.
Proof. lia. Qed.

Lemma strcmp_between a b :
  (strcmp a b <? 0) = false -> (0 <? strcmp a b) = false -> a = b.
Proof. intros H1 H2. apply strcmp_eq. lia. Qed.

Ltac found :=
  match goal with
  | H1 : (strcmp ?q ?n <? 0) = false, H2 : (0 <? strcmp ?q ?n) = false |- _ =>
      pose proof (strcmp_between q n H1 H2); subst
  end.

(** X1.  The command classifier is exact: a string is classified as one of
    the five commands exactly when it is that command's keyword as the
    table spells it, byte for byte, and as a field type exactly when it is
    that type's name; everything else, other cases of the letters
    included, is [Invalid], respectively [Unknown]. *)
Theorem classifier_is_exact query :
  (forall type, type <> Invalid ->
     (SQLParser_GetQueryType query = type <-> In (query, type) QueryTypes))
  /\ (forall type, type <> FieldType.Unknown ->
        (SQLParser_GetFieldType query = type <-> In (query, type) DataTypes)).
Proof.
  split; intros type Hty; split.
  - unfold SQLParser_GetQueryType, SQLParser_FindInMap. cbn.
    split_ifs; intros <-; try congruence;
      found; cbn; auto 10.
  - cbn. intros H. decompose [or] H; try contradiction;
      match goal with E : (_, _) = (_, _) |- _ => inversion E; subst; reflexivity end.
  - unfold SQLParser_GetFieldType, SQLParser_FindInMap. cbn.
    split_ifs; intros <-; try congruence;
      found; cbn; auto 10.
  - cbn. intros H. decompose [or] H; try contradiction;
      match goal with E : (_, _) = (_, _) |- _ => inversion E; subst; reflexivity end.
Qed.

Lemma classifier_is_exact_witness :
  SQLParser_GetQueryType "INSERT_INTO" = Insert
  /\ SQLParser_GetFieldType "NUMBER" = FieldType.Number.
Proof.
  destruct (classifier_is_exact "INSERT_INTO") as [Hq _].
  destruct (classifier_is_exact "NUMBER") as [_ Hf].
  split.
  - apply (Hq Insert); [discriminate | cbn; auto].
  - apply (Hf FieldType.Number); [discriminate | cbn; auto].
Defined.

(** ** Column and table lookup *)

Lemma to_int_small i : 0 <= i < 128 -> to_int i = i.
Proof.
  intros H. unfold to_int, INT_BITS.
  rewrite Z.mod_small by lia. lia.
Qed.

Lemma slot_in_range {A} (l : list A) d i :
  0 <= i < 128 -> slot l d i = Ret (nth (Z.to_nat i) l d).
Proof.
  intros H. unfold slot.
  now replace ((0 <=? i) && (i <? 128)) with true by lia.
Qed.

Lemma find_column_spec table column n : forall i,
  0 <= i -> i + Z.of_nat n <= 128 ->
  exists p,
    find_column n i table column = Ret p
    /\ ((p = -1
         /\ forall j, i <= j < i + Z.of_nat n ->
                      nth (Z.to_nat j) (TableStructureInfo.columns table) "" <> column)
        \/ (i <= p < i + Z.of_nat n
            /\ nth (Z.to_nat p) (TableStructureInfo.columns table) "" = column
            /\ forall j, i <= j < p ->
                         nth (Z.to_nat j) (TableStructureInfo.columns table) "" <> column)).
Proof.
  induction n as [|n IH]; intros i Hi Hn.
  - exists (-1). split; [reflexivity | left]. split; [reflexivity | lia].
  - cbn [find_column]. rewrite slot_in_range by lia. cbn.
    destruct (strcmp column _ =? 0) eqn:Hc.
    + exists i. rewrite to_int_small by lia. split; [reflexivity | right].
      apply Z.eqb_eq, strcmp_eq in Hc. repeat split; try lia. now symmetry.
    + destruct (IH (i + 1)) as [p [Hp Hcase]]; [lia | lia |].
      exists p. split; [exact Hp |].
      assert (Hhere : nth (Z.to_nat i) (TableStructureInfo.columns table) "" <> column).
      { intros E. rewrite E, strcmp_refl in Hc. discriminate. }
      destruct Hcase as [[-> Hnone] | [Hr [Hat Hbefore]]]; [left | right].
      * split; [reflexivity |]. intros j Hj.
        destruct (Z.eq_dec j i) as [-> |]; [assumption | apply Hnone; lia].
      * repeat split; try lia; [assumption |]. intros j Hj.
        destruct (Z.eq_dec j i) as [-> |]; [assumption | apply Hbefore; lia].
Qed.

(** X2.  For a schema of at most 128 columns the column search always has an
    answer: -1 when no column among the first [count] bears the name, and
    otherwise the position of the first one that does. *)
Theorem FindColumn_first_position table column :
  0 <= TableStructureInfo.count table <= 128 ->
  exists p,
    SQLParser_FindColumn table column = Ret p
    /\ ((p = -1
         /\ forall j, 0 <= j < TableStructureInfo.count table ->
                      nth (Z.to_nat j) (TableStructureInfo.columns table) "" <> column)
        \/ (0 <= p < TableStructureInfo.count table
            /\ nth (Z.to_nat p) (TableStructureInfo.columns table) "" = column
            /\ forall j, 0 <= j < p ->
                         nth (Z.to_nat j) (TableStructureInfo.columns table) "" <> column)).
Proof.
  intros Hcount. unfold SQLParser_FindColumn.
  replace (Z.min (TableStructureInfo.count table) 129)
    with (TableStructureInfo.count table) by lia.
  destruct (find_column_spec table column
              (Z.to_nat (TableStructureInfo.count table)) 0) as [p [Hp Hcase]];
    [lia | lia |].
  exists p. split; [exact Hp |].
  rewrite Z2Nat.id in Hcase by lia. exact Hcase.
Qed.

Lemma FindColumn_first_position_witness :
  0 <= TableStructureInfo.count persons <= 128
  /\ exists p,
       SQLParser_FindColumn persons "age" = Ret p
       /\ ((p = -1
            /\ forall j, 0 <= j < TableStructureInfo.count persons ->
                 nth (Z.to_nat j) (TableStructureInfo.columns persons) "" <> "age")
           \/ (0 <= p < TableStructureInfo.count persons
               /\ nth (Z.to_nat p) (TableStructureInfo.columns persons) "" = "age"
               /\ forall j, 0 <= j < p ->
                    nth (Z.to_nat j) (TableStructureInfo.columns persons) "" <> "age")).
Proof.
  assert (H : 0 <= TableStructureInfo.count persons <= 128) by (cbn; lia).
  split; [exact H |].
  exact (FindColumn_first_position persons "age" H).
Defined.

Lemma find_record_first name before table after :
  TableStructureInfo.name table = name ->
  Forall (fun r => TableStructureInfo.name r <> name) before ->
  find_record name (before ++ table :: after) = table.
Proof.
  intros Hname. induction 1 as [|r before Hr _ IH]; cbn.
  - now rewrite Hname, strcmp_refl.
  - destruct (strcmp name (TableStructureInfo.name r) =? 0) eqn:Hc; [| exact IH].
    apply Z.eqb_eq, strcmp_eq in Hc. congruence.
Qed.

Lemma find_record_none name records :
  Forall (fun r => TableStructureInfo.name r <> name) records ->
  find_record name records = TableStructureInfo.zero.
Proof.
  induction 1 as [|r records Hr _ IH]; cbn; [reflexivity |].
  destruct (strcmp name (TableStructureInfo.name r) =? 0) eqn:Hc; [| exact IH].
  apply Z.eqb_eq, strcmp_eq in Hc. congruence.
Qed.

(** X3.  The table search hands back the first record of the catalog that
    bears exactly the name, and the zero-filled structure when no record
    does or the catalog cannot be opened. *)
Theorem FindTable_first_record name w :
  (World.openable catalog_path w = false ->
   SQLParser_FindTable name w = TableStructureInfo.zero)
  /\ (World.catalog w = None ->
      SQLParser_FindTable name w = TableStructureInfo.zero)
  /\ (forall records,
         World.openable catalog_path w = true ->
         World.catalog w = Some records ->
         (Forall (fun r => TableStructureInfo.name r <> name) records ->
          SQLParser_FindTable name w = TableStructureInfo.zero)
         /\ (forall before table after,
                records = (before ++ table :: after)%list ->
                TableStructureInfo.name table = name ->
                Forall (fun r => TableStructureInfo.name r <> name) before ->
                SQLParser_FindTable name w = table)).
Proof.
  unfold SQLParser_FindTable. split; [| split].
  - now intros ->.
  - intros ->. now destruct (World.openable _ _).
  - intros records Hopen Hcatalog. rewrite Hopen, Hcatalog. split.
    + now apply find_record_none.
    + intros before table after -> Hname Hbefore.
      now apply find_record_first.
Qed.

Lemma FindTable_first_record_witness :
  SQLParser_FindTable "people" (with_people None ∅) = people.
Proof.
  destruct (FindTable_first_record "people" (with_people None ∅))
    as [_ [_ Hfound]].
  destruct (Hfound [people] eq_refl eq_refl) as [_ Hfirst].
  apply (Hfirst [] people []); [reflexivity | reflexivity | constructor].
Defined.

(** ** Predicate evaluator *)

Lemma strcmp_eqb a b : (strcmp a b =? 0) = bool_decide (a = b).
Proof.
  case_bool_decide as H.
  - apply Z.eqb_eq. now apply strcmp_eq.
  - apply Z.eqb_neq. intros E. now apply strcmp_eq in E.
Qed.

(** X4.  On a Boolean column the six relational operators all mean the same:
    the answer is 1 exactly when the stored flag agrees with whether the
    literal reads [True], and so a [NotEqual] condition holds of the rows
    an [Equal] condition holds of. *)
Theorem Boolean_operators_coincide tok next boolean :
  relational (Token.operator tok) = true ->
  SQLcompareValues (tok :: next) (VBoolean boolean) FieldType.Boolean
  = Ret (of_bool (Bool.eqb (bool_decide (Token.value tok = "True")) boolean)).
Proof.
  intros Hop. unfold SQLcompareValues.
  rewrite strcmp_eqb.
  replace (bool_decide ("True" = Token.value tok))
    with (bool_decide (Token.value tok = "True"))
    by (apply bool_decide_ext; split; congruence).
  destruct (Token.operator tok); try discriminate; reflexivity.
Qed.

Lemma Boolean_operators_coincide_witness :
  SQLcompareValues [token "ok" NotEqualOperator "True"] (VBoolean true)
    FieldType.Boolean = Ret 1
  /\ SQLcompareValues [token "ok" EqualOperator "True"] (VBoolean true)
       FieldType.Boolean = Ret 1.
Proof.
  split.
  - exact (Boolean_operators_coincide (token "ok" NotEqualOperator "True") []
             true eq_refl).
  - exact (Boolean_operators_coincide (token "ok" EqualOperator "True") []
             true eq_refl).
Defined.

(** X5.  On a String column [Equal] answers 1 exactly when the literal and
    the stored string are the same bytes, and [NotEqual] exactly when they
    are not; on an Integer column [Equal] answers 1 exactly when the
    [strtol] of the literal is the stored integer. *)
Theorem Equal_is_exact tok next :
  (Token.operator tok = EqualOperator ->
   (forall s, SQLcompareValues (tok :: next) (VString s) FieldType.String
              = Ret (of_bool (bool_decide (Token.value tok = s))))
   /\ (forall i, SQLcompareValues (tok :: next) (VInteger i) FieldType.Integer
                 = Ret (of_bool (bool_decide (to_int (strtol (Token.value tok)) = i)))))
  /\ (Token.operator tok = NotEqualOperator ->
      forall s, SQLcompareValues (tok :: next) (VString s) FieldType.String
                = Ret (of_bool (bool_decide (Token.value tok <> s)))).
Proof.
  split; intros Hop; [split |]; intros x; unfold SQLcompareValues; rewrite Hop;
    cbn; try rewrite strcmp_eqb; f_equal; f_equal.
  - case_bool_decide as H; [now apply Z.eqb_eq | now apply Z.eqb_neq].
  - repeat case_bool_decide; try reflexivity; contradiction.
Qed.

Lemma Equal_is_exact_witness :
  SQLcompareValues [token "name" EqualOperator "Ann"] (VString "Ann")
    FieldType.String = Ret 1
  /\ SQLcompareValues [token "name" NotEqualOperator "Ann"] (VString "Bob")
       FieldType.String = Ret 1.
Proof.
  split.
  - exact (proj1 (proj1 (Equal_is_exact (token "name" EqualOperator "Ann") [])
                    eq_refl) "Ann").
  - exact (proj2 (Equal_is_exact (token "name" NotEqualOperator "Ann") [])
             eq_refl "Bob").
Defined.

(** An assignment is no condition: whatever it is compared with, the answer
    is not 0. *)
Lemma SQLcompareValues_assignment tok next value type r :
  Token.operator tok = AssignOperator ->
  SQLcompareValues (tok :: next) value type = Ret r -> r <> 0.
Proof.
  intros Hop. unfold SQLcompareValues. rewrite Hop.
  destruct type, value as [i|x|s|b|]; cbn;
    try destruct (trunc (strtod (Token.value tok))); cbn;
    try destruct (trunc x); cbn;
    try discriminate; intros [= <-]; discriminate.
Qed.

Lemma filter_conditions_assignments tableStructure row conditions : forall r,
  Forall (fun tok => Token.operator tok = AssignOperator) conditions ->
  filter_conditions conditions tableStructure row = Ret r -> r = 1.
Proof.
  induction conditions as [|tok next IH]; intros r Hall H; cbn in H.
  - now inversion H.
  - apply Forall_cons in Hall as [Hop Hall].
    destruct (SQLParser_FindColumn _ _) as [position|]; [| discriminate].
    cbn in H. destruct (position =? -1); cbn in H; [now apply IH |].
    destruct (slot _ _ _) as [column|]; [| discriminate]. cbn in H.
    destruct (SQLcompareValues _ _ _) as [compared|] eqn:Hc; [| discriminate].
    cbn in H. apply SQLcompareValues_assignment in Hc; [| assumption].
    replace (compared =? 0) with false in H by lia.
    rewrite !andb_false_r in H. now apply IH.
Qed.

(** X6.  Tokens with the assignment operator never turn a row down: a
    statement all of whose tokens behind the command are assignments
    matches every row of the table. *)
Theorem assignments_match_every_row command conditions tableStructure row r :
  Forall (fun tok => Token.operator tok = AssignOperator) conditions ->
  SQLfilterRow (command :: conditions) tableStructure row = Ret r ->
  r = 1.
Proof.
  intros Hall. unfold SQLfilterRow. destruct conditions as [|tok next].
  - now intros [= <-].
  - now apply filter_conditions_assignments.
Qed.

Lemma assignments_match_every_row_witness :
  SQLfilterRow [token "DELETE" AssignOperator "people";
                token "age" AssignOperator "30"] people
    {| Row.index := 0;
       Row.columns := [ {| Column.value := VInteger 7;
                           Column.type := FieldType.Integer;
                           Column.position := 0 |} ];
       Row.columnCount := 1 |} = Ret 1
  /\ 1 = 1.
Proof.
  split; [reflexivity |].
  apply (assignments_match_every_row
           (token "DELETE" AssignOperator "people")
           [token "age" AssignOperator "30"] people
           {| Row.index := 0;
              Row.columns := [ {| Column.value := VInteger 7;
                                  Column.type := FieldType.Integer;
                                  Column.position := 0 |} ];
              Row.columnCount := 1 |} 1);
    [repeat constructor | reflexivity].
Defined.

(** ** Lexer *)

Lemma operator_free_cstr s : operator_free s = true -> operator_free (cstr s) = true.
Proof.
  induction s as [|c s IH]; [reflexivity |]. cbn.
  intros [Hc Hs]%andb_prop. destruct (code c =? 0); [reflexivity |].
  cbn. now rewrite Hc, IH.
Qed.

Lemma scan_operator_free s : forall lx,
  Lexer.state lx = ScanToken ->
  operator_free s = true ->
  scan AtSwitch lx s = Ret (Tokens (Lexer.head lx)).
Proof.
  induction s as [|c s IH]; intros lx Hst Hfree.
  - cbn. now rewrite Hst.
  - cbn in Hfree. apply andb_prop in Hfree as [Hc Hfree].
    unfold special in Hc. apply negb_true_iff in Hc.
    repeat (apply orb_false_elim in Hc as [Hc ?]).
    cbn [scan]. rewrite Hc. cbn.
    repeat match goal with H : ch c _ = false |- _ => rewrite H; clear H end.
    cbn. rewrite Hst.
    destruct (ch c " " || ch c "009" || ch c "010");
      now rewrite IH by assumption.
Qed.

(** X7.  A query in which no operator character ([:], [<], [>], [!], [=])
    and no quote occurs yields no token at all, however many words it has;
    [SQLExecuteQuery] then returns 1 and does nothing. *)
Theorem query_without_operator_yields_nothing query w :
  operator_free query = true ->
  SQLParser_Parse query = Ret (Tokens [])
  /\ SQLExecuteQuery query w = Ret (w, 1).
Proof.
  intros Hfree.
  assert (Hparse : SQLParser_Parse query = Ret (Tokens [])).
  { unfold SQLParser_Parse.
    now rewrite scan_operator_free by (auto using operator_free_cstr). }
  split; [exact Hparse |]. unfold SQLExecuteQuery. now rewrite Hparse.
Qed.

Lemma query_without_operator_yields_nothing_witness :
  SQLExecuteQuery "DATASET users name STRING age INTEGER" fresh = Ret (fresh, 1).
Proof.
  exact (proj2 (query_without_operator_yields_nothing
                  "DATASET users name STRING age INTEGER" fresh eq_refl)).
Defined.

(** *** What every token is like *)

Lemma drop_trailing_space_idem s :
  drop_trailing_space (drop_trailing_space s) = drop_trailing_space s.
Proof.
  induction s as [|c s IH]; [reflexivity |]. cbn.
  destruct (drop_trailing_space s) as [|d r] eqn:Hd.
  - destruct (isspace c) eqn:Hc; [reflexivity |]. cbn. now rewrite Hc.
  - cbn [drop_trailing_space] in *. rewrite IH. reflexivity.
Qed.

Lemma drop_trailing_space_head c s :
  isspace c = false ->
  exists r, drop_trailing_space (String c s) = String c r.
Proof.
  intros Hc. cbn. destruct (drop_trailing_space s); [rewrite Hc |]; eauto.
Qed.

Lemma skip_space_head s c r :
  skip_space s = String c r -> isspace c = false.
Proof.
  induction s as [|x s IH]; [discriminate |]. cbn.
  destruct (isspace x) eqn:Hx; [exact IH |]. now intros [= <- _].
Qed.

Lemma trim_trimmed buffer keyword :
  trim buffer = Ret keyword -> trimmed keyword.
Proof.
  unfold trim. destruct (skip_space buffer) as [|c r] eqn:Hs; [discriminate |].
  intros H.
  assert (keyword = drop_trailing_space (String c r)) as -> by congruence.
  clear H. pose proof (skip_space_head _ _ _ Hs) as Hc.
  destruct (drop_trailing_space_head c r Hc) as [r' Hr].
  repeat split.
  - now rewrite Hr.
  - rewrite Hr. cbn. now rewrite Hc.
  - apply drop_trailing_space_idem.
Qed.

Lemma SQLfindOperator_helper_valid query :
  fst (SQLfindOperator_helper query) <> InvalidOperator.
Proof.
  unfold SQLfindOperator_helper.
  repeat match goal with
         | |- context [if ?b then _ else _] => destruct b
         end; discriminate.
Qed.

Lemma lexer_ok_emit next lx :
  lexer_ok lx -> Lexer.state lx = ScanValue ->
  Forall token_ok (Lexer.head (Lexer.emit next lx)).
Proof.
  intros [Hhead Hval] Hst. cbn. apply Forall_app. split; [exact Hhead |].
  constructor; [| constructor]. exact (Hval Hst).
Qed.

Lemma scan_step at_ lx c rest :
  scan at_ lx (String c rest)
  = match at_ with
    | AtSwitch => switch c rest lx
    | AfterOperator =>
        if isspace c then scan AfterOperator lx rest else switch c rest lx
    | InQuote =>
        if ch c "'" then scan AtSwitch lx rest
        else scan InQuote (Lexer.push c lx) rest
    end.
Proof. destruct at_; reflexivity. Qed.

Lemma scan_tokens_ok_bounded n : forall query at_ lx head,
  (String.length query <= n)%nat ->
  lexer_ok lx ->
  scan at_ lx query = Ret (Tokens head) ->
  Forall token_ok head.
Proof.
  induction n as [|n IH]; intros [|c rest] at_ lx head Hlen Hok H;
    try (cbn in Hlen; lia).
  1, 2: cbn in H; destruct at_; try discriminate;
      (destruct (Lexer.state lx) eqn:Hst; inversion H; subst;
       [now apply (lexer_ok_emit ScanValue) | exact (proj1 Hok)]).
  assert (Hrest : (String.length rest <= n)%nat) by (cbn in Hlen; lia).
  clear Hlen.
  assert (Hpush : lexer_ok (Lexer.push c lx)) by exact Hok.
  assert (Hswitch : switch c rest lx = Ret (Tokens head) -> Forall token_ok head).
  { unfold switch. intros Hs.
    destruct (ch c ":" || ch c "<" || ch c ">" || ch c "!" || ch c "=").
    - pose proof (SQLfindOperator_helper_valid (String c rest)) as Hvalid.
      destruct (SQLfindOperator_helper (String c rest)) as [operator moved].
      cbn in Hvalid.
      destruct (Lexer.state lx); [discriminate |].
      destruct (trim (Lexer.buffer lx)) as [keyword|] eqn:Ht; [| discriminate].
      apply trim_trimmed in Ht.
      assert (Hok' : lexer_ok {| Lexer.state := ScanValue; Lexer.buffer := "";
                                 Lexer.keyword := keyword;
                                 Lexer.operator := operator;
                                 Lexer.head := Lexer.head lx |}).
      { split; [exact (proj1 Hok) | intros _; split; assumption]. }
      destruct moved; [destruct rest as [|d rest'] |];
        (eapply IH; [| exact Hok' | exact Hs]); cbn in *; lia.
    - destruct (ch c "'").
      + destruct (Lexer.state lx) eqn:Hst; [| discriminate].
        exact (IH _ _ _ _ Hrest Hok Hs).
      + destruct (ch c " " || ch c "009" || ch c "010").
        * destruct (Lexer.state lx) eqn:Hst;
            [| exact (IH _ _ _ _ Hrest Hok Hs)].
          eapply IH; [exact Hrest | | exact Hs].
          split; [now apply (lexer_ok_emit ScanToken) |].
          cbn. discriminate.
        * exact (IH _ _ _ _ Hrest Hpush Hs). }
  rewrite scan_step in H. destruct at_.
  - now apply Hswitch.
  - destruct (isspace c); [exact (IH _ _ _ _ Hrest Hok H) | now apply Hswitch].
  - destruct (ch c "'");
      [exact (IH _ _ _ _ Hrest Hok H) | exact (IH _ _ _ _ Hrest Hpush H)].
Qed.

(** X8.  Every token of a parsed query has a keyword that is not empty and
    has no white space at either end, and an operator other than
    [InvalidOperator]. *)
Theorem parsed_tokens_are_well_formed query head :
  SQLParser_Parse query = Ret (Tokens head) ->
  Forall token_ok head.
Proof.
  apply (scan_tokens_ok_bounded (String.length (cstr query))); [lia |].
  split; [constructor | discriminate].
Qed.

Lemma parsed_tokens_are_well_formed_witness :
  Forall token_ok [token "SELECT" AssignOperator "people";
                   token "age" GreaterThanOperator "25"].
Proof.
  apply (parsed_tokens_are_well_formed "  SELECT : people age>25"). reflexivity.
Defined.

(** *** Writing tokens out and parsing them back *)

Lemma append_assoc (a b c : string) : (a +:+ b) +:+ c = a +:+ b +:+ c.
Proof.
  induction a as [|x a IH]; [reflexivity |]. now rewrite !append_String, IH.
Qed.

Lemma plain_facts c :
  plain c = true ->
  isspace c = false /\ special c = false /\ (code c =? 0) = false
  /\ (ch c ":" || ch c "<" || ch c ">" || ch c "!" || ch c "=") = false
  /\ ch c "'" = false /\ (ch c " " || ch c "009" || ch c "010") = false
  /\ ch c "=" = false /\ ch c ">" = false.
Proof.
  unfold plain, special, isspace, ch.
  change (code ":") with 58. change (code "<") with 60.
  change (code ">") with 62. change (code "!") with 33.
  change (code "=") with 61. change (code "'") with 39.
  change (code " ") with 32. change (code "009") with 9.
  change (code "010") with 10.
  generalize (code c). intros n H. repeat split; lia.
Qed.

(** A run of plain characters is taken into the buffer as it stands. *)
Lemma scan_plain s : forall lx rest,
  plain_tail s = true ->
  scan AtSwitch lx (s +:+ rest) = scan AtSwitch (pushes s lx) rest.
Proof.
  induction s as [|c s IH]; intros lx rest Hs.
  - cbn. now rewrite pushes_empty.
  - cbn in Hs. apply andb_prop in Hs as [Hc Hs].
    destruct (plain_facts c Hc) as (_ & _ & _ & Hop & Hq & Hw & _).
    rewrite append_String, scan_step. unfold switch. rewrite Hop, Hq, Hw.
    now rewrite IH, pushes_push.
Qed.

Lemma skip_space_plain c s : plain c = true -> skip_space (String c s) = String c s.
Proof.
  intros Hc. destruct (plain_facts c Hc) as (Hsp & _). cbn. now rewrite Hsp.
Qed.

Lemma drop_trailing_space_plain s :
  plain_tail s = true -> drop_trailing_space s = s.
Proof.
  induction s as [|c s IH]; [reflexivity |]. cbn.
  intros [Hc Hs]%andb_prop. rewrite (IH Hs).
  destruct (plain_facts c Hc) as (Hsp & _). rewrite Hsp. now destruct s.
Qed.

Lemma trim_word s : word s = true -> trim s = Ret s.
Proof.
  destruct s as [|c s]; [discriminate |]. intros Hw. unfold trim.
  pose proof Hw as Hw'. cbn in Hw'. apply andb_prop in Hw' as [Hc _].
  rewrite skip_space_plain by assumption.
  now rewrite drop_trailing_space_plain.
Qed.

Lemma append_empty_l (s : string) : "" +:+ s = s.
Proof. reflexivity. Qed.

(** Tests of one literal character against another are decided. *)
Ltac eval_ch :=
  repeat match goal with
         | |- context [ch (Ascii ?a ?b ?c ?d ?e ?f ?g ?h) ?lit] =>
             let v := eval vm_compute in (ch (Ascii a b c d e f g h) lit) in
             change (ch (Ascii a b c d e f g h) lit) with v
         end.

Lemma scan_operator lx keyword operator c rest :
  Lexer.state lx = ScanToken ->
  Lexer.buffer lx = keyword ->
  word keyword = true ->
  operator <> InvalidOperator ->
  plain c = true ->
  scan AtSwitch lx (lexeme operator +:+ String c rest)
  = scan AtSwitch
      {| Lexer.state := ScanValue; Lexer.buffer := String c "";
         Lexer.keyword := keyword; Lexer.operator := operator;
         Lexer.head := Lexer.head lx |} rest.
Proof.
  intros Hst Hbuf Hword Hop Hc.
  destruct (plain_facts c Hc) as (Hsp & _ & _ & Hopc & Hq & Hw & Heq & Hgt).
  assert (Hvalue :
            forall lx', scan AfterOperator lx' (String c rest)
                        = scan AtSwitch (Lexer.push c lx') rest).
  { intros lx'. rewrite scan_step, Hsp. unfold switch. now rewrite Hopc, Hq, Hw. }
  destruct operator; try contradiction; cbn [lexeme];
    rewrite ?append_String, ?append_empty_l;
    rewrite scan_step; unfold switch, SQLfindOperator_helper;
    cbn [peek]; eval_ch; rewrite ?Heq, ?Hgt; cbn [orb andb];
    rewrite Hst, Hbuf, (trim_word _ Hword), Hvalue; reflexivity.
Qed.

Lemma scan_token tok lx rest :
  Lexer.state lx = ScanToken ->
  Lexer.buffer lx = "" ->
  writable tok = true ->
  scan AtSwitch lx
    (Token.keyword tok +:+ lexeme (Token.operator tok) +:+ Token.value tok
       +:+ String " " rest)
  = scan AtSwitch (behind tok lx) rest.
Proof.
  intros Hst Hbuf Hw. unfold writable in Hw.
  apply andb_prop in Hw as [[Hk Hv]%andb_prop Hop].
  apply negb_true_iff, bool_decide_eq_false in Hop.
  destruct tok as [keyword value operator]; cbn in *.
  destruct value as [|c value]; [discriminate |].
  pose proof Hv as Hv'. cbn in Hv'. apply andb_prop in Hv' as [Hc Hvalue].
  rewrite scan_plain by (destruct keyword; [discriminate | exact Hk]).
  rewrite append_String.
  rewrite (scan_operator _ keyword) ; try assumption;
    [| cbn; now rewrite Hbuf].
  rewrite scan_plain by assumption.
  rewrite scan_step. unfold switch. cbn -[scan].
  unfold behind, Lexer.emit, pushes; cbn. reflexivity.
Qed.

Lemma scan_serialize list : forall lx,
  Lexer.state lx = ScanToken ->
  Lexer.buffer lx = "" ->
  Forall (fun tok => writable tok = true) list ->
  scan AtSwitch lx (serialize list) = Ret (Tokens (Lexer.head lx ++ list)).
Proof.
  induction list as [|tok next IH]; intros lx Hst Hbuf Hall.
  - cbn. rewrite Hst. now rewrite app_nil_r.
  - apply Forall_cons in Hall as [Htok Hnext]. cbn [serialize].
    rewrite scan_token by assumption.
    rewrite IH by (assumption || reflexivity).
    cbn. now rewrite <- app_assoc.
Qed.

Lemma cstr_nul_free s : nul_free s = true -> cstr s = s.
Proof.
  induction s as [|c s IH]; [reflexivity |]. cbn.
  intros [Hc Hs]%andb_prop. apply negb_true_iff in Hc. now rewrite Hc, IH.
Qed.

Lemma nul_free_append a b :
  nul_free a = true -> nul_free b = true -> nul_free (a +:+ b) = true.
Proof.
  induction a as [|c a IH]; [easy |]. rewrite append_String. cbn.
  intros [Hc Ha]%andb_prop Hb. now rewrite Hc, IH.
Qed.

Lemma nul_free_plain s : plain_tail s = true -> nul_free s = true.
Proof.
  induction s as [|c s IH]; [reflexivity |]. cbn.
  intros [Hc Hs]%andb_prop.
  destruct (plain_facts c Hc) as (_ & _ & H0 & _). now rewrite H0, IH.
Qed.

Lemma nul_free_word s : word s = true -> nul_free s = true.
Proof. destruct s; [discriminate | apply nul_free_plain]. Qed.

Lemma nul_free_serialize list :
  Forall (fun tok => writable tok = true) list -> nul_free (serialize list) = true.
Proof.
  induction 1 as [|tok next Htok _ IH]; [reflexivity |]. cbn [serialize].
  unfold writable in Htok. apply andb_prop in Htok as [[Hk Hv]%andb_prop _].
  repeat apply nul_free_append; auto using nul_free_word;
    try (now destruct (Token.operator tok)).
Qed.

(** X9.  Tokens whose keywords and values are words (plain characters, one
    at least) and whose operators are valid, written out as
    [keyword operator value] with a blank behind each, are parsed back as
    the same tokens in the same order. *)
Theorem parse_serialize list :
  Forall (fun tok => writable tok = true) list ->
  SQLParser_Parse (serialize list) = Ret (Tokens list).
Proof.
  intros Hall. unfold SQLParser_Parse.
  rewrite cstr_nul_free by now apply nul_free_serialize.
  now rewrite scan_serialize.
Qed.

Lemma parse_serialize_witness :
  SQLParser_Parse "UPDATE:people age>=30 name<>Bob age:31 "
  = Ret (Tokens [token "UPDATE" AssignOperator "people";
                 token "age" GreaterOrEqualOperator "30";
                 token "name" NotEqualOperator "Bob";
                 token "age" AssignOperator "31"]).
Proof.
  apply (parse_serialize [token "UPDATE" AssignOperator "people";
                          token "age" GreaterOrEqualOperator "30";
                          token "name" NotEqualOperator "Bob";
                          token "age" AssignOperator "31"]).
  repeat constructor.
Defined.

(** ** Storage *)

Lemma only_printed_refl w : only_printed w w.
Proof. repeat split. Qed.

Lemma only_printed_trans w1 w2 w3 :
  only_printed w1 w2 -> only_printed w2 w3 -> only_printed w1 w3.
Proof. unfold only_printed. intuition congruence. Qed.

Lemma only_printed_printf s w : only_printed w (World.printf s w).
Proof. repeat split. Qed.

Lemma SQLisValidRow_only_printed list tableStructure row w w' valid :
  SQLisValidRow list tableStructure row w = Ret (w', valid) ->
  only_printed w w'.
Proof.
  unfold SQLisValidRow. destruct list as [|tok next].
  - intros [= <- _]. apply only_printed_refl.
  - destruct (_ >? _); [intros [= <- _]; apply only_printed_printf |].
    destruct (SQLParser_FindColumn _ _) as [p|]; [| discriminate]. cbn.
    destruct (p =? -1); intros [= <- _];
      [apply only_printed_printf | apply only_printed_refl].
Qed.

Lemma SQLprintTable_only_printed rows : forall w w',
  SQLprintTable rows w = Ret w' -> only_printed w w'.
Proof.
  induction rows as [|row rows IH]; intros w w' H; cbn in H.
  - inversion H. apply only_printed_refl.
  - destruct (SQLwriteRowToStdout row) as [text|]; [| discriminate]. cbn in H.
    eapply only_printed_trans; [apply only_printed_printf | exact (IH _ _ H)].
Qed.

Lemma delete_rows_only_printed list tableStructure rows : forall w w' written,
  delete_rows list tableStructure rows w = Ret (w', written) ->
  only_printed w w'.
Proof.
  induction rows as [|row rows IH]; intros w w' written H; cbn in H.
  - inversion H. apply only_printed_refl.
  - destruct (SQLisValidRow _ _ _ _) as [[w1 valid]|] eqn:Hv; [| discriminate].
    apply SQLisValidRow_only_printed in Hv. cbn in H.
    destruct (valid =? 0); [now inversion H; subst |].
    destruct (SQLfilterRow _ _ _) as [kept|]; [| discriminate]. cbn in H.
    destruct (if kept =? 0 then _ else _) as [text|]; [| discriminate].
    cbn in H.
    destruct (delete_rows _ _ _ _) as [[w2 more]|] eqn:Hd; [| discriminate].
    cbn in H. inversion H; subst.
    eapply only_printed_trans; [exact Hv | exact (IH _ _ _ Hd)].
Qed.

Lemma update_rows_only_printed list tableStructure rows : forall w w' written,
  update_rows list tableStructure rows w = Ret (w', written) ->
  only_printed w w'.
Proof.
  induction rows as [|row rows IH]; intros w w' written H; cbn in H.
  - inversion H. apply only_printed_refl.
  - destruct (SQLisValidRow _ _ _ _) as [[w1 valid]|] eqn:Hv; [| discriminate].
    apply SQLisValidRow_only_printed in Hv. cbn in H.
    destruct (valid =? 0); [now inversion H; subst |].
    destruct (SQLfilterRow _ _ _) as [kept|]; [| discriminate]. cbn in H.
    destruct (if kept =? 0 then _ else _) as [text|]; [| discriminate].
    cbn in H.
    destruct (update_rows _ _ _ _) as [[w2 more]|] eqn:Hd; [| discriminate].
    cbn in H. inversion H; subst.
    eapply only_printed_trans; [exact Hv | exact (IH _ _ _ Hd)].
Qed.

Lemma insert_row_only_printed list tableStructure : forall row w w' made,
  insert_row list tableStructure row w = Ret (w', made) ->
  only_printed w w'.
Proof.
  induction list as [|tok next IH]; intros row w w' made H; cbn in H.
  - inversion H. apply only_printed_refl.
  - unfold SQLcheckOperator in H. case_bool_decide; cbn in H;
      [| inversion H; apply only_printed_printf].
    destruct (SQLisValidRow _ _ _ _) as [[w2 valid]|] eqn:Hv; [| discriminate].
    apply SQLisValidRow_only_printed in Hv. cbn in H.
    destruct (valid =? 0); [now inversion H; subst |].
    destruct (slot _ _ _) as [type|]; [| discriminate]. cbn in H.
    destruct (SQLvalueFromStringAndType _ _) as [value|]; [| discriminate].
    cbn in H.
    destruct (SQLParser_FindColumn _ _) as [position|]; [| discriminate].
    cbn in H.
    destruct (store _ _ _ _) as [columns|]; [| discriminate]. cbn in H.
    eapply only_printed_trans; [exact Hv | exact (IH _ _ _ _ H)].
Qed.

Lemma only_printed_touches name w w' : only_printed w w' -> touches_only name w w'.
Proof. intros (Hf & Hc & _). split; [now rewrite Hf | exact Hc]. Qed.

Lemma SQLselect_only_printed list tableStructure w w' :
  SQLselect list tableStructure w = Ret w' -> only_printed w w'.
Proof.
  unfold SQLselect. destruct (SQLloadTable _ _ _); [| discriminate]. cbn.
  apply SQLprintTable_only_printed.
Qed.

Lemma SQLinsert_touches list tableStructure w w' :
  SQLinsert list tableStructure w = Ret w' ->
  touches_only (TableStructureInfo.name tableStructure) w w'.
Proof.
  unfold SQLinsert. destruct list as [|command next].
  - intros [= <-]. now apply only_printed_touches, only_printed_refl.
  - destruct (insert_row _ _ _ _) as [[w1 made]|] eqn:Hrow; [| discriminate].
    apply insert_row_only_printed in Hrow as (Hf & Hc & _). cbn.
    destruct made as [row|]; [| intros [= <-]; split; [now rewrite Hf | easy]].
    unfold SQLwriteRow, World.fopen_a.
    destruct (World.openable _ _);
      [| intros [= <-]; split; [now rewrite Hf | easy]].
    destruct (SQLwriteRowToFile row); [| discriminate]. cbn.
    intros [= <-]. split; [| exact Hc].
    intros path Hpath. unfold World.fwrite, World.with_files; cbn.
    now rewrite !lookup_insert_ne, Hf by congruence.
Qed.

Lemma rewrite_touches name filename text w w1 :
  World.files w !! filename = None ->
  only_printed (World.with_files (<[filename := ""]> (World.files w)) w) w1 ->
  touches_only name w
    (World.rename filename name
       (World.remove name (World.fwrite filename text w1))).
Proof.
  intros Hfresh (Hf & Hc & _). split.
  - intros path Hpath.
    unfold World.rename, World.remove, World.fwrite, World.with_files; cbn.
    rewrite Hf; cbn.
    destruct (decide (filename = name)) as [-> | Hne].
    + rewrite lookup_delete_eq. cbn. rewrite lookup_delete_ne by congruence.
      destruct (decide (path = name)) as [-> |]; [congruence |].
      now rewrite !lookup_insert_ne by congruence.
    + rewrite lookup_delete_ne, lookup_insert_eq by congruence. cbn.
      rewrite lookup_insert_ne by congruence.
      destruct (decide (path = filename)) as [-> |].
      * now rewrite lookup_delete_eq.
      * now rewrite !lookup_delete_ne, !lookup_insert_ne by congruence.
  - unfold World.rename, World.remove, World.fwrite, World.with_files; cbn.
    match goal with
    | |- context [match ?x with Some _ => _ | None => _ end] => destruct x
    end; cbn; exact Hc.
Qed.

Lemma abort_touches name filename w w1 :
  World.files w !! filename = None ->
  only_printed (World.with_files (<[filename := ""]> (World.files w)) w) w1 ->
  touches_only name w (World.remove filename w1).
Proof.
  intros Hfresh (Hf & Hc & _). split; [| exact Hc].
  intros path _. unfold World.remove, World.with_files; cbn. rewrite Hf; cbn.
  rewrite delete_insert_eq. now rewrite delete_id.
Qed.

Lemma SQLdelete_touches list tableStructure w w' :
  temporary_is_fresh w ->
  SQLdelete list tableStructure w = Ret w' ->
  touches_only (TableStructureInfo.name tableStructure) w w'.
Proof.
  intros Hfresh. unfold SQLdelete.
  destruct (World.tmpname w) as [filename|] eqn:Htmp;
    [| intros [= <-]; now apply only_printed_touches, only_printed_refl].
  specialize (Hfresh filename Htmp). unfold World.fopen_w.
  destruct (World.openable filename w);
    [| intros [= <-]; now apply only_printed_touches, only_printed_refl].
  destruct (SQLloadTable _ _ _) as [table|]; [| discriminate]. cbn.
  destruct list as [|command conditions]; [discriminate |].
  destruct (delete_rows _ _ _ _) as [[w1 written]|] eqn:Hd; [| discriminate].
  apply delete_rows_only_printed in Hd. cbn.
  destruct written as [text|]; intros [= <-];
    [now apply rewrite_touches | now apply abort_touches].
Qed.

Lemma SQLupdate_touches list tableStructure w w' :
  temporary_is_fresh w ->
  SQLupdate list tableStructure w = Ret w' ->
  touches_only (TableStructureInfo.name tableStructure) w w'.
Proof.
  intros Hfresh. unfold SQLupdate.
  destruct (World.tmpname w) as [filename|] eqn:Htmp;
    [| intros [= <-]; now apply only_printed_touches, only_printed_refl].
  specialize (Hfresh filename Htmp). unfold World.fopen_w.
  destruct (World.openable filename w);
    [| intros [= <-]; now apply only_printed_touches, only_printed_refl].
  destruct (SQLloadTable _ _ _) as [table|]; [| discriminate]. cbn.
  destruct list as [|command conditions]; [discriminate |].
  destruct (update_rows _ _ _ _) as [[w1 written]|] eqn:Hd; [| discriminate].
  apply update_rows_only_printed in Hd. cbn.
  destruct written as [text|]; intros [= <-];
    [now apply rewrite_touches | now apply abort_touches].
Qed.

Lemma CreateTable_catalog list w w' r :
  SQLParser_CreateTable list w = Ret (w', r) ->
  World.files w' = World.files w
  /\ (World.catalog w' = World.catalog w
      \/ exists more,
          World.catalog w' = Some (default [] (World.catalog w) ++ more)%list
          /\ (length more <= 1)%nat).
Proof.
  unfold SQLParser_CreateTable. destruct list as [|tok next].
  - intros [= <- _]. auto.
  - destruct (World.openable _ _); [| intros [= <- _]; auto].
    assert (Hfail : forall r',
               Ret (World.with_catalog (Some (default [] (World.catalog w))) w, r')
               = Ret (w', r) ->
               World.files w' = World.files w
               /\ (World.catalog w' = World.catalog w
                   \/ exists more,
                       World.catalog w'
                       = Some (default [] (World.catalog w) ++ more)%list
                       /\ (length more <= 1)%nat)).
    { intros r' [= <- _]. split; [reflexivity | right]. exists [].
      cbn. rewrite app_nil_r. split; [reflexivity | lia]. }
    destruct (_ >? 128 - 1); [apply Hfail |].
    destruct (copy_name _ _); [| discriminate]. cbn.
    destruct (create_columns _ _) as [[info|]|]; cbn;
      [| apply Hfail | discriminate].
    intros [= <- _]. split; [reflexivity | right]. exists [info].
    split; [reflexivity | cbn; lia].
Qed.

(** X10.  A query changes no text file other than the storage file of the
    table it names (the record [SQLParser_FindTable] finds for the value
    of its first token), and a SELECT changes none at all; the name
    [_mktemp] makes is one that no file bears. *)
Theorem statement_touches_only_its_table query w w' r tok list :
  temporary_is_fresh w ->
  SQLParser_Parse query = Ret (Tokens (tok :: list)) ->
  SQLExecuteQuery query w = Ret (w', r) ->
  (forall path,
      path <> TableStructureInfo.name (SQLParser_FindTable (Token.value tok) w) ->
      World.files w' !! path = World.files w !! path)
  /\ (SQLParser_GetQueryType (Token.keyword tok) = Select ->
      World.files w' = World.files w).
Proof.
  intros Hfresh Hparse. unfold SQLExecuteQuery. rewrite Hparse. cbn.
  set (table := SQLParser_FindTable (Token.value tok) w).
  destruct (SQLParser_GetQueryType (Token.keyword tok)); cbn.
  - destruct (ch _ _).
    + destruct (SQLParser_CreateTable _ _) as [[w1 r1]|] eqn:Hc; [| discriminate].
      apply CreateTable_catalog in Hc as [Hf _]. cbn.
      intros [= <- _]. split; [now rewrite Hf | discriminate].
    + intros [= <- _]. split; [reflexivity | discriminate].
  - destruct (SQLselect _ _ _) as [w1|] eqn:Hs; [| discriminate].
    apply SQLselect_only_printed in Hs as (Hf & _). cbn.
    intros [= <- _]. split; [now rewrite Hf | now intros _].
  - destruct (SQLdelete _ _ _) as [w1|] eqn:Hs; [| discriminate].
    apply SQLdelete_touches in Hs as [Hf _]; [| assumption]. cbn.
    intros [= <- _]. split; [exact Hf | discriminate].
  - destruct (SQLinsert _ _ _) as [w1|] eqn:Hs; [| discriminate].
    apply SQLinsert_touches in Hs as [Hf _]. cbn.
    intros [= <- _]. split; [exact Hf | discriminate].
  - destruct (SQLupdate _ _ _) as [w1|] eqn:Hs; [| discriminate].
    apply SQLupdate_touches in Hs as [Hf _]; [| assumption]. cbn.
    intros [= <- _]. split; [exact Hf | discriminate].
  - intros [= <- _]. split; [reflexivity | discriminate].
Qed.

Lemma statement_touches_only_its_table_witness :
  exists w' r,
    SQLExecuteQuery "DELETE:people age=30" two_files = Ret (w', r)
    /\ World.files w' !! "others" = Some ("0;1;" +:+ newline).
Proof.
  destruct (SQLExecuteQuery "DELETE:people age=30" two_files)
    as [[w' r]|] eqn:Hrun; [| vm_compute in Hrun; discriminate].
  exists w', r. split; [reflexivity |].
  destruct (statement_touches_only_its_table
              "DELETE:people age=30" two_files w' r
              (token "DELETE" AssignOperator "people")
              [token "age" EqualOperator "30"]) as [Hother _].
  - intros filename [= <-]. reflexivity.
  - reflexivity.
  - exact Hrun.
  - rewrite (Hother "others"); [reflexivity | discriminate].
Defined.

(** *** DELETE *)

Lemma SQLloadTable_not_empty list tableStructure w table :
  SQLloadTable list tableStructure w = Ret table -> table <> [].
Proof.
  unfold SQLloadTable. destruct (World.fopen_r _ _); [| discriminate].
  destruct (load_rows _ _ _ _) as [[|row rows]|]; cbn; try discriminate.
  now intros [= <-].
Qed.

(** What the temporary file and the two calls behind the loop make of the
    files. *)
Lemma rewrite_files name filename text w w1 :
  World.files w !! filename = None ->
  filename <> name ->
  World.files w1 = <[filename := ""]> (World.files w) ->
  World.files
    (World.rename filename name
       (World.remove name (World.fwrite filename text w1)))
  = <[name := text]> (World.files w).
Proof.
  intros Hfresh Hne Hf.
  unfold World.rename, World.remove, World.fwrite, World.with_files; cbn.
  rewrite Hf. rewrite lookup_insert_eq. cbn.
  rewrite lookup_delete_ne, lookup_insert_eq by congruence. cbn.
  rewrite insert_insert_eq. apply map_eq; intros path.
  destruct (decide (path = name)) as [-> | Hn];
    [now rewrite !lookup_insert_eq |].
  rewrite !lookup_insert_ne by congruence.
  destruct (decide (path = filename)) as [-> | Hpf];
    [now rewrite lookup_delete_eq |].
  now rewrite !lookup_delete_ne, lookup_insert_ne by congruence.
Qed.

Lemma abort_files filename w w1 :
  World.files w !! filename = None ->
  World.files w1 = <[filename := ""]> (World.files w) ->
  World.files (World.remove filename w1) = World.files w.
Proof.
  intros Hfresh Hf. unfold World.remove, World.with_files; cbn. rewrite Hf.
  now rewrite delete_insert_eq, delete_id.
Qed.

(** A row that the conditions have an answer for has one from the validity
    check as well. *)
Lemma SQLfilterRow_valid command conditions tableStructure row kept :
  SQLfilterRow (command :: conditions) tableStructure row = Ret kept ->
  forall w, exists w1 valid,
      SQLisValidRow conditions tableStructure row w = Ret (w1, valid).
Proof.
  unfold SQLfilterRow. destruct conditions as [|tok next].
  - intros _ w. exists w, 1. reflexivity.
  - cbn [filter_conditions]. intros H w.
    destruct (SQLParser_FindColumn tableStructure (Token.keyword tok))
      as [p|] eqn:Hp; [| discriminate].
    unfold SQLisValidRow. rewrite Hp. cbn.
    destruct (_ >? _); [eauto |]. destruct (p =? -1); eauto.
Qed.

Lemma delete_rows_spec command conditions tableStructure table :
  forall w kept text,
    unmatched (command :: conditions) tableStructure table = Ret kept ->
    records kept = Ret text ->
    exists w1 written,
      delete_rows (command :: conditions) tableStructure table w
      = Ret (w1, written)
      /\ only_printed w w1
      /\ (written = Some text \/ written = None).
Proof.
  induction table as [|row rows IH]; intros w kept text Hun Hrec.
  - inversion Hun; subst. inversion Hrec. exists w, (Some "").
    repeat split; auto.
  - cbn [unmatched] in Hun.
    destruct (SQLfilterRow _ _ row) as [k|] eqn:Hk; [| discriminate].
    cbn in Hun.
    destruct (unmatched _ _ rows) as [more|] eqn:Hmore; [| discriminate].
    cbn in Hun. inversion Hun; subst kept; clear Hun.
    destruct (SQLfilterRow_valid _ _ _ _ _ Hk w) as [w1 [valid Hv]].
    cbn [delete_rows tl]. rewrite Hv. cbn.
    pose proof (SQLisValidRow_only_printed _ _ _ _ _ _ Hv) as Hp1.
    destruct (valid =? 0); [exists w1, None; auto |].
    rewrite Hk. cbn. destruct (k =? 0).
    + cbn [records] in Hrec.
      destruct (SQLwriteRowToFile row) as [t|]; [| discriminate]. cbn in Hrec.
      destruct (records more) as [tm|] eqn:Htm; [| discriminate].
      inversion Hrec; subst text; clear Hrec. cbn.
      destruct (IH w1 more tm eq_refl Htm) as [w2 [written [Hd [Hp2 Hcase]]]].
      rewrite Hd. cbn. exists w2. eexists. split; [reflexivity |].
      split; [eapply only_printed_trans; eauto |].
      destruct Hcase as [-> | ->]; cbn; auto.
    + cbn. destruct (IH w1 more text eq_refl Hrec)
        as [w2 [written [Hd [Hp2 Hcase]]]].
      rewrite Hd. cbn. exists w2. eexists. split; [reflexivity |].
      split; [eapply only_printed_trans; eauto |].
      destruct Hcase as [-> | ->]; cbn; auto.
Qed.

(** X12.  DELETE keeps exactly the rows that its conditions turn down, in
    their order: either the table file is replaced by the records of those
    rows, or the statement is abandoned and no file changes. *)
Theorem delete_keeps_unmatched_rows
    command conditions tableStructure w table kept text :
  temporary_is_fresh w ->
  SQLloadTable [] tableStructure w = Ret table ->
  unmatched (command :: conditions) tableStructure table = Ret kept ->
  records kept = Ret text ->
  exists w',
    SQLdelete (command :: conditions) tableStructure w = Ret w'
    /\ (World.files w'
        = <[TableStructureInfo.name tableStructure := text]> (World.files w)
        \/ World.files w' = World.files w).
Proof.
  intros Hfresh Hload Hun Hrec. unfold SQLdelete.
  destruct (World.tmpname w) as [filename|] eqn:Htmp; [| eauto].
  specialize (Hfresh filename Htmp).
  unfold World.fopen_w.
  destruct (World.openable filename w) eqn:Hopen; [| eauto].
  assert (Hne : filename <> TableStructureInfo.name tableStructure).
  { intros ->. destruct (SQLloadTable_exists _ _ _ _ Hload) as [x Hx].
    congruence. }
  rewrite SQLloadTable_temporary by assumption. rewrite Hload. cbn.
  destruct (delete_rows_spec command conditions tableStructure table
              (World.with_files (<[filename := ""]> (World.files w)) w)
              kept text Hun Hrec) as [w1 [written [Hrun [Hp Hcase]]]].
  rewrite Hrun. cbn. destruct Hp as (Hf & _).
  destruct Hcase as [-> | ->]; eexists; (split; [reflexivity |]).
  - left. now apply rewrite_files.
  - right. now apply abort_files.
Qed.

(** [DELETE:people age=30] on rows of age 30 and 20 keeps the second. *)
Lemma delete_keeps_unmatched_rows_witness :
  exists w',
    SQLdelete [token "DELETE" AssignOperator "people";
               token "age" EqualOperator "30"] people
      (with_people (Some ("0;30;" +:+ newline +:+ "0;20;" +:+ newline)) ∅)
    = Ret w'
    /\ World.files w' !! "people" = Some ("0;20;" +:+ newline).
Proof.
  edestruct (delete_keeps_unmatched_rows
               (token "DELETE" AssignOperator "people")
               [token "age" EqualOperator "30"] people
               (with_people (Some ("0;30;" +:+ newline +:+ "0;20;" +:+ newline)) ∅))
    as [w' [Hrun Hfiles]].
  - intros filename [= <-]. reflexivity.
  - vm_compute. reflexivity.
  - vm_compute. reflexivity.
  - vm_compute. reflexivity.
  - exists w'. split; [exact Hrun |].
    destruct Hfiles as [Hf | Hf]; [rewrite Hf; reflexivity |].
    exfalso. vm_compute in Hrun. inversion Hrun; subst. vm_compute in Hf.
    discriminate.
Defined.

Lemma delete_rows_unconditional command tableStructure table : forall w,
  delete_rows [command] tableStructure table w = Ret (w, Some "").
Proof.
  induction table as [|row rows IH]; intros w; [reflexivity |].
  cbn [delete_rows tl]. unfold SQLisValidRow, SQLfilterRow. cbn.
  now rewrite IH.
Qed.

Lemma SQLloadTable_empty_file list tableStructure w :
  World.files w !! TableStructureInfo.name tableStructure = Some "" ->
  SQLloadTable list tableStructure w = Undef.
Proof.
  intros Hfile. unfold SQLloadTable, World.fopen_r. rewrite Hfile.
  now destruct (World.openable _ _).
Qed.

(** X13.  A DELETE without conditions never fails the validity check, drops
    every row and leaves the table file empty; from then on the table
    cannot be loaded (its row count is indeterminate), whatever the
    conditions. *)
Theorem delete_without_condition_empties_the_table
    command tableStructure w filename table :
  World.tmpname w = Some filename ->
  World.files w !! filename = None ->
  World.openable filename w = true ->
  SQLloadTable [] tableStructure w = Ret table ->
  exists w',
    SQLdelete [command] tableStructure w = Ret w'
    /\ World.files w'
       = <[TableStructureInfo.name tableStructure := ""]> (World.files w)
    /\ forall list, SQLloadTable list tableStructure w' = Undef.
Proof.
  intros Htmp Hfresh Hopen Hload.
  assert (Hne : filename <> TableStructureInfo.name tableStructure).
  { intros ->. destruct (SQLloadTable_exists _ _ _ _ Hload) as [x Hx].
    congruence. }
  unfold SQLdelete. rewrite Htmp. unfold World.fopen_w. rewrite Hopen.
  rewrite SQLloadTable_temporary by assumption. rewrite Hload. cbn.
  rewrite delete_rows_unconditional. cbn.
  eexists. split; [reflexivity |].
  assert (Hfiles :
            World.files
              (World.rename filename (TableStructureInfo.name tableStructure)
                 (World.remove (TableStructureInfo.name tableStructure)
                    (World.fwrite filename ""
                       (World.with_files (<[filename := ""]> (World.files w)) w))))
            = <[TableStructureInfo.name tableStructure := ""]> (World.files w))
    by now apply rewrite_files.
  split; [exact Hfiles |].
  intros list. apply SQLloadTable_empty_file. rewrite Hfiles.
  apply lookup_insert_eq.
Qed.

Lemma delete_without_condition_empties_the_table_witness :
  exists w',
    SQLdelete [token "DELETE" AssignOperator "people"] people
      (with_people (Some ("0;30;" +:+ newline)) ∅) = Ret w'
    /\ World.files w' !! "people" = Some ""
    /\ SQLselect [token "SELECT" AssignOperator "people"] people w' = Undef.
Proof.
  edestruct (delete_without_condition_empties_the_table
               (token "DELETE" AssignOperator "people") people
               (with_people (Some ("0;30;" +:+ newline)) ∅))
    as [w' [Hrun [Hfiles Hload]]].
  - reflexivity.
  - reflexivity.
  - reflexivity.
  - vm_compute. reflexivity.
  - exists w'. split; [exact Hrun |]. split; [now rewrite Hfiles |].
    unfold SQLselect. now rewrite Hload.
Defined.

(** *** The validity check *)

Lemma SQLisValidRow_unknown tok next tableStructure row w :
  SQLParser_FindColumn tableStructure (Token.keyword tok) = Ret (-1) ->
  exists w1,
    SQLisValidRow (tok :: next) tableStructure row w = Ret (w1, 0)
    /\ only_printed w w1.
Proof.
  intros Hp. unfold SQLisValidRow. rewrite Hp. cbn.
  destruct (_ >? _); eexists; (split; [reflexivity | apply only_printed_printf]).
Qed.

(** X14.  When the first token behind the command names a column that the
    schema does not have, UPDATE and DELETE on a table that loads are
    abandoned at its first row: no file is changed. *)
Theorem unknown_first_column_abandons_the_statement
    command tok next tableStructure w table :
  temporary_is_fresh w ->
  SQLloadTable [] tableStructure w = Ret table ->
  SQLParser_FindColumn tableStructure (Token.keyword tok) = Ret (-1) ->
  (exists w',
      SQLdelete (command :: tok :: next) tableStructure w = Ret w'
      /\ World.files w' = World.files w
      /\ World.catalog w' = World.catalog w)
  /\ (exists w',
         SQLupdate (command :: tok :: next) tableStructure w = Ret w'
         /\ World.files w' = World.files w
         /\ World.catalog w' = World.catalog w).
Proof.
  intros Hfresh Hload Hp.
  pose proof (SQLloadTable_not_empty _ _ _ _ Hload) as Hrows.
  destruct table as [|row rows]; [contradiction |].
  split.
  - unfold SQLdelete.
    destruct (World.tmpname w) as [filename|] eqn:Htmp; [| eauto].
    specialize (Hfresh filename Htmp). unfold World.fopen_w.
    destruct (World.openable filename w) eqn:Hopen; [| eauto].
    assert (Hne : filename <> TableStructureInfo.name tableStructure).
    { intros ->. destruct (SQLloadTable_exists _ _ _ _ Hload) as [x Hx].
      congruence. }
    rewrite SQLloadTable_temporary by assumption. rewrite Hload. cbn.
    destruct (SQLisValidRow_unknown tok next tableStructure row
                (World.with_files (<[filename := ""]> (World.files w)) w) Hp)
      as [w1 [Hv (Hf & Hc & _)]].
    rewrite Hv. cbn. eexists. split; [reflexivity |].
    split; [now apply abort_files | exact Hc].
  - unfold SQLupdate.
    destruct (World.tmpname w) as [filename|] eqn:Htmp; [| eauto].
    specialize (Hfresh filename Htmp). unfold World.fopen_w.
    destruct (World.openable filename w) eqn:Hopen; [| eauto].
    assert (Hne : filename <> TableStructureInfo.name tableStructure).
    { intros ->. destruct (SQLloadTable_exists _ _ _ _ Hload) as [x Hx].
      congruence. }
    rewrite SQLloadTable_temporary by assumption. rewrite Hload. cbn.
    destruct (SQLisValidRow_unknown tok next tableStructure row
                (World.with_files (<[filename := ""]> (World.files w)) w) Hp)
      as [w1 [Hv (Hf & Hc & _)]].
    rewrite Hv. cbn. eexists. split; [reflexivity |].
    split; [now apply abort_files | exact Hc].
Qed.

Lemma unknown_first_column_abandons_the_statement_witness :
  exists w',
    SQLupdate [token "UPDATE" AssignOperator "people";
               token "zz" EqualOperator "1";
               token "age" AssignOperator "31"] people
      (with_people (Some ("0;30;" +:+ newline)) ∅) = Ret w'
    /\ World.files w' !! "people" = Some ("0;30;" +:+ newline).
Proof.
  destruct (unknown_first_column_abandons_the_statement
              (token "UPDATE" AssignOperator "people")
              (token "zz" EqualOperator "1")
              [token "age" AssignOperator "31"] people
              (with_people (Some ("0;30;" +:+ newline)) ∅)
              [ {| Row.index := 0;
                   Row.columns := [ {| Column.value := VInteger 30;
                                       Column.type := FieldType.Integer;
                                       Column.position := 0 |};
                                    {| Column.value := VInteger 0;
                                       Column.type := FieldType.Integer;
                                       Column.position := 1 |} ];
                   Row.columnCount := 1 |} ])
    as [_ [w' [Hrun [Hfiles _]]]].
  - intros filename [= <-]. reflexivity.
  - vm_compute. reflexivity.
  - reflexivity.
  - exists w'. split; [exact Hrun | now rewrite Hfiles].
Defined.

(** *** INSERT *)

Lemma insert_row_operator list tableStructure : forall row w w' made,
  Exists (fun tok => Token.operator tok <> AssignOperator) list ->
  insert_row list tableStructure row w = Ret (w', made) ->
  made = None.
Proof.
  induction list as [|tok next IH]; intros row w w' made Hex H.
  - inversion Hex.
  - cbn in H. unfold SQLcheckOperator in H.
    case_bool_decide as Hop; cbn in H; [| now inversion H].
    apply Exists_cons in Hex as [Hhere | Hlater]; [contradiction |].
    destruct (SQLisValidRow _ _ _ _) as [[w2 valid]|]; [| discriminate].
    cbn in H. destruct (valid =? 0); [now inversion H |].
    destruct (slot _ _ _) as [type|]; [| discriminate]. cbn in H.
    destruct (SQLvalueFromStringAndType _ _) as [value|]; [| discriminate].
    cbn in H.
    destruct (SQLParser_FindColumn _ _) as [position|]; [| discriminate].
    cbn in H.
    destruct (store _ _ _ _) as [columns|]; [| discriminate]. cbn in H.
    exact (IH _ _ _ _ Hlater H).
Qed.

Lemma slot_defined {A} (l : list A) d i x : slot l d i = Ret x -> 0 <= i < 128.
Proof.
  unfold slot. destruct ((0 <=? i) && (i <? 128)) eqn:H; [lia | discriminate].
Qed.

Lemma to_size_t_small z : 0 <= z < 129 -> to_size_t z = z.
Proof. intros H. unfold to_size_t, SIZE_BITS. apply Z.mod_small. lia. Qed.

Lemma insert_row_too_many list tableStructure : forall row w w' made,
  0 <= Row.columnCount row <= TableStructureInfo.count tableStructure + 1 ->
  Z.of_nat (length list) + Row.columnCount row
  > TableStructureInfo.count tableStructure + 1 ->
  insert_row list tableStructure row w = Ret (w', made) ->
  made = None.
Proof.
  induction list as [|tok next IH]; intros row w w' made Hk Hlen H.
  - cbn in Hlen. lia.
  - cbn in H. unfold SQLcheckOperator in H.
    case_bool_decide as Hop; cbn in H; [| now inversion H].
    unfold SQLisValidRow in H.
    destruct (Row.columnCount row >? TableStructureInfo.count tableStructure)
      eqn:Hgt; cbn in H; [now inversion H |].
    destruct (SQLParser_FindColumn _ _) as [position|]; [| discriminate].
    cbn in H. destruct (position =? -1); cbn in H; [now inversion H |].
    destruct (slot _ _ _) as [type|] eqn:Hslot; [| discriminate]. cbn in H.
    apply slot_defined in Hslot.
    destruct (SQLvalueFromStringAndType _ _) as [value|]; [| discriminate].
    cbn in H.
    destruct (store _ _ _ _) as [columns|]; [| discriminate]. cbn in H.
    apply IH in H; [exact H | |]; cbn; rewrite to_size_t_small by lia;
      cbn [length] in Hlen; lia.
Qed.

(** X15.  INSERT appends nothing, and changes no file, when one of its tokens
    has an operator other than the assignment, or names a column that the
    schema does not have, or when there are more than [count + 1] tokens
    behind the command. *)
Theorem insert_rejections command next tableStructure w w' :
  Exists (fun tok => Token.operator tok <> AssignOperator) next
  \/ Exists (fun tok => SQLParser_FindColumn tableStructure (Token.keyword tok)
                        = Ret (-1)) next
  \/ Z.of_nat (length next) > TableStructureInfo.count tableStructure + 1 ->
  0 <= TableStructureInfo.count tableStructure ->
  SQLinsert (command :: next) tableStructure w = Ret w' ->
  World.files w' = World.files w.
Proof.
  intros Hcase Hcount. unfold SQLinsert.
  destruct (insert_row next tableStructure _ w) as [[w1 made]|] eqn:Hrow;
    [| discriminate].
  pose proof (insert_row_only_printed _ _ _ _ _ _ Hrow) as (Hf & _).
  assert (made = None) as ->.
  { destruct Hcase as [Hop | [Hcol | Hlen]].
    - exact (insert_row_operator _ _ _ _ _ _ Hop Hrow).
    - exact (proj1 (insert_row_unknown_column _ _ _ _ _ _ Hcol Hrow)).
    - apply (insert_row_too_many _ _ _ _ _ _) in Hrow; [exact Hrow | |];
        cbn; lia. }
  cbn. now intros [= <-].
Qed.

Lemma insert_rejections_witness :
  SQLinsert [token "INSERT_INTO" AssignOperator "people";
             token "age" EqualOperator "30"] people (with_people None ∅)
  = Ret (World.printf ("invalid operator for expression." +:+ newline)
           (with_people None ∅))
  /\ World.files (World.printf ("invalid operator for expression." +:+ newline)
                    (with_people None ∅))
     = World.files (with_people None ∅).
Proof.
  split; [reflexivity |].
  apply (insert_rejections (token "INSERT_INTO" AssignOperator "people")
           [token "age" EqualOperator "30"] people (with_people None ∅)).
  - left. constructor. discriminate.
  - cbn. lia.
  - reflexivity.
Defined.

Lemma store_at_end {A} (l : list A) d x :
  (length l < 128)%nat ->
  store l d (Z.of_nat (length l)) x = Ret (l ++ [x])%list.
Proof.
  intros Hlen. unfold store.
  replace ((0 <=? Z.of_nat (length l)) && (Z.of_nat (length l) <? 128))
    with true by lia.
  rewrite Nat2Z.id. f_equal. clear Hlen.
  induction l as [|y l IH]; [reflexivity |]. cbn. now rewrite IH.
Qed.

Lemma insert_row_columns list tableStructure : forall row w w' row',
  Row.columnCount row = Z.of_nat (length (Row.columns row)) ->
  insert_row list tableStructure row w = Ret (w', Some row') ->
  Row.columnCount row' = Z.of_nat (length (Row.columns row'))
  /\ exists added,
      Row.columns row' = (Row.columns row ++ added)%list
      /\ Forall2
           (fun tok column =>
              SQLvalueFromStringAndType (Token.value tok) (Column.type column)
              = Ret (Column.value column)
              /\ SQLParser_FindColumn tableStructure (Token.keyword tok)
                 = Ret (Column.position column))
           list added
      /\ forall i column,
           added !! i = Some column ->
           slot (TableStructureInfo.columnTypes tableStructure) FieldType.Integer
             (Row.columnCount row + Z.of_nat i) = Ret (Column.type column).
Proof.
  induction list as [|tok next IH]; intros row w w' row' Hk H; cbn in H.
  - inversion H; subst. split; [exact Hk |]. exists [].
    rewrite app_nil_r. repeat split; [constructor |]. intros i c Hi. discriminate.
  - unfold SQLcheckOperator in H. case_bool_decide; cbn in H; [| discriminate].
    destruct (SQLisValidRow _ _ _ _) as [[w2 valid]|]; [| discriminate].
    cbn in H. destruct (valid =? 0); [discriminate |].
    destruct (slot _ _ _) as [type|] eqn:Hslot; [| discriminate]. cbn in H.
    pose proof (slot_defined _ _ _ _ Hslot) as Hrange.
    destruct (SQLvalueFromStringAndType _ _) as [value|] eqn:Hvalue;
      [| discriminate].
    cbn in H.
    destruct (SQLParser_FindColumn _ _) as [position|] eqn:Hpos; [| discriminate].
    cbn in H. rewrite Hk in H.
    rewrite store_at_end in H by lia. cbn in H.
    apply IH in H as [Hk' [added [Hcols [Hall Htypes]]]];
      [| cbn; rewrite length_app; cbn; rewrite to_size_t_small by lia; lia].
    split; [exact Hk' |]. cbn in Hcols.
    eexists (_ :: added). rewrite Hcols, <- app_assoc. split; [reflexivity |].
    split; [constructor; [split; eassumption | exact Hall] |].
    intros [|i] column Hi; cbn in Hi.
    + inversion Hi; subst. cbn. rewrite Z.add_0_r. exact Hslot.
    + specialize (Htypes i column Hi). cbn in Htypes.
      rewrite to_size_t_small in Htypes by lia.
      now replace (Row.columnCount row + Z.of_nat (S i))
        with (Z.of_nat (length (Row.columns row)) + 1 + Z.of_nat i) by lia.
Qed.

(** X16.  INSERT fills the row in the order of its assignments: the value of
    the assignment number [i] becomes column [i] of the row, converted by
    the type of column [i] of the schema, whatever column the assignment
    names (that column is only noted as the position). *)
Theorem insert_stores_by_position next tableStructure w w' row :
  insert_row next tableStructure new_row w = Ret (w', Some row) ->
  Row.columnCount row = Z.of_nat (length next)
  /\ Forall2
       (fun tok column =>
          SQLvalueFromStringAndType (Token.value tok) (Column.type column)
          = Ret (Column.value column)
          /\ SQLParser_FindColumn tableStructure (Token.keyword tok)
             = Ret (Column.position column))
       next (Row.columns row)
  /\ forall i column,
       Row.columns row !! i = Some column ->
       slot (TableStructureInfo.columnTypes tableStructure) FieldType.Integer
         (Z.of_nat i) = Ret (Column.type column).
Proof.
  intros H. apply insert_row_columns in H as [Hk [added [Hcols [Hall Htypes]]]];
    [| reflexivity].
  cbn in Hcols. rewrite Hcols in *. split; [| split; [exact Hall | exact Htypes]].
  rewrite Hk. f_equal. symmetry. exact (Forall2_length _ _ _ Hall).
Qed.

(** [age:30 name:'Ann'] into [persons]: 30 becomes the name and ['Ann'],
    read as an integer, the age. *)
Lemma insert_stores_by_position_witness :
  exists row,
    insert_row [token "age" AssignOperator "30";
                token "name" AssignOperator "'Ann'"] persons new_row fresh
    = Ret (fresh, Some row)
    /\ Row.columnCount row = 2
    /\ SQLwriteRowToFile row = Ret ("0;'30';0;" +:+ newline).
Proof.
  eexists. split; [vm_compute; reflexivity |].
  split; [| vm_compute; reflexivity].
  eapply (insert_stores_by_position
            [token "age" AssignOperator "30";
             token "name" AssignOperator "'Ann'"] persons fresh fresh).
  vm_compute. reflexivity.
Defined.

(** ** Catalog *)

Lemma substring_all s n :
  (String.length s <= n)%nat -> substring 0 n s = s.
Proof.
  revert n. induction s as [|c s IH]; intros [|n] H; cbn in *;
    try reflexivity; try lia.
  now rewrite IH by lia.
Qed.

Lemma create_columns_spec current : forall info info',
  TableStructureInfo.count info
  = Z.of_nat (length (TableStructureInfo.columns info)) ->
  length (TableStructureInfo.columnTypes info)
  = length (TableStructureInfo.columns info) ->
  create_columns current info = Ret (Some info') ->
  info' = {| TableStructureInfo.count :=
               TableStructureInfo.count info + Z.of_nat (length current);
             TableStructureInfo.columns :=
               (TableStructureInfo.columns info ++ map Token.keyword current)%list;
             TableStructureInfo.columnTypes :=
               (TableStructureInfo.columnTypes info
                  ++ map (fun tok => SQLParser_GetFieldType (Token.value tok))
                       current)%list;
             TableStructureInfo.name := TableStructureInfo.name info |}.
Proof.
  induction current as [|tok next IH]; intros info info' Hcount Htypes H;
    cbn in H.
  - inversion H; subst. destruct info'; cbn. rewrite Z.add_0_r, !app_nil_r.
    reflexivity.
  - destruct (_ >? 128 * 128 - 1); [discriminate |].
    destruct (_ >? 127); [discriminate |].
    destruct (store (TableStructureInfo.columns info) _ _ _) as [columns|] eqn:Hc;
      [| discriminate].
    cbn in H.
    destruct (store (TableStructureInfo.columnTypes info) _ _ _)
      as [columnTypes|] eqn:Ht; [| discriminate].
    cbn in H.
    destruct (_ >? 128 * 4); [discriminate |].
    assert (Hrange : (length (TableStructureInfo.columns info) < 128)%nat).
    { unfold store in Hc. rewrite Hcount in Hc.
      destruct ((0 <=? _) && (_ <? 128)) eqn:Hr; [lia | discriminate]. }
    rewrite Hcount, store_at_end in Hc by assumption.
    rewrite Hcount, <- Htypes, store_at_end in Ht by lia.
    inversion Hc; inversion Ht; subst; clear Hc Ht.
    apply IH in H; cbn.
    + rewrite H. cbn. rewrite to_size_t_small by lia.
      rewrite <- !app_assoc. cbn. f_equal. lia.
    + rewrite to_size_t_small by lia. rewrite length_app. cbn. lia.
    + rewrite !length_app. cbn. lia.
Qed.

Lemma openable_with_catalog path catalog w :
  World.openable path (World.with_catalog catalog w) = World.openable path w.
Proof. reflexivity. Qed.

(** X17.  When CREATE succeeds for a table whose name is not longer than the
    keyword of its first token, and no record bears that name yet, the
    table search finds under that name a schema with the columns of the
    statement: their names, their types as [SQLParser_GetFieldType] reads
    them, in their order. *)
Theorem create_then_find tok next w w' :
  SQLParser_CreateTable (tok :: next) w = Ret (w', 0) ->
  (String.length (Token.value tok) <= String.length (Token.keyword tok))%nat ->
  Forall (fun r => TableStructureInfo.name r <> Token.value tok)
    (default [] (World.catalog w)) ->
  SQLParser_FindTable (Token.value tok) w'
  = {| TableStructureInfo.count := Z.of_nat (length next);
       TableStructureInfo.columns := map Token.keyword next;
       TableStructureInfo.columnTypes :=
         map (fun tok => SQLParser_GetFieldType (Token.value tok)) next;
       TableStructureInfo.name := Token.value tok |}.
Proof.
  unfold SQLParser_CreateTable. intros H Hlen Hnew.
  destruct (World.openable catalog_path w) eqn:Hopen; [| discriminate].
  destruct (_ >? 128 - 1); [discriminate |].
  unfold copy_name in H.
  destruct (_ <=? _)%nat; [| discriminate]. cbn in H.
  rewrite substring_all in H by assumption.
  destruct (create_columns next _) as [[info|]|] eqn:Hc; cbn in H;
    [| discriminate | discriminate].
  apply create_columns_spec in Hc; [| reflexivity | reflexivity].
  cbn in Hc. inversion H; subst w'; clear H.
  unfold SQLParser_FindTable. rewrite openable_with_catalog, Hopen. cbn.
  rewrite find_record_first; [exact Hc | now rewrite Hc | exact Hnew].
Qed.

Lemma create_then_find_witness :
  SQLParser_FindTable "people"
    (World.with_catalog (Some [persons]) fresh) = persons.
Proof.
  apply (create_then_find
           (token "DATASET" AssignOperator "people")
           [token "name" AssignOperator "STRING";
            token "age" AssignOperator "INTEGER"] fresh).
  - vm_compute. reflexivity.
  - cbn. lia.
  - constructor.
Defined.

(** ** Decimal numerals *)

Lemma uint_value_pos d : forall acc,
  uint_value (Zpos acc) d = Zpos (Pos.of_uint_acc d acc).
Proof.
  induction d; intros acc; cbn [uint_value Pos.of_uint_acc]; trivial;
    rewrite <- IHd; f_equal; lia.
Qed.

Lemma uint_value_zero d : uint_value 0 d = Z.of_N (Pos.of_uint d).
Proof.
  induction d; cbn [uint_value Pos.of_uint]; trivial;
    try (change (10 * 0 + ?k) with k; now rewrite uint_value_pos).
Qed.

Lemma digits_numeral d : forall acc n,
  digits acc n (NilEmpty.string_of_uint d)
  = (uint_value acc d, n + Z.of_nat (Decimal.nb_digits d), "").
Proof.
  induction d; intros acc n; cbn [NilEmpty.string_of_uint digits uint_value Decimal.nb_digits].
  1: now rewrite Z.add_0_r.
  all: match goal with
       | |- context [digit ?c] =>
           let v := eval vm_compute in (digit c) in change (digit c) with v
       end; cbv iota; rewrite IHd, Nat2Z.inj_succ;
    f_equal; f_equal; try lia; f_equal; lia.
Qed.

Lemma skip_space_numeral d :
  skip_space (NilEmpty.string_of_uint d) = NilEmpty.string_of_uint d.
Proof. now destruct d. Qed.

Lemma sign_numeral d :
  sign (NilEmpty.string_of_uint d) = (false, NilEmpty.string_of_uint d).
Proof. now destruct d. Qed.

Lemma numeral_of_positive p :
  NilZero.string_of_uint (Pos.to_uint p) = NilEmpty.string_of_uint (Pos.to_uint p).
Proof.
  pose proof (Unsigned.to_uint_nonnil p) as H.
  now destruct (Pos.to_uint p).
Qed.

Lemma fmt_d_positive p :
  fmt_d (Zpos p) = NilEmpty.string_of_uint (Pos.to_uint p).
Proof. unfold fmt_d. cbn. apply numeral_of_positive. Qed.

Lemma fmt_d_negative p :
  fmt_d (Zneg p) = String "-" (NilEmpty.string_of_uint (Pos.to_uint p)).
Proof. unfold fmt_d. cbn. now rewrite numeral_of_positive. Qed.

Lemma digits_of_positive p :
  digits 0 0 (NilEmpty.string_of_uint (Pos.to_uint p))
  = (Zpos p, Z.of_nat (Decimal.nb_digits (Pos.to_uint p)), "").
Proof.
  rewrite digits_numeral, uint_value_zero, Unsigned.of_to. reflexivity.
Qed.

Lemma strtol_fmt_d z : LONG_MIN <= z <= LONG_MAX -> strtol (fmt_d z) = z.
Proof.
  unfold LONG_MIN, LONG_MAX. intros Hz. destruct z as [|p|p].
  - reflexivity.
  - rewrite fmt_d_positive. unfold strtol.
    rewrite skip_space_numeral, sign_numeral, digits_of_positive.
    unfold LONG_MIN, LONG_MAX. lia.
  - rewrite fmt_d_negative. unfold strtol.
    change (skip_space (String "-" ?s)) with (String "-" s).
    change (sign (String "-" ?s)) with (true, s).
    cbv beta iota. rewrite digits_of_positive.
    unfold LONG_MIN, LONG_MAX. lia.
Qed.

Lemma to_int_id z : INT_MIN <= z <= INT_MAX -> to_int z = z.
Proof.
  unfold INT_MIN, INT_MAX, to_int, INT_BITS. intros H.
  rewrite Z.mod_small by lia. lia.
Qed.

Lemma free_of_append n a b :
  free_of n (a +:+ b) = free_of n a && free_of n b.
Proof.
  induction a as [|c a IH]; [reflexivity |].
  rewrite append_String. cbn [free_of]. rewrite IH. apply andb_assoc.
Qed.

Lemma free_of_numeral n d :
  n < 45 \/ 57 < n -> free_of n (NilEmpty.string_of_uint d) = true.
Proof.
  intros Hn.
  induction d; cbn [NilEmpty.string_of_uint free_of]; trivial; rewrite IHd;
    match goal with
    | |- context [code ?c] =>
        let v := eval vm_compute in (code c) in change (code c) with v
    end; lia.
Qed.

Lemma free_of_fmt_d n z : n < 45 \/ 57 < n -> free_of n (fmt_d z) = true.
Proof.
  intros Hn. destruct z as [|p|p].
  - change (fmt_d 0) with "0". cbn [free_of]. change (code "0") with 48. lia.
  - rewrite fmt_d_positive. now apply free_of_numeral.
  - rewrite fmt_d_negative. cbn [free_of]. rewrite free_of_numeral by assumption.
    change (code "-") with 45. lia.
Qed.

Lemma fmt_d_not_empty z : fmt_d z <> "".
Proof.
  destruct z as [|p|p].
  - discriminate.
  - rewrite fmt_d_positive. pose proof (Unsigned.to_uint_nonnil p) as H.
    now destruct (Pos.to_uint p).
  - now rewrite fmt_d_negative.
Qed.

Lemma cstr_free_of s : free_of 0 s = true -> cstr s = s.
Proof.
  induction s as [|c s IH]; [reflexivity |]. cbn [free_of cstr]. intros H.
  apply andb_prop in H as [Hc Hs].
  destruct (code c =? 0); [discriminate |]. now rewrite IH.
Qed.

(** ** Records of a table file *)

(** *** Lines and tokens *)

Lemma fgets_line a : forall k rest,
  free_of 10 a = true -> (String.length a < k)%nat ->
  fgets k (a +:+ newline +:+ rest) = (a +:+ newline, rest).
Proof.
  induction a as [|c a IH]; intros k rest Hfree Hk.
  - destruct k as [|k]; [cbn in Hk; lia |]. reflexivity.
  - destruct k as [|k]; [cbn in Hk; lia |].
    rewrite !append_String. cbn [fgets]. cbn [free_of] in Hfree.
    apply andb_prop in Hfree as [Hc Ha].
    unfold ch. change (code "010") with 10.
    destruct (code c =? 10); [discriminate |].
    rewrite IH; [reflexivity | exact Ha | cbn in Hk; lia].
Qed.

Lemma strtok_token body : forall current more,
  free_of 59 body = true -> current +:+ body <> "" ->
  strtok current (body +:+ ";" +:+ more)
  = (current +:+ body) :: strtok "" more.
Proof.
  induction body as [|c body IH]; intros current more Hfree Hne.
  - rewrite append_empty_r in *. cbn.
    destruct current; [congruence | reflexivity].
  - rewrite append_String. cbn [strtok]. cbn [free_of] in Hfree.
    apply andb_prop in Hfree as [Hc Hbody].
    unfold ch. change (code ";") with 59.
    destruct (code c =? 59); [discriminate |].
    rewrite IH; [| exact Hbody | rewrite append_push; exact Hne].
    now rewrite append_push.
Qed.

(** *** Fields *)

Lemma strip_last_quote_append s : strip_last_quote (s +:+ "'") = s.
Proof.
  induction s as [|c s IH]; [reflexivity |].
  rewrite append_String. cbn [strip_last_quote]. rewrite IH.
  destruct s; reflexivity.
Qed.

Lemma storable_field type column :
  storable type column = true ->
  Column.type column = type
  /\ file_field column = Ret (field_body column +:+ ";")
  /\ field_body column <> ""
  /\ clean (field_body column) = true
  /\ SQLvalueFromStringAndType (field_body column) type
     = Ret (Column.value column).
Proof.
  unfold storable, file_field, field_body, SQLvalueFromStringAndType.
  destruct column as [value ctype position]. cbn.
  destruct type, ctype, value as [i|x|s|b|]; try discriminate; intros H.
  - apply andb_prop in H as [Hlo Hhi]. unfold INT_MIN, INT_MAX in *.
    repeat split.
    + apply fmt_d_not_empty.
    + unfold clean. rewrite !free_of_fmt_d by lia. reflexivity.
    + rewrite strtol_fmt_d by (unfold LONG_MIN, LONG_MAX; lia).
      rewrite to_int_id by (unfold INT_MIN, INT_MAX; lia). reflexivity.
  - repeat split.
    + now rewrite !append_assoc.
    + discriminate.
    + unfold clean in *. rewrite !free_of_append.
      apply andb_prop in H as [H H59]. apply andb_prop in H as [H0 H10].
      rewrite H0, H10, H59. reflexivity.
    + change ("'" +:+ s +:+ "'") with (String "'" (s +:+ "'")).
      cbv beta iota.
      replace (code "'"%char =? 39) with true by reflexivity.
      rewrite strip_last_quote_append.
      destruct s; reflexivity.
  - repeat split; destruct b; try reflexivity; cbn; discriminate.
Qed.

(** *** Records *)

Lemma fields_storable types l : forall pre row,
  Row.columns row = (pre ++ l)%list ->
  (length pre + length l <= 128)%nat ->
  storable_from types (length pre) l = true ->
  fields file_field (length l) (Z.of_nat (length pre)) row
  = Ret (record_fields l).
Proof.
  induction l as [|column l IH]; intros pre row Hrow Hlen Hall; [reflexivity |].
  cbn [storable_from] in Hall. apply andb_prop in Hall as [Hcolumn Hall].
  cbn [length] in Hlen.
  cbn [fields length record_fields]. rewrite slot_in_range by lia.
  rewrite Nat2Z.id, Hrow, nth_middle, bind_Ret.
  destruct (storable_field _ _ Hcolumn) as [_ [-> _]]. rewrite bind_Ret.
  replace (Z.of_nat (length pre) + 1) with (Z.of_nat (length (pre ++ [column])))
    by (rewrite length_app; cbn; lia).
  rewrite (IH (pre ++ [column])%list).
  - rewrite bind_Ret. now rewrite append_assoc.
  - now rewrite <- app_assoc.
  - rewrite length_app. cbn. lia.
  - rewrite length_app. cbn [length].
    now replace (length pre + 1)%nat with (S (length pre)) by lia.
Qed.

Lemma record_fields_free n l types i :
  n = 0 \/ n = 10 ->
  storable_from types i l = true -> free_of n (record_fields l) = true.
Proof.
  intros Hn. revert i. induction l as [|column l IH]; intros i Hall; [reflexivity |].
  cbn [storable_from] in Hall. apply andb_prop in Hall as [Hcolumn Hall].
  cbn [record_fields]. rewrite !free_of_append, (IH _ Hall).
  destruct (storable_field _ _ Hcolumn) as [_ [_ [_ [Hclean _]]]].
  unfold clean in Hclean.
  apply andb_prop in Hclean as [Hclean _]. apply andb_prop in Hclean as [H0 H10].
  destruct Hn as [-> | ->]; [rewrite H0 | rewrite H10]; reflexivity.
Qed.

Lemma strtok_record types l : forall i tail,
  storable_from types i l = true ->
  strtok "" (record_fields l +:+ tail)
  = (map field_body l ++ strtok "" tail)%list.
Proof.
  induction l as [|column l IH]; intros i tail Hall; [reflexivity |].
  cbn [storable_from] in Hall. apply andb_prop in Hall as [Hcolumn Hall].
  destruct (storable_field _ _ Hcolumn) as [_ [_ [Hne [Hclean _]]]].
  unfold clean in Hclean. apply andb_prop in Hclean as [_ H59].
  cbn [record_fields map]. rewrite !append_assoc.
  rewrite strtok_token by assumption.
  cbn [app]. f_equal. now apply (IH (S i)).
Qed.

Lemma convert_newline type :
  exists value, SQLvalueFromStringAndType newline type = Ret value.
Proof. destruct type; eexists; reflexivity. Qed.

Lemma read_columns_record tableStructure l : forall pre index,
  (length pre + length l < 128)%nat ->
  storable_from (TableStructureInfo.columnTypes tableStructure) (length pre) l
  = true ->
  exists l' last,
    read_columns tableStructure (map field_body l ++ [newline])
      (Z.of_nat (length pre))
      {| Row.index := index; Row.columns := pre;
         Row.columnCount := Z.of_nat (length pre) |}
    = Ret {| Row.index := index; Row.columns := pre ++ l' ++ [last];
             Row.columnCount := Z.of_nat (length pre + length l + 1) |}
    /\ Forall2 (fun column column' =>
                  Column.value column' = Column.value column
                  /\ Column.type column' = Column.type column) l l'.
Proof.
  induction l as [|column l IH]; intros pre index Hlen Hall.
  - cbn [map app read_columns length] in *.
    replace (Z.of_nat (length pre) >? -1) with true by lia.
    rewrite slot_in_range by lia.
    destruct (convert_newline
                (nth (Z.to_nat (Z.of_nat (length pre)))
                   (TableStructureInfo.columnTypes tableStructure)
                   FieldType.Integer)) as [value Hvalue].
    rewrite bind_Ret, Hvalue, bind_Ret. cbn [Row.columns Row.index Row.columnCount].
    rewrite store_at_end by lia. rewrite bind_Ret.
    exists [], {| Column.value := value;
                  Column.type := nth (Z.to_nat (Z.of_nat (length pre)))
                                   (TableStructureInfo.columnTypes tableStructure)
                                   FieldType.Integer;
                  Column.position := Z.of_nat (length pre) |}.
    split; [| constructor].
    rewrite to_size_t_small by lia. do 2 f_equal. lia.
  - cbn [storable_from] in Hall. apply andb_prop in Hall as [Hcolumn Hall].
    destruct (storable_field _ _ Hcolumn) as [Htype [_ [_ [_ Hvalue]]]].
    cbn [map app read_columns length] in *.
    replace (Z.of_nat (length pre) >? -1) with true by lia.
    rewrite slot_in_range by lia. rewrite Nat2Z.id.
    rewrite bind_Ret, Hvalue, bind_Ret. cbn [Row.columns Row.index Row.columnCount].
    rewrite store_at_end by lia. rewrite bind_Ret.
    rewrite to_size_t_small by lia.
    set (column' := {| Column.value := Column.value column;
                       Column.type := _; Column.position := _ |}).
    destruct (IH (pre ++ [column'])%list index) as [l' [last [Hread Hsame]]].
    + rewrite length_app. cbn. lia.
    + rewrite length_app. cbn [length].
      now replace (length pre + 1)%nat with (S (length pre)) by lia.
    + exists (column' :: l'), last. split.
      * replace (Z.of_nat (length pre) + 1)
          with (Z.of_nat (length (pre ++ [column']))) by (rewrite length_app; cbn; lia).
        rewrite Hread. rewrite <- app_assoc. cbn [app]. do 2 f_equal.
        rewrite length_app. cbn. lia.
      * constructor; [| exact Hsame]. split; [reflexivity |]. now rewrite Htype.
Qed.

Lemma length_append (a b : string) :
  String.length (a +:+ b) = (String.length a + String.length b)%nat.
Proof.
  induction a as [|c a IH]; [reflexivity |].
  rewrite append_String. cbn [String.length]. now rewrite IH.
Qed.

Lemma SQLreadRow_line a rest tableStructure :
  free_of 0 a = true -> free_of 10 a = true ->
  Z.of_nat (String.length a) < 1 + 128 * TableStructureInfo.count tableStructure ->
  SQLreadRow (a +:+ newline +:+ rest) tableStructure
  = current ← read_columns tableStructure (strtok "" (a +:+ newline)) (-1)
                {| Row.index := 0; Row.columns := []; Row.columnCount := 0 |};
    Ret (Some ({| Row.index := Row.index current;
                  Row.columns := Row.columns current;
                  Row.columnCount := to_size_t (Row.columnCount current - 1) |},
               rest)).
Proof.
  intros H0 H10 Hroom. unfold SQLreadRow.
  destruct (a +:+ newline +:+ rest) as [|c file] eqn:E;
    [destruct a; discriminate |].
  rewrite <- E. rewrite fgets_line.
  - rewrite cstr_free_of; [reflexivity |].
    rewrite free_of_append, H0. reflexivity.
  - exact H10.
  - rewrite !length_append. cbn [String.length newline]. lia.
Qed.

Lemma record_read_back tableStructure row rest :
  storable_from (TableStructureInfo.columnTypes tableStructure) 0
    (Row.columns row) = true ->
  Row.columnCount row = Z.of_nat (length (Row.columns row)) ->
  (length (Row.columns row) < 128)%nat ->
  INT_MIN <= Row.index row <= INT_MAX ->
  exists text,
    SQLwriteRowToFile row = Ret text
    /\ (Z.of_nat (String.length text)
        <= 1 + 128 * TableStructureInfo.count tableStructure ->
        exists row',
          SQLreadRow (text +:+ rest) tableStructure = Ret (Some (row', rest))
          /\ Row.index row' = Row.index row
          /\ Row.columnCount row' = Row.columnCount row
          /\ Forall2 (fun column column' =>
                        Column.value column' = Column.value column
                        /\ Column.type column' = Column.type column)
               (Row.columns row)
               (firstn (length (Row.columns row)) (Row.columns row'))).
Proof.
  intros Hall Hcount Hlen Hindex.
  set (types := TableStructureInfo.columnTypes tableStructure) in *.
  set (body := fmt_d (Row.index row) +:+ ";" +:+ record_fields (Row.columns row)).
  exists (body +:+ newline). split.
  - unfold SQLwriteRowToFile, turns. rewrite Hcount.
    replace (Z.min (Z.of_nat (length (Row.columns row))) 129)
      with (Z.of_nat (length (Row.columns row))) by lia.
    rewrite Nat2Z.id.
    assert (Hfields := fields_storable types (Row.columns row) [] row eq_refl).
    change (Z.of_nat (@length Column.t [])) with 0 in Hfields.
    rewrite Hfields; [| cbn [length]; lia | exact Hall].
    rewrite bind_Ret. unfold body. now rewrite !append_assoc.
  - intros Hroom. rewrite append_assoc.
    rewrite length_append in Hroom. cbn [String.length newline] in Hroom.
    rewrite SQLreadRow_line; [| | | lia].
    + unfold body at 1. rewrite !append_assoc.
      rewrite (strtok_token (fmt_d (Row.index row)) "");
        [| apply free_of_fmt_d; lia | apply fmt_d_not_empty].
      rewrite (strtok_record types _ 0) by exact Hall.
      change (strtok "" newline) with [newline].
      cbn [read_columns]. change (-1 >? -1) with false. cbv iota.
      cbn [Row.index Row.columns Row.columnCount]. rewrite append_empty_l.
      rewrite strtol_fmt_d by (unfold LONG_MIN, LONG_MAX, INT_MIN, INT_MAX in *; lia).
      rewrite to_int_id by exact Hindex.
      destruct (read_columns_record tableStructure (Row.columns row) []
                  (Row.index row)) as [l' [last [Hread Hsame]]];
        [cbn [length]; lia | exact Hall |].
      change (Z.of_nat (@length Column.t [])) with 0 in Hread.
      change (-1 + 1) with 0.
      rewrite Hread, bind_Ret. eexists. split; [reflexivity |].
      cbn [Row.index Row.columns Row.columnCount app length].
      split; [reflexivity |]. split.
      * rewrite to_size_t_small by lia. lia.
      * rewrite (Forall2_length _ _ _ Hsame).
        rewrite firstn_app, firstn_all, Nat.sub_diag. cbn [firstn].
        now rewrite app_nil_r.
    + unfold body. rewrite !free_of_append, free_of_fmt_d by lia.
      now rewrite (record_fields_free 0 _ types 0) by auto.
    + unfold body. rewrite !free_of_append, free_of_fmt_d by lia.
      now rewrite (record_fields_free 10 _ types 0) by auto.
Qed.

(** X18.  A record that is written is read back as it was.  For a row whose
    columns are tagged by the types of the schema, place by place, with
    Integer, Boolean and String columns only, integers that fit an [int]
    and strings without NUL, newline and semicolon, the record that
    [SQLwriteRowToFile] makes is defined, and when it fits the line buffer
    of the schema [SQLreadRow] reads from it a row with the same index, the
    same number of columns and, place by place, the same values and tags,
    and leaves what follows the record in the file. *)
Theorem record_round_trip tableStructure row rest :
  storable_from (TableStructureInfo.columnTypes tableStructure) 0
    (Row.columns row) = true ->
  Row.columnCount row = Z.of_nat (length (Row.columns row)) ->
  (length (Row.columns row) < 128)%nat ->
  INT_MIN <= Row.index row <= INT_MAX ->
  exists text,
    SQLwriteRowToFile row = Ret text
    /\ (Z.of_nat (String.length text)
        <= 1 + 128 * TableStructureInfo.count tableStructure ->
        exists row',
          SQLreadRow (text +:+ rest) tableStructure = Ret (Some (row', rest))
          /\ Row.index row' = Row.index row
          /\ Row.columnCount row' = Row.columnCount row
          /\ Forall2 (fun column column' =>
                        Column.value column' = Column.value column
                        /\ Column.type column' = Column.type column)
               (Row.columns row)
               (firstn (length (Row.columns row)) (Row.columns row'))).
Proof. exact (record_read_back tableStructure row rest). Qed.

Lemma record_round_trip_witness :
  exists text,
    SQLwriteRowToFile ann = Ret text
    /\ (Z.of_nat (String.length text) <= 1 + 128 * 2 ->
        exists row',
          SQLreadRow (text +:+ "1;'Bob';41;") persons
          = Ret (Some (row', "1;'Bob';41;"))
          /\ Row.index row' = 0
          /\ Row.columnCount row' = 2
          /\ Forall2 (fun column column' =>
                        Column.value column' = Column.value column
                        /\ Column.type column' = Column.type column)
               (Row.columns ann) (firstn 2 (Row.columns row'))).
Proof.
  apply (record_round_trip persons ann "1;'Bob';41;");
    [reflexivity | reflexivity | cbn; lia | unfold INT_MIN, INT_MAX; cbn; lia].
Defined.

(** *** Reading *)

Lemma converted_is_tagged string type value position :
  SQLvalueFromStringAndType string type = Ret value ->
  tagged {| Column.value := value; Column.type := type;
            Column.position := position |} = true.
Proof.
  unfold SQLvalueFromStringAndType, tagged. cbn.
  destruct type; try (now intros [= <-]).
  destruct (match string with "" => _ | String _ _ => _ end);
    [discriminate | now intros [= <-]].
Qed.

Lemma store_defined {A} (l : list A) d i x l' :
  store l d i x = Ret l' -> 0 <= i < 128.
Proof.
  unfold store. destruct ((0 <=? i) && (i <? 128)) eqn:H; [lia | discriminate].
Qed.

Lemma read_columns_spec tableStructure tokens : forall pre index row,
  read_columns tableStructure tokens (Z.of_nat (length pre))
    {| Row.index := index; Row.columns := pre;
       Row.columnCount := Z.of_nat (length pre) |} = Ret row ->
  Row.index row = index
  /\ Row.columnCount row = Z.of_nat (length (Row.columns row))
  /\ (length (Row.columns row) = length pre + length tokens)%nat
  /\ (tokens = [] \/ length (Row.columns row) <= 128)%nat
  /\ exists added,
       Row.columns row = (pre ++ added)%list
       /\ forall i column,
            added !! i = Some column ->
            Column.position column = Z.of_nat (length pre + i)
            /\ Column.type column
               = nth (length pre + i)
                   (TableStructureInfo.columnTypes tableStructure)
                   FieldType.Integer
            /\ tagged column = true.
Proof.
  induction tokens as [|token tokens IH]; intros pre index row H.
  - cbn in H. inversion H; subst; clear H. cbn. repeat split; auto; try lia.
    exists []. split; [now rewrite app_nil_r | discriminate].
  - cbn [read_columns] in H.
    destruct (Z.of_nat (length pre) >? -1) eqn:Hgt; [clear Hgt | lia].
    destruct (slot _ _ _) as [type|] eqn:Hslot; [| discriminate].
    pose proof (slot_defined _ _ _ _ Hslot) as Hrange.
    rewrite slot_in_range, Nat2Z.id in Hslot by exact Hrange.
    injection Hslot as Htype.
    rewrite bind_Ret in H.
    destruct (SQLvalueFromStringAndType token type) as [value|] eqn:Hvalue;
      [| discriminate].
    rewrite bind_Ret in H. cbn [Row.columns Row.index Row.columnCount] in H.
    rewrite store_at_end, bind_Ret in H by lia.
    rewrite to_size_t_small in H by lia.
    set (column := {| Column.value := value; Column.type := type;
                      Column.position := Z.of_nat (length pre) |}) in H.
    replace (Z.of_nat (length pre) + 1)
      with (Z.of_nat (length (pre ++ [column]))) in H
      by (rewrite length_app; cbn; lia).
    apply IH in H as [Hindex [Hcount [Hlen [Hmax [added [Hcols Hadded]]]]]].
    rewrite length_app in Hlen, Hadded. cbn [length] in Hlen, Hadded.
    repeat split; auto.
    + cbn [length]. lia.
    + right. destruct Hmax as [-> | Hmax]; [| exact Hmax]. cbn in Hlen. lia.
    + exists (column :: added). split; [now rewrite Hcols, <- app_assoc |].
      intros [|i] c Hc; cbn in Hc.
      * injection Hc as <-. cbn [Column.position Column.type column].
        rewrite Nat.add_0_r. repeat split; [now symmetry |].
        now apply (converted_is_tagged token).
      * replace (length pre + S i)%nat with (length pre + 1 + i)%nat by lia.
        now apply Hadded.
Qed.

Lemma SQLreadRow_spec file tableStructure row rest :
  SQLreadRow file tableStructure = Ret (Some (row, rest)) ->
  (length (Row.columns row) <= 128)%nat
  /\ Row.columnCount row
     = to_size_t (Z.of_nat (length (Row.columns row)) - 1)
  /\ forall i column,
       Row.columns row !! i = Some column ->
       Column.position column = Z.of_nat i
       /\ Column.type column
          = nth i (TableStructureInfo.columnTypes tableStructure)
              FieldType.Integer
       /\ tagged column = true.
Proof.
  unfold SQLreadRow. destruct file as [|c file]; [discriminate |].
  destruct (fgets _ _) as [line rest']. intros H.
  apply bind_inv in H as [current [Hread H]].
  injection H as <- <-. cbn [Row.columns Row.columnCount].
  destruct (strtok "" (cstr line)) as [|token tokens].
  - cbn in Hread. injection Hread as <-. cbn. repeat split; try lia.
    all: discriminate.
  - cbn [read_columns] in Hread. change (-1 >? -1) with false in Hread.
    cbv iota in Hread. cbn [Row.index Row.columns Row.columnCount] in Hread.
    change (read_columns tableStructure tokens
              (Z.of_nat (@length Column.t []))
              {| Row.index := to_int (strtol token); Row.columns := [];
                 Row.columnCount := Z.of_nat (@length Column.t []) |}
            = Ret current) in Hread.
    apply read_columns_spec in Hread
      as [_ [Hcount [Hlen [Hmax [added [Hcols Hadded]]]]]].
    cbn [app length Nat.add] in *. rewrite Hcount.
    split; [| split; [reflexivity |]].
    + destruct Hmax as [-> | Hmax]; [cbn in Hlen; lia | exact Hmax].
    + rewrite Hcols. exact Hadded.
Qed.

(** X19.  Every row that is read follows the schema.  Column [i] of it notes
    [i] as its position and bears the type the schema has at [i], its value
    is the union member of that type, there are at most 128 columns, and
    the column count is one less than the number of columns stored (in
    [size_t], so [2^64 - 1] for a line that has the index only). *)
Theorem rows_read_follow_the_schema file tableStructure row rest :
  SQLreadRow file tableStructure = Ret (Some (row, rest)) ->
  (length (Row.columns row) <= 128)%nat
  /\ Row.columnCount row
     = (Z.of_nat (length (Row.columns row)) - 1) mod 2 ^ 64
  /\ forall i column,
       Row.columns row !! i = Some column ->
       Column.position column = Z.of_nat i
       /\ slot (TableStructureInfo.columnTypes tableStructure)
            FieldType.Integer (Z.of_nat i) = Ret (Column.type column)
       /\ match Column.type column, Column.value column with
          | FieldType.Integer, VInteger _
          | FieldType.Number, VNumber _
          | FieldType.String, VString _
          | FieldType.Boolean, VBoolean _
          | FieldType.Unknown, VIndeterminate => True
          | _, _ => False
          end.
Proof.
  intros H. apply SQLreadRow_spec in H as [Hlen [Hcount Hcolumns]].
  split; [exact Hlen |]. split; [exact Hcount |].
  intros i column Hi.
  destruct (Hcolumns i column Hi) as [Hposition [Htype Htagged]].
  pose proof (lookup_lt_Some _ _ _ Hi) as Hlt.
  split; [exact Hposition |]. split.
  - rewrite slot_in_range, Nat2Z.id by lia. now rewrite Htype.
  - unfold tagged in Htagged.
    destruct (Column.type column), (Column.value column);
      try discriminate; try exact I.
Qed.

Lemma rows_read_follow_the_schema_witness :
  exists row,
    SQLreadRow ("0;'Ann';30;" +:+ newline) persons = Ret (Some (row, ""))
    /\ (length (Row.columns row) <= 128)%nat
    /\ Row.columnCount row = 2.
Proof.
  eexists. split; [vm_compute; reflexivity |].
  split; [| reflexivity].
  eapply (rows_read_follow_the_schema ("0;'Ann';30;" +:+ newline) persons _ "").
  vm_compute. reflexivity.
Defined.

Lemma fields_tagged field :
  (forall column, tagged column = true -> exists text, field column = Ret text) ->
  forall n k row,
    (k + n <= length (Row.columns row))%nat ->
    (length (Row.columns row) <= 128)%nat ->
    (forall j column, Row.columns row !! j = Some column -> tagged column = true) ->
    exists text, fields field n (Z.of_nat k) row = Ret text.
Proof.
  intros Hfield. induction n as [|n IH]; intros k row Hk Hlen Hall.
  - now exists "".
  - cbn [fields]. rewrite slot_in_range, Nat2Z.id by lia.
    destruct (lookup_lt_is_Some_2 (Row.columns row) k) as [column Hcolumn];
      [lia |].
    rewrite (nth_lookup_Some _ _ _ _ Hcolumn), bind_Ret.
    destruct (Hfield column (Hall _ _ Hcolumn)) as [text ->]. rewrite bind_Ret.
    replace (Z.of_nat k + 1) with (Z.of_nat (S k)) by lia.
    destruct (IH (S k) row) as [more ->]; [lia | exact Hlen | exact Hall |].
    rewrite bind_Ret. now eexists.
Qed.

Lemma file_field_tagged column :
  tagged column = true -> exists text, file_field column = Ret text.
Proof.
  unfold tagged, file_field.
  destruct (Column.type column), (Column.value column);
    try discriminate; intros _; now eexists.
Qed.

Lemma stdout_field_tagged column :
  tagged column = true -> exists text, stdout_field column = Ret text.
Proof.
  unfold tagged, stdout_field.
  destruct (Column.type column), (Column.value column);
    try discriminate; intros _; now eexists.
Qed.

(** X20.  A row that is read can be written, to the file and to stdout,
    exactly when its line had a field behind the index: a line that has the
    index only (an empty line, say) gives a row of no column whose count is
    [2^64 - 1], and writing that row runs past the 128 columns of the
    row. *)
Theorem rows_read_are_written file tableStructure row rest :
  SQLreadRow file tableStructure = Ret (Some (row, rest)) ->
  (Row.columns row <> [] ->
   (exists text, SQLwriteRowToFile row = Ret text)
   /\ (exists text, SQLwriteRowToStdout row = Ret text))
  /\ (Row.columns row = [] ->
      SQLwriteRowToFile row = Undef /\ SQLwriteRowToStdout row = Undef).
Proof.
  intros H. apply SQLreadRow_spec in H as [Hlen [Hcount Hcolumns]].
  assert (Hall : forall j column,
             Row.columns row !! j = Some column -> tagged column = true)
    by (intros j column Hj; now apply (Hcolumns j column)).
  unfold SQLwriteRowToFile, SQLwriteRowToStdout, turns. rewrite Hcount.
  split.
  - intros Hne.
    assert (0 < length (Row.columns row))%nat
      by (destruct (Row.columns row); [congruence | cbn; lia]).
    rewrite to_size_t_small by lia.
    replace (Z.min (Z.of_nat (length (Row.columns row)) - 1) 129)
      with (Z.of_nat (length (Row.columns row)) - 1) by lia.
    split.
    + destruct (fields_tagged file_field file_field_tagged
                  (Z.to_nat (Z.of_nat (length (Row.columns row)) - 1)) 0 row)
        as [text Htext]; [lia | exact Hlen | exact Hall |].
      change (Z.of_nat 0) with 0 in Htext. rewrite Htext, bind_Ret. now eexists.
    + destruct (fields_tagged stdout_field stdout_field_tagged
                  (Z.to_nat (Z.of_nat (length (Row.columns row)) - 1)) 0 row)
        as [text Htext]; [lia | exact Hlen | exact Hall |].
      change (Z.of_nat 0) with 0 in Htext. rewrite Htext, bind_Ret. now eexists.
  - destruct row as [index columns columnCount]. cbn [Row.columns].
    intros ->. split; reflexivity.
Qed.

Lemma rows_read_are_written_witness :
  exists row,
    SQLreadRow newline persons = Ret (Some (row, ""))
    /\ SQLwriteRowToFile row = Undef /\ SQLwriteRowToStdout row = Undef.
Proof.
  eexists. split; [vm_compute; reflexivity |].
  eapply (rows_read_are_written newline persons _ "");
    [vm_compute; reflexivity | reflexivity].
Defined.

(** ** UPDATE of a row *)

Ltac undefined H :=
  first [discriminate H | rewrite ?bind_Undef in H; discriminate H
        | cbn in H; discriminate H].

Lemma nth_store_nat {A} (d x : A) n : forall l j,
  nth j (store_nat l d n x) d = if decide (j = n) then x else nth j l d.
Proof.
  induction n as [|n IH]; intros l j.
  - destruct l, j as [|[|j]]; reflexivity.
  - destruct l as [|y l], j as [|j]; cbn [store_nat nth]; try reflexivity.
    + rewrite IH. destruct (decide (j = n)), (decide (S j = S n));
        try reflexivity; try lia. now destruct j.
    + rewrite IH. destruct (decide (j = n)), (decide (S j = S n));
        try reflexivity; lia.
Qed.

Lemma update_row_frame tableStructure list : forall row row',
  update_row tableStructure list row = Ret row' ->
  Row.index row' = Row.index row
  /\ Row.columnCount row' = Row.columnCount row
  /\ forall i,
       Column.type (nth i (Row.columns row') Column.zero)
       = Column.type (nth i (Row.columns row) Column.zero)
       /\ Column.position (nth i (Row.columns row') Column.zero)
          = Column.position (nth i (Row.columns row) Column.zero)
       /\ (unassigned tableStructure i list ->
           Column.value (nth i (Row.columns row') Column.zero)
           = Column.value (nth i (Row.columns row) Column.zero)).
Proof.
  induction list as [|tok next IH]; intros row row' H; cbn [update_row] in H.
  - injection H as <-. repeat split.
  - assert (Hskip : update_row tableStructure next row = Ret row' ->
              Row.index row' = Row.index row
              /\ Row.columnCount row' = Row.columnCount row
              /\ forall i,
                   Column.type (nth i (Row.columns row') Column.zero)
                   = Column.type (nth i (Row.columns row) Column.zero)
                   /\ Column.position (nth i (Row.columns row') Column.zero)
                      = Column.position (nth i (Row.columns row) Column.zero)
                   /\ (unassigned tableStructure i (tok :: next) ->
                       Column.value (nth i (Row.columns row') Column.zero)
                       = Column.value (nth i (Row.columns row) Column.zero))).
    { intros Hnext. apply IH in Hnext as [Hindex [Hcount Hcolumns]].
      repeat split; auto; try apply Hcolumns.
      intros Hun. apply Hcolumns. now inversion Hun. }
    destruct (Token.operator tok) eqn:Hop; try (exact (Hskip H)).
    destruct (SQLParser_FindColumn _ _) as [index|] eqn:Hfind; [| undefined H].
    rewrite bind_Ret in H.
    destruct (index =? -1) eqn:Hindex; [exact (Hskip H) |]. clear Hskip.
    destruct (slot (TableStructureInfo.columnTypes _) _ index) as [type|]
      eqn:Htype; [| undefined H].
    pose proof (slot_defined _ _ _ _ Htype) as Hrange.
    rewrite bind_Ret in H.
    destruct (SQLvalueFromStringAndType _ _) as [value|]; [| undefined H].
    rewrite bind_Ret, slot_in_range, bind_Ret in H by exact Hrange.
    unfold store in H.
    replace ((0 <=? index) && (index <? 128)) with true in H by lia.
    rewrite bind_Ret in H.
    apply IH in H as [Hi [Hcount Hcolumns]].
    cbn [Row.index Row.columnCount Row.columns] in *.
    repeat split; auto; destruct (Hcolumns i) as [Ht [Hp Hv]];
      rewrite nth_store_nat in Ht, Hp, Hv.
    + rewrite Ht. now destruct (decide (i = Z.to_nat index)) as [-> |].
    + rewrite Hp. now destruct (decide (i = Z.to_nat index)) as [-> |].
    + intros Hun. inversion Hun as [|? ? Htok Hnext]; subst.
      rewrite (Hv Hnext).
      destruct (decide (i = Z.to_nat index)) as [-> |]; [| reflexivity].
      exfalso. apply (Htok Hop). rewrite Z2Nat.id by lia. exact Hfind.
Qed.

Lemma update_row_app tableStructure before : forall after row,
  update_row tableStructure (before ++ after) row
  = row1 ← update_row tableStructure before row;
    update_row tableStructure after row1.
Proof.
  induction before as [|tok before IH]; intros after row; [reflexivity |].
  cbn [app update_row].
  destruct (Token.operator tok); try apply IH.
  destruct (SQLParser_FindColumn _ _) as [index|]; [| reflexivity].
  rewrite !bind_Ret. destruct (index =? -1); [apply IH |].
  destruct (slot (TableStructureInfo.columnTypes _) _ index) as [type|];
    [| reflexivity].
  rewrite !bind_Ret.
  destruct (SQLvalueFromStringAndType _ _) as [value|]; [| reflexivity].
  rewrite !bind_Ret.
  destruct (slot _ _ index) as [column|]; [| reflexivity]. rewrite !bind_Ret.
  destruct (store _ _ _ _) as [columns|]; [| reflexivity]. rewrite !bind_Ret.
  apply IH.
Qed.

(** X21.  UPDATE of a row changes the values its assignments name and
    nothing else.  The index, the column count and the type and position
    of every column stay; the value of a column that no assignment names
    stays; and the value of a column that is named is the literal of the
    last assignment that names it, converted by the type the schema has
    for the column.  Tokens with another operator are passed over. *)
Theorem update_changes_assigned_values_only tableStructure list row row' :
  update_row tableStructure list row = Ret row' ->
  Row.index row' = Row.index row
  /\ Row.columnCount row' = Row.columnCount row
  /\ forall i,
       Column.type (nth i (Row.columns row') Column.zero)
       = Column.type (nth i (Row.columns row) Column.zero)
       /\ Column.position (nth i (Row.columns row') Column.zero)
          = Column.position (nth i (Row.columns row) Column.zero)
       /\ (unassigned tableStructure i list ->
           Column.value (nth i (Row.columns row') Column.zero)
           = Column.value (nth i (Row.columns row) Column.zero))
       /\ forall before tok after,
            list = (before ++ tok :: after)%list ->
            Token.operator tok = AssignOperator ->
            SQLParser_FindColumn tableStructure (Token.keyword tok)
            = Ret (Z.of_nat i) ->
            unassigned tableStructure i after ->
            exists type,
              slot (TableStructureInfo.columnTypes tableStructure)
                FieldType.Integer (Z.of_nat i) = Ret type
              /\ SQLvalueFromStringAndType (Token.value tok) type
                 = Ret (Column.value (nth i (Row.columns row') Column.zero)).
Proof.
  intros H. pose proof (update_row_frame _ _ _ _ H) as [Hindex [Hcount Hcolumns]].
  split; [exact Hindex |]. split; [exact Hcount |]. intros i.
  destruct (Hcolumns i) as [Htype [Hposition Hvalue]].
  repeat split; auto.
  intros before tok after -> Hop Hfind Hafter.
  rewrite update_row_app in H. apply bind_inv in H as [row1 [_ H]].
  cbn [update_row] in H. rewrite Hop, Hfind, bind_Ret in H.
  destruct (Z.of_nat i =? -1) eqn:Hminus;
    [apply Z.eqb_eq in Hminus; lia | clear Hminus].
  destruct (slot (TableStructureInfo.columnTypes _) _ (Z.of_nat i))
    as [type|] eqn:Hslot; [| undefined H].
  pose proof (slot_defined _ _ _ _ Hslot) as Hrange.
  rewrite bind_Ret in H.
  destruct (SQLvalueFromStringAndType _ _) as [value|] eqn:Hconv;
    [| undefined H].
  rewrite bind_Ret, slot_in_range, bind_Ret in H by exact Hrange.
  unfold store in H.
  replace ((0 <=? Z.of_nat i) && (Z.of_nat i <? 128)) with true in H by lia.
  rewrite bind_Ret in H.
  apply update_row_frame in H as [_ [_ Hrest]].
  destruct (Hrest i) as [_ [_ Hkept]]. cbn [Row.columns] in Hkept.
  rewrite (Hkept Hafter), nth_store_nat, Nat2Z.id.
  destruct (decide (i = i)); [| congruence].
  exists type. split; [reflexivity | exact Hconv].
Qed.

Lemma update_changes_assigned_values_only_witness :
  exists row',
    update_row persons [token "age" AssignOperator "31";
                        token "name" EqualOperator "'Bob'"] ann = Ret row'
    /\ Row.index row' = Row.index ann
    /\ Row.columnCount row' = Row.columnCount ann
    /\ SQLwriteRowToFile row' = Ret ("0;'Ann';31;" +:+ newline).
Proof.
  eexists. split; [vm_compute; reflexivity |].
  split; [| split; [| vm_compute; reflexivity]].
  - eapply (update_changes_assigned_values_only persons
              [token "age" AssignOperator "31";
               token "name" EqualOperator "'Bob'"] ann).
    vm_compute. reflexivity.
  - reflexivity.
Defined.

(** ** Tables *)

Lemma storable_row_read_back tableStructure row rest :
  storable_row tableStructure row = true ->
  exists text row',
    SQLwriteRowToFile row = Ret text
    /\ text <> ""
    /\ SQLreadRow (text +:+ rest) tableStructure = Ret (Some (row', rest))
    /\ same_fields row row'.
Proof.
  unfold storable_row. intros H.
  apply andb_prop in H as [H Hfits]. apply andb_prop in H as [H Hmax].
  apply andb_prop in H as [H Hmin]. apply andb_prop in H as [H Hlen].
  apply andb_prop in H as [Hall Hcount].
  destruct (record_read_back tableStructure row rest) as [text [Hwrite Hread]];
    [exact Hall | lia | lia | lia |].
  rewrite Hwrite in Hfits.
  destruct Hread as [row' [Hread Hsame]]; [lia |].
  exists text, row'. repeat split; try tauto.
  intros ->. apply bind_inv in Hwrite as [fields [_ Hwrite]].
  injection Hwrite as Hwrite. symmetry in Hwrite.
  destruct (fmt_d (Row.index row)) eqn:Hd; [| discriminate].
  now apply fmt_d_not_empty in Hd.
Qed.

Lemma load_rows_records tableStructure table :
  0 <= TableStructureInfo.count tableStructure ->
  Forall (fun row => storable_row tableStructure row = true) table ->
  exists text table',
    records table = Ret text
    /\ load_rows (S (String.length text)) text [] tableStructure = Ret table'
    /\ Forall2 same_fields table table'.
Proof.
  intros Hcount. induction 1 as [|row table Hrow _ IH].
  - exists "", []. repeat split. constructor.
  - destruct IH as [more [table' [Hmore [Hload Hsame]]]].
    destruct (storable_row_read_back _ _ more Hrow)
      as [text [row' [Hwrite [Hne [Hread Hrow']]]]].
    exists (text +:+ more), (row' :: table'). split; [| split].
    + cbn [records]. now rewrite Hwrite, bind_Ret, Hmore, bind_Ret.
    + cbn [load_rows]. rewrite Hread, !bind_Ret.
      rewrite (load_rows_fuel [] tableStructure Hcount _
                 (S (String.length more)) more);
        [now rewrite Hload | | lia].
      rewrite length_append. destruct text; [congruence | cbn; lia].
    + now constructor.
Qed.

(** X22.  A table that is written is loaded as it was.  For rows that a
    table file of the schema keeps, the records that [SQLwriteRowToFile]
    makes of them are defined, and from a file that holds these records
    [SQLloadTable] without a filter loads as many rows, each with the
    index, the column count, the values and the tags of the row it was
    written from. *)
Theorem table_round_trip tableStructure table w :
  0 <= TableStructureInfo.count tableStructure ->
  table <> [] ->
  Forall (fun row => storable_row tableStructure row = true) table ->
  exists text,
    records table = Ret text
    /\ (World.fopen_r (TableStructureInfo.name tableStructure) w = Some text ->
        exists table',
          SQLloadTable [] tableStructure w = Ret table'
          /\ Forall2 same_fields table table').
Proof.
  intros Hcount Hne Hall.
  destruct (load_rows_records _ _ Hcount Hall)
    as [text [table' [Hrecords [Hload Hsame]]]].
  exists text. split; [exact Hrecords |]. intros Hopen.
  exists table'. split; [| exact Hsame].
  unfold SQLloadTable. rewrite Hopen, Hload, bind_Ret.
  destruct table'; [| reflexivity].
  inversion Hsame; subst. congruence.
Qed.

Lemma table_round_trip_witness :
  exists text,
    records [ann; bob] = Ret text
    /\ (World.fopen_r "people"
          (World.with_files {[ "people" := "0;'Ann';30;" +:+ newline
                                           +:+ "1;'Bob';41;" +:+ newline ]}
             fresh)
        = Some text ->
        exists table',
          SQLloadTable [] persons
            (World.with_files {[ "people" := "0;'Ann';30;" +:+ newline
                                             +:+ "1;'Bob';41;" +:+ newline ]}
               fresh) = Ret table'
          /\ Forall2 same_fields [ann; bob] table').
Proof.
  apply (table_round_trip persons [ann; bob]);
    [cbn; lia | discriminate | repeat constructor].
Defined.

(** ** Conditions on columns the schema does not have *)

Lemma filter_conditions_unknown tableStructure row tok before : forall after,
  SQLParser_FindColumn tableStructure (Token.keyword tok) = Ret (-1) ->
  filter_conditions (before ++ tok :: after) tableStructure row
  = filter_conditions (before ++ after) tableStructure row.
Proof.
  intros after Hfind.
  induction before as [|cond before IH]; cbn [app filter_conditions].
  - now rewrite Hfind, bind_Ret.
  - rewrite IH.
    destruct (SQLParser_FindColumn tableStructure (Token.keyword cond))
      as [position|]; [| reflexivity].
    rewrite !bind_Ret. destruct (negb (position =? -1)); [| reflexivity].
    destruct (slot _ _ _) as [column|]; reflexivity.
Qed.

(** X23.  A condition on a column that the schema does not have is no
    condition: wherever it stands among the conditions, the filter answers
    for the row as it does without it. *)
Theorem condition_on_unknown_column_is_ignored
    command before tok after tableStructure row :
  SQLParser_FindColumn tableStructure (Token.keyword tok) = Ret (-1) ->
  SQLfilterRow (command :: before ++ tok :: after) tableStructure row
  = SQLfilterRow (command :: before ++ after) tableStructure row.
Proof.
  intros Hfind.
  assert (Hfilter : forall conditions,
             SQLfilterRow (command :: conditions) tableStructure row
             = filter_conditions conditions tableStructure row)
    by (now intros [|cond conditions]).
  rewrite !Hfilter. now apply filter_conditions_unknown.
Qed.

Lemma condition_on_unknown_column_is_ignored_witness :
  SQLfilterRow [token "SELECT" AssignOperator "people";
                token "name" EqualOperator "Ann";
                token "zz" EqualOperator "1";
                token "age" GreaterThanOperator "40"] persons ann
  = SQLfilterRow [token "SELECT" AssignOperator "people";
                  token "name" EqualOperator "Ann";
                  token "age" GreaterThanOperator "40"] persons ann.
Proof.
  apply (condition_on_unknown_column_is_ignored
           (token "SELECT" AssignOperator "people")
           [token "name" EqualOperator "Ann"]
           (token "zz" EqualOperator "1")
           [token "age" GreaterThanOperator "40"] persons ann).
  reflexivity.
Defined.

(** ** CREATE *)

Lemma create_columns_defined current : forall info,
  TableStructureInfo.count info
  = Z.of_nat (length (TableStructureInfo.columns info)) ->
  length (TableStructureInfo.columnTypes info)
  = length (TableStructureInfo.columns info) ->
  (length (TableStructureInfo.columns info) <= 128)%nat ->
  Forall (fun tok => (String.length (Token.keyword tok) <= 127)%nat) current ->
  ((length (TableStructureInfo.columns info) + length current <= 128)%nat ->
   exists info', create_columns current info = Ret (Some info'))
  /\ ((128 < length (TableStructureInfo.columns info) + length current)%nat ->
      create_columns current info = Undef).
Proof.
  induction current as [|tok next IH]; intros info Hcount Htypes Hmax Hall.
  - split; [now eexists | cbn; lia].
  - inversion Hall as [|? ? Htok Hnext]; subst. cbn [create_columns length].
    destruct (_ >? 128 * 128 - 1) eqn:Hhuge; [apply Z.gtb_lt in Hhuge; lia |].
    destruct (_ >? 127) eqn:Hlong; [apply Z.gtb_lt in Hlong; lia |].
    rewrite Hcount.
    destruct (decide (length (TableStructureInfo.columns info) = 128%nat)) as [Hfull|Hroom].
    + split; [lia | intros _]. unfold store at 1. rewrite Hfull. reflexivity.
    + rewrite store_at_end, bind_Ret by lia.
      rewrite <- Htypes, store_at_end, bind_Ret by lia.
      rewrite Htypes, to_size_t_small by lia.
      destruct (_ >? 128 * 4) eqn:Hmany; [apply Z.gtb_lt in Hmany; lia |].
      match goal with
      | |- context [create_columns next ?i] => destruct (IH i) as [Hfits Hover]
      end; cbn [TableStructureInfo.count TableStructureInfo.columns
                TableStructureInfo.columnTypes];
        rewrite ?length_app; cbn [length]; try lia; try assumption.
      split; intros Hlen; [apply Hfits | apply Hover];
        cbn [TableStructureInfo.columns]; rewrite length_app; cbn [length]; lia.
Qed.

(** X24.  CREATE with an openable catalog and a keyword and column names of
    at most 127 bytes.  [memcpy] copies as many bytes of the table name as
    the keyword has, and the name has one byte more than its length: when
    that is enough, CREATE makes a table of up to 128 columns, and with
    more it stores column 128 outside [info.columns] before the test on the
    count, which compares with 512, is reached; when the name is shorter
    than that, the copy reads past its end. *)
Theorem create_column_limit tok next w :
  World.openable catalog_path w = true ->
  (String.length (Token.keyword tok) <= 127)%nat ->
  Forall (fun tok => (String.length (Token.keyword tok) <= 127)%nat) next ->
  ((String.length (Token.keyword tok) <= S (String.length (Token.value tok)))%nat ->
   ((length next <= 128)%nat ->
    exists w', SQLParser_CreateTable (tok :: next) w = Ret (w', 0))
   /\ ((128 < length next)%nat ->
       SQLParser_CreateTable (tok :: next) w = Undef))
  /\ ((S (String.length (Token.value tok)) < String.length (Token.keyword tok))%nat ->
      SQLParser_CreateTable (tok :: next) w = Undef).
Proof.
  intros Hopen Hkeyword Hall. unfold SQLParser_CreateTable.
  rewrite Hopen.
  destruct (_ >? 128 - 1) eqn:Hlong; [apply Z.gtb_lt in Hlong; lia |].
  unfold copy_name. split; intros Hvalue.
  - destruct (_ <=? _)%nat eqn:Hcopy; [| apply Nat.leb_gt in Hcopy; lia].
    rewrite bind_Ret.
    match goal with
    | |- context [create_columns next ?i] =>
        destruct (create_columns_defined next i) as [Hfits Hover]
    end; try reflexivity; try assumption; [cbn; lia |].
    cbn [TableStructureInfo.columns length Nat.add] in Hfits, Hover.
    split; intros Hlen.
    + destruct (Hfits Hlen) as [info' ->]. rewrite bind_Ret. now eexists.
    + now rewrite (Hover Hlen).
  - destruct (_ <=? _)%nat eqn:Hcopy; [apply Nat.leb_le in Hcopy; lia |].
    reflexivity.
Qed.

(** [DATASET:people name:STRING age:INTEGER] makes its table;
    [DATASET:t a:INTEGER], whose name has one byte, reads past it. *)
Lemma create_column_limit_witness :
  (exists w',
      SQLParser_CreateTable [token "DATASET" AssignOperator "people";
                             token "name" AssignOperator "STRING";
                             token "age" AssignOperator "INTEGER"] fresh
      = Ret (w', 0))
  /\ SQLParser_CreateTable [token "DATASET" AssignOperator "t";
                            token "a" AssignOperator "INTEGER"] fresh
     = Undef.
Proof.
  split.
  - destruct (create_column_limit (token "DATASET" AssignOperator "people")
                [token "name" AssignOperator "STRING";
                 token "age" AssignOperator "INTEGER"] fresh)
      as [Hfits _];
      [reflexivity | cbn; lia | repeat constructor; cbn; lia |].
    apply Hfits; cbn; lia.
  - destruct (create_column_limit (token "DATASET" AssignOperator "t")
                [token "a" AssignOperator "INTEGER"] fresh)
      as [_ Hshort];
      [reflexivity | cbn; lia | repeat constructor; cbn; lia |].
    apply Hshort. cbn. lia.
Defined.

Lemma find_record_named name records :
  In name (map TableStructureInfo.name records) ->
  TableStructureInfo.name (find_record name records) = name.
Proof.
  induction records as [|table records IH]; cbn [map In find_record];
    [contradiction |].
  intros Hin.
  destruct (strcmp name (TableStructureInfo.name table) =? 0) eqn:Hc.
  - apply Z.eqb_eq, strcmp_eq in Hc. now symmetry.
  - destruct Hin as [Hname | Hin]; [| exact (IH Hin)].
    rewrite Hname, strcmp_refl in Hc. discriminate.
Qed.

(** X25.  CREATE of a table that the catalog has a record of is refused: the
    statement prints that there is a table with the same name, returns 0
    and changes nothing else, whatever columns it defines. *)
Theorem create_of_an_existing_table_is_refused query tok list w records c rest :
  SQLParser_Parse query = Ret (Tokens (tok :: list)) ->
  SQLParser_GetQueryType (Token.keyword tok) = Create ->
  World.openable catalog_path w = true ->
  World.catalog w = Some records ->
  In (Token.value tok) (map TableStructureInfo.name records) ->
  Token.value tok = String c rest -> code c <> 0 ->
  SQLExecuteQuery query w
  = Ret (World.printf
           ("there is a table with the same name, cannot create table `"
            +:+ Token.value tok +:+ "`" +:+ newline) w, 0).
Proof.
  intros Hparse Hcreate Hopen Hcatalog Hin Hvalue Hc.
  unfold SQLExecuteQuery. rewrite Hparse, bind_Ret. cbv beta iota.
  rewrite Hcreate. unfold SQLParser_FindTable. rewrite Hopen, Hcatalog.
  rewrite (find_record_named _ _ Hin), Hvalue. cbn [peek]. unfold ch.
  change (code zero) with 0.
  destruct (code c =? 0) eqn:Hzero; [apply Z.eqb_eq in Hzero; contradiction |].
  reflexivity.
Qed.

Lemma create_of_an_existing_table_is_refused_witness :
  SQLExecuteQuery "DATASET:people name:STRING" (with_people None ∅)
  = Ret (World.printf
           ("there is a table with the same name, cannot create table `people`"
            +:+ newline) (with_people None ∅), 0).
Proof.
  apply (create_of_an_existing_table_is_refused "DATASET:people name:STRING"
           (token "DATASET" AssignOperator "people")
           [token "name" AssignOperator "STRING"]
           (with_people None ∅) [people] "p" "eople");
    try reflexivity; [now left | discriminate].
Defined.

(** ** Statements on a table that does not exist *)

Lemma SQLloadTable_no_table list w :
  SQLloadTable list TableStructureInfo.zero w = Undef.
Proof. reflexivity. Qed.

Lemma SQLisValidRow_no_table tok next row w :
  exists w1,
    SQLisValidRow (tok :: next) TableStructureInfo.zero row w = Ret (w1, 0)
    /\ only_printed w w1.
Proof.
  unfold SQLisValidRow.
  destruct (_ >? _); [eexists; split; [reflexivity | apply only_printed_printf] |].
  change (SQLParser_FindColumn TableStructureInfo.zero (Token.keyword tok))
    with (Ret (-1) : Outcome Z).
  rewrite bind_Ret. eexists. split; [reflexivity | apply only_printed_printf].
Qed.

Lemma SQLinsert_no_table list w :
  exists w',
    SQLinsert list TableStructureInfo.zero w = Ret w' /\ only_printed w w'.
Proof.
  unfold SQLinsert. destruct list as [|command [|tok next]].
  - eexists. split; [reflexivity | apply only_printed_refl].
  - cbn [insert_row]. rewrite bind_Ret. eexists.
    split; [reflexivity | apply only_printed_refl].
  - cbn [insert_row]. unfold SQLcheckOperator.
    case_bool_decide.
    + cbn [Z.eqb]. cbv iota.
      destruct (SQLisValidRow_no_table tok next
                  {| Row.index := 0; Row.columns := []; Row.columnCount := 0 |} w)
        as [w1 [-> Hprinted]].
      rewrite !bind_Ret. cbn. eexists. split; [reflexivity | exact Hprinted].
    + cbn. eexists. split; [reflexivity | apply only_printed_printf].
Qed.

(** X26.  Statements on a table that the catalog has no record of.  The
    table search hands back the zero-filled structure, whose name is the
    empty path, which [fopen] does not open.  SELECT then prints from a
    table it did not load, and so do DELETE and UPDATE once their temporary
    file is open: nothing is defined about them.  INSERT returns 0 and
    changes no file and no record of the catalog. *)
Theorem statements_on_a_table_that_does_not_exist query tok list w :
  SQLParser_Parse query = Ret (Tokens (tok :: list)) ->
  SQLParser_FindTable (Token.value tok) w = TableStructureInfo.zero ->
  (SQLParser_GetQueryType (Token.keyword tok) = Select ->
   SQLExecuteQuery query w = Undef)
  /\ (SQLParser_GetQueryType (Token.keyword tok) = Delete
      \/ SQLParser_GetQueryType (Token.keyword tok) = Update ->
      forall filename,
        World.tmpname w = Some filename ->
        World.openable filename w = true ->
        SQLExecuteQuery query w = Undef)
  /\ (SQLParser_GetQueryType (Token.keyword tok) = Insert ->
      exists w',
        SQLExecuteQuery query w = Ret (w', 0)
        /\ World.files w' = World.files w
        /\ World.catalog w' = World.catalog w).
Proof.
  intros Hparse Hnone. unfold SQLExecuteQuery.
  rewrite Hparse, bind_Ret. cbv beta iota. rewrite Hnone.
  split; [| split].
  - intros ->. reflexivity.
  - intros Htype filename Htmp Hopen.
    destruct Htype as [-> | ->].
    + unfold SQLdelete, World.fopen_w. rewrite Htmp, Hopen. reflexivity.
    + unfold SQLupdate, World.fopen_w. rewrite Htmp, Hopen. reflexivity.
  - intros ->.
    destruct (SQLinsert_no_table (tok :: list) w) as [w' [-> [Hf [Hc _]]]].
    rewrite bind_Ret. now exists w'.
Qed.

Lemma statements_on_a_table_that_does_not_exist_witness :
  SQLExecuteQuery "SELECT:nobody age=30" (with_people (Some "0;30;") ∅) = Undef.
Proof.
  destruct (statements_on_a_table_that_does_not_exist "SELECT:nobody age=30"
              (token "SELECT" AssignOperator "nobody")
              [token "age" EqualOperator "30"]
              (with_people (Some "0;30;") ∅)) as [Hselect _];
    [reflexivity | reflexivity |].
  now apply Hselect.
Defined.

Arguments SQLExecuteQuery : simpl never.

(** ** The shell *)

Lemma chomp_line query : chomp (query +:+ newline) = query.
Proof.
  induction query as [|c query IH]; [reflexivity |].
  rewrite append_String. cbn [chomp]. rewrite IH.
  destruct query; reflexivity.
Qed.

Lemma main_loop_line fuel query rest w :
  free_of 0 query = true -> free_of 10 query = true ->
  (String.length query < 499)%nat ->
  main_loop (S fuel) (query +:+ newline +:+ rest) w
  = if (strcmp query "exit" =? 0) || (strcmp query "\q" =? 0)
    then Ret (World.printf prompt w, 0)
    else '(w', _) ← SQLExecuteQuery query (World.printf prompt w);
         main_loop fuel rest w'.
Proof.
  intros H0 H10 Hlen. cbn [main_loop].
  destruct (query +:+ newline +:+ rest) as [|c stdin] eqn:E;
    [destruct query; discriminate |].
  rewrite <- E. rewrite fgets_line by assumption.
  rewrite cstr_free_of by (rewrite free_of_append, H0; reflexivity).
  destruct (query +:+ newline) as [|c' line] eqn:E';
    [destruct query; discriminate |].
  rewrite <- E', chomp_line. reflexivity.
Qed.

Lemma main_loop_session queries : forall fuel tail w,
  Forall (fun query => statement query = true) queries ->
  main_loop (length queries + fuel) (lines queries +:+ tail) w
  = w' ← session queries w; main_loop fuel tail w'.
Proof.
  induction queries as [|query queries IH]; intros fuel tail w Hall;
    [reflexivity |].
  inversion Hall as [|? ? Hquery Hrest]; subst.
  unfold statement in Hquery.
  apply andb_prop in Hquery as [Hquery Hq].
  apply andb_prop in Hquery as [Hquery Hexit].
  apply andb_prop in Hquery as [Hquery Hlen].
  apply andb_prop in Hquery as [H0 H10].
  cbn [lines length session Nat.add]. rewrite !append_assoc.
  rewrite main_loop_line by (assumption || lia).
  apply negb_true_iff in Hexit, Hq. rewrite Hexit, Hq. cbn [orb].
  destruct (SQLExecuteQuery query (World.printf prompt w)) as [[w' r]|];
    [| reflexivity].
  rewrite !bind_Ret. now apply IH.
Qed.

Lemma length_lines queries :
  (length queries <= String.length (lines queries))%nat.
Proof.
  induction queries as [|query queries IH]; [reflexivity |].
  cbn [lines length]. rewrite !length_append. cbn [String.length newline]. lia.
Qed.

(** X27.  The shell is the queries of its lines executed in turn.  When
    stdin is a run of statement lines, [main] prints the banner, executes
    the lines one after the other, each behind a prompt and whatever the
    one before returned, and then: ends with status 0 at a line that reads
    [exit] or [\q], without reading what follows it, and with status -1 at
    the end of stdin. *)
Theorem main_executes_the_lines_in_turn queries w :
  Forall (fun query => statement query = true) queries ->
  (forall word rest,
      word = "exit" \/ word = "\q" ->
      main (lines queries +:+ word +:+ newline +:+ rest) w
      = w' ← session queries (World.printf banner w);
        Ret (World.printf prompt w', 0))
  /\ main (lines queries) w
     = w' ← session queries (World.printf banner w);
       Ret (World.printf prompt w', -1).
Proof.
  intros Hall. unfold main. split.
  - intros word rest Hword.
    set (stdin := lines queries +:+ word +:+ newline +:+ rest).
    assert (Hfuel : exists fuel,
               S (String.length stdin) = (length queries + S fuel)%nat).
    { exists (String.length stdin - length queries)%nat.
      pose proof (length_lines queries). unfold stdin.
      rewrite !length_append. lia. }
    destruct Hfuel as [fuel ->]. unfold stdin.
    rewrite main_loop_session by exact Hall.
    destruct (session queries _) as [w'|]; [| reflexivity].
    rewrite bind_Ret.
    rewrite main_loop_line;
      [| destruct Hword as [-> | ->]; reflexivity ..
       | destruct Hword as [-> | ->]; cbn; lia].
    destruct Hword as [-> | ->]; reflexivity.
  - assert (Hfuel : exists fuel,
               S (String.length (lines queries)) = (length queries + S fuel)%nat).
    { exists (String.length (lines queries) - length queries)%nat.
      pose proof (length_lines queries). lia. }
    destruct Hfuel as [fuel ->].
    rewrite <- (append_empty_r (lines queries)) at 1.
    rewrite main_loop_session by exact Hall.
    destruct (session queries _) as [w'|]; reflexivity.
Qed.

Lemma main_executes_the_lines_in_turn_witness :
  main ("DATASET:people age:INTEGER" +:+ newline
        +:+ "INSERT_INTO:people age:30" +:+ newline
        +:+ "exit" +:+ newline +:+ "SELECT:people age=30") fresh
  = w' ← session ["DATASET:people age:INTEGER"; "INSERT_INTO:people age:30"]
           (World.printf banner fresh);
    Ret (World.printf prompt w', 0).
Proof.
  assert (Hall : Forall (fun query => statement query = true)
                   ["DATASET:people age:INTEGER"; "INSERT_INTO:people age:30"])
    by (repeat constructor).
  destruct (main_executes_the_lines_in_turn
              ["DATASET:people age:INTEGER"; "INSERT_INTO:people age:30"]
              fresh Hall) as [Hexit _].
  exact (Hexit "exit" "SELECT:people age=30" (or_introl eq_refl)).
Defined.

Lemma fgets_full query : forall rest,
  free_of 10 query = true ->
  fgets (String.length query) (query +:+ rest) = (query, rest).
Proof.
  induction query as [|c query IH]; intros rest Hfree.
  - cbn. now destruct rest.
  - rewrite append_String. cbn [String.length fgets]. cbn [free_of] in Hfree.
    apply andb_prop in Hfree as [Hc Hquery].
    unfold ch. change (code "010") with 10.
    destruct (code c =? 10); [discriminate |].
    now rewrite IH.
Qed.

Lemma chomp_free query : free_of 10 query = true -> chomp query = query.
Proof.
  induction query as [|c query IH]; [reflexivity |].
  cbn [free_of chomp]. intros Hfree.
  apply andb_prop in Hfree as [Hc Hquery]. rewrite (IH Hquery).
  unfold ch. change (code "010") with 10.
  destruct (code c =? 10); [discriminate |]. now destruct query.
Qed.

(** X28.  A line that does not fit the input buffer is executed in pieces:
    when the first 499 bytes of stdin hold no newline (and no NUL), they
    are executed as a query of their own, and what follows them on the
    line is read as the next line. *)
Theorem overlong_line_is_split fuel query rest w :
  String.length query = 499%nat ->
  free_of 0 query = true -> free_of 10 query = true ->
  main_loop (S fuel) (query +:+ rest) w
  = '(w', _) ← SQLExecuteQuery query (World.printf prompt w);
    main_loop fuel rest w'.
Proof.
  intros Hlen H0 H10. cbn [main_loop].
  destruct (query +:+ rest) as [|c stdin] eqn:E;
    [destruct query; discriminate |].
  rewrite <- E, <- Hlen, fgets_full by exact H10.
  rewrite cstr_free_of by exact H0.
  destruct query as [|c' query'] eqn:Equery; [discriminate |].
  rewrite <- Equery in *. rewrite chomp_free by exact H10.
  assert (Hexit : (strcmp query "exit" =? 0) = false).
  { apply Z.eqb_neq. intros Heq. apply strcmp_eq in Heq.
    rewrite Heq in Hlen. discriminate. }
  assert (Hq : (strcmp query "\q" =? 0) = false).
  { apply Z.eqb_neq. intros Heq. apply strcmp_eq in Heq.
    rewrite Heq in Hlen. discriminate. }
  now rewrite Hexit, Hq.
Qed.

Lemma overlong_line_is_split_witness :
  main_loop 2 (spaces 499 +:+ "exit") fresh
  = '(w', _) ← SQLExecuteQuery (spaces 499) (World.printf prompt fresh);
    main_loop 1 "exit" w'.
Proof.
  apply (overlong_line_is_split 1 (spaces 499) "exit" fresh);
    vm_compute; reflexivity.
Defined.

(** ** The lexer on the object that holds the query *)

Lemma memory_scan_step room at_ lx c rest :
  (code c =? 0) = false ->
  Memory.scan room at_ lx (String c rest)
  = match at_ with
    | AtSwitch => memory_switch room c rest lx
    | AfterOperator =>
        if isspace c then Memory.scan room AfterOperator lx rest
        else memory_switch room c rest lx
    | InQuote =>
        if ch c "'" then _ ← Memory.terminate room lx;
                         Memory.scan room AtSwitch lx rest
        else lx' ← Memory.push room c lx; Memory.scan room InQuote lx' rest
    end.
Proof. intros Hc. cbn [Memory.scan]. rewrite Hc. destruct at_; reflexivity. Qed.

Lemma nul_free_skip_space s : nul_free s = true -> nul_free (skip_space s) = true.
Proof.
  induction s as [|c s IH]; [reflexivity |]. cbn [skip_space].
  destruct (isspace c); [| easy].
  cbn [nul_free]. intros H. apply andb_prop in H as [_ H]. now apply IH.
Qed.

Lemma nul_free_drop_trailing_space s :
  nul_free s = true -> nul_free (drop_trailing_space s) = true.
Proof.
  induction s as [|c s IH]; [reflexivity |]. cbn [nul_free drop_trailing_space].
  intros H. apply andb_prop in H as [Hc Hs]. specialize (IH Hs).
  destruct (drop_trailing_space s).
  - destruct (isspace c); [reflexivity |]. cbn [nul_free]. now rewrite Hc.
  - cbn [nul_free] in *. now rewrite Hc, IH.
Qed.

Lemma nul_free_trim buffer keyword :
  nul_free buffer = true -> trim buffer = Ret keyword -> nul_free keyword = true.
Proof.
  unfold trim. intros Hfree.
  pose proof (nul_free_skip_space _ Hfree) as Hskip.
  destruct (skip_space buffer) as [|c r]; [discriminate |].
  intros H.
  assert (keyword = drop_trailing_space (String c r)) as -> by congruence.
  now apply nul_free_drop_trailing_space.
Qed.

Lemma peek_append s behind : peek (s +:+ String zero behind) = peek s.
Proof. now destruct s. Qed.

Lemma SQLfindOperator_helper_append c rest behind :
  SQLfindOperator_helper (String c (rest +:+ String zero behind))
  = SQLfindOperator_helper (String c rest).
Proof.
  unfold SQLfindOperator_helper. cbn [peek]. now rewrite peek_append.
Qed.

Lemma SQLfindOperator_helper_last c :
  snd (SQLfindOperator_helper (String c "")) = false.
Proof.
  unfold SQLfindOperator_helper. cbn [peek].
  change (ch zero "=") with false. change (ch zero ">") with false.
  destruct (ch c ">"); [reflexivity |]. destruct (ch c "<"); [reflexivity |].
  destruct (ch c "!" && ch c "=") eqn:H.
  - apply andb_prop in H as [H1 H2]. unfold ch in *.
    apply Z.eqb_eq in H1, H2. rewrite H1 in H2. discriminate.
  - now destruct (ch c "=").
Qed.

Lemma memory_push_fits room c lx rest :
  (code c =? 0) = false ->
  fits room lx (String c rest) ->
  Memory.push room c lx = Ret (Lexer.push c lx)
  /\ fits room (Lexer.push c lx) rest.
Proof.
  intros Hc [Hfree Hroom]. cbn [String.length] in Hroom. unfold Memory.push.
  destruct (_ <=? _)%nat eqn:Hle; [| apply Nat.leb_gt in Hle; lia].
  split; [reflexivity |]. split; cbn [Lexer.push Lexer.buffer].
  - apply nul_free_append; [exact Hfree |]. cbn [nul_free]. now rewrite Hc.
  - rewrite length_append. cbn [String.length]. lia.
Qed.

Lemma memory_terminate_fits room lx query :
  fits room lx query -> Memory.terminate room lx = Ret tt.
Proof.
  intros [_ Hroom]. unfold Memory.terminate.
  destruct (_ <=? _)%nat eqn:Hle; [reflexivity | apply Nat.leb_gt in Hle; lia].
Qed.

Lemma memory_emit_fits room next lx query :
  fits room lx query -> Memory.emit room next lx = Ret (Lexer.emit next lx).
Proof.
  intros Hfits. unfold Memory.emit.
  rewrite (memory_terminate_fits _ _ _ Hfits), bind_Ret.
  destruct Hfits as [Hfree _]. now rewrite (cstr_nul_free _ Hfree).
Qed.

Lemma fits_shorter room lx c rest :
  fits room lx (String c rest) -> fits room lx rest.
Proof. intros [Hfree Hroom]. cbn [String.length] in Hroom. split; [easy | lia]. Qed.

Lemma fits_cleared room lx lx' query :
  Lexer.buffer lx' = "" -> fits room lx query -> fits room lx' query.
Proof. intros Hb [_ Hroom]. unfold fits. rewrite Hb. split; [easy | cbn; lia]. Qed.

Lemma memory_scan_refines n : forall query at_ lx room behind r,
  (String.length query <= n)%nat ->
  nul_free query = true ->
  fits room lx query ->
  scan at_ lx query = Ret r ->
  Memory.scan room at_ lx (query +:+ String zero behind) = Ret r.
Proof.
  induction n as [|n IH]; intros [|c rest] at_ lx room behind r Hlen Hnul Hfits H;
    try (cbn in Hlen; lia).
  1, 2: change ("" +:+ String zero behind) with (String zero behind);
      cbn [Memory.scan]; change (code zero =? 0) with true; cbv iota;
      cbn in H; destruct at_; try discriminate;
      (destruct (Lexer.state lx); [| exact H]);
      now rewrite (memory_emit_fits _ _ _ _ Hfits), bind_Ret.
  assert (Hrest : (String.length rest <= n)%nat) by (cbn in Hlen; lia).
  clear Hlen. cbn [nul_free] in Hnul. apply andb_prop in Hnul as [Hc Hnul].
  apply negb_true_iff in Hc.
  destruct (memory_push_fits _ _ _ _ Hc Hfits) as [Hpush Hpushed].
  pose proof (fits_shorter _ _ _ _ Hfits) as Hshort.
  assert (Hswitch : switch c rest lx = Ret r ->
                    memory_switch room c (rest +:+ String zero behind) lx = Ret r).
  { unfold switch, memory_switch. intros Hs.
    destruct (ch c ":" || ch c "<" || ch c ">" || ch c "!" || ch c "=").
    - replace (String.length (rest +:+ String zero behind) =? 0)%nat with false
        by (rewrite length_append; cbn; symmetry; apply Nat.eqb_neq; lia).
      rewrite andb_false_r, SQLfindOperator_helper_append.
      pose proof (SQLfindOperator_helper_last c) as Hlast.
      destruct (SQLfindOperator_helper (String c rest)) as [operator moved] eqn:Hh.
      destruct (Lexer.state lx); [exact Hs |].
      destruct (trim (Lexer.buffer lx)) as [keyword|] eqn:Ht; [| discriminate].
      rewrite (cstr_nul_free keyword)
        by (exact (nul_free_trim _ _ (proj1 Hfits) Ht)).
      destruct moved.
      + destruct rest as [|d rest'].
        * rewrite Hh in Hlast. discriminate.
        * rewrite append_String.
          apply IH; [cbn in Hrest; lia | | | exact Hs].
          -- cbn [nul_free] in Hnul. now apply andb_prop in Hnul as [_ Hnul].
          -- apply (fits_cleared room lx); [reflexivity |].
             now apply (fits_shorter _ _ d).
      + apply IH; [exact Hrest | exact Hnul | | exact Hs].
        now apply (fits_cleared room lx).
    - destruct (ch c "'").
      + destruct (Lexer.state lx); [| exact Hs].
        now apply IH.
      + destruct (ch c " " || ch c "009" || ch c "010").
        * destruct (Lexer.state lx); [| now apply IH].
          rewrite (memory_emit_fits _ _ _ _ Hfits), bind_Ret.
          apply IH; [exact Hrest | exact Hnul | | exact Hs].
          now apply (fits_cleared room lx).
        * rewrite Hpush, bind_Ret. now apply IH. }
  rewrite append_String, memory_scan_step by exact Hc.
  rewrite scan_step in H. destruct at_.
  - now apply Hswitch.
  - destruct (isspace c); [now apply IH | now apply Hswitch].
  - destruct (ch c "'").
    + rewrite (memory_terminate_fits _ _ _ Hfits), bind_Ret. now apply IH.
    + rewrite Hpush, bind_Ret. now apply IH.
Qed.

Lemma cstr_append s behind :
  nul_free s = true -> cstr (s +:+ String zero behind) = s.
Proof.
  induction s as [|c s IH]; [reflexivity |]. cbn [nul_free]. intros H.
  apply andb_prop in H as [Hc Hs]. apply negb_true_iff in Hc.
  rewrite append_String. cbn [cstr]. now rewrite Hc, IH.
Qed.

Lemma nul_free_cstr s : nul_free (cstr s) = true.
Proof.
  induction s as [|c s IH]; [reflexivity |]. cbn [cstr].
  destruct (code c =? 0) eqn:Hc; [reflexivity |].
  cbn [nul_free]. now rewrite Hc, IH.
Qed.

(** X29.  The lexer on the object agrees with the lexer on the query
    wherever the latter has an answer: a query that [SQLParser_Parse]
    parses or rejects without reading behind its terminator is parsed or
    rejected in the same way whatever lies behind it. *)
Theorem lexer_reads_the_query_only query behind r :
  SQLParser_Parse query = Ret r ->
  Memory.SQLParser_Parse (cstr query +:+ String zero behind) = Ret r.
Proof.
  unfold SQLParser_Parse, Memory.SQLParser_Parse. intros H.
  pose proof (nul_free_cstr query) as Hfree.
  rewrite (cstr_append _ behind Hfree).
  apply (memory_scan_refines (String.length (cstr query)));
    [lia | exact Hfree | | exact H].
  split; [reflexivity | cbn; lia].
Qed.

Lemma lexer_reads_the_query_only_witness :
  Memory.SQLParser_Parse ("a:'b c' d>1" +:+ String zero "e=2")
  = Ret (Tokens [token "a" AssignOperator "b c";
                 token "d" GreaterThanOperator "1"]).
Proof.
  apply (lexer_reads_the_query_only "a:'b c' d>1" "e=2"). reflexivity.
Defined.

Lemma memory_scan_span room span : forall lx memory,
  quote_free span = true -> nul_free span = true ->
  (String.length (Lexer.buffer lx) + String.length span <= room)%nat ->
  Memory.scan room InQuote lx (span +:+ memory)
  = Memory.scan room InQuote (pushes span lx) memory.
Proof.
  induction span as [|c span IH]; intros lx memory Hquote Hnul Hroom.
  - now rewrite pushes_empty.
  - cbn [quote_free nul_free String.length] in *.
    apply andb_prop in Hquote as [Hq Hquote].
    apply andb_prop in Hnul as [Hc Hnul].
    apply negb_true_iff in Hq, Hc.
    rewrite append_String, memory_scan_step by exact Hc.
    fold quote. rewrite Hq. unfold Memory.push.
    destruct (_ <=? _)%nat eqn:Hle; [| apply Nat.leb_gt in Hle; lia].
    rewrite bind_Ret, IH, pushes_push; try assumption; [reflexivity |].
    cbn [Lexer.push Lexer.buffer]. rewrite length_append. cbn. lia.
Qed.

(** X30.  A quoted span that is not closed takes the lexer past the
    terminator of the query.  The terminator is copied into the value as
    its last byte, the byte behind it is passed over unread, and the scan
    goes on with what follows in the object that holds the query, as if it
    were more of the value: there is no exit at the end of the text. *)
Theorem open_quote_runs_past_the_terminator room at_ lx span skipped behind :
  at_ <> InQuote ->
  Lexer.state lx = ScanValue ->
  quote_free span = true -> nul_free span = true ->
  (String.length (Lexer.buffer lx) + String.length span < room)%nat ->
  Memory.scan room at_ lx
    (String quote (span +:+ String zero (String skipped behind)))
  = Memory.scan room AtSwitch (pushes (span +:+ nul) lx) behind.
Proof.
  intros Hat Hstate Hquote Hnul Hroom.
  rewrite memory_scan_step by reflexivity.
  assert (Hstep : memory_switch room quote
                    (span +:+ String zero (String skipped behind)) lx
                  = Memory.scan room InQuote lx
                      (span +:+ String zero (String skipped behind))).
  { unfold memory_switch. now rewrite Hstate. }
  replace (match at_ with
           | AtSwitch => _ | AfterOperator => _ | InQuote => _ end)
    with (memory_switch room quote
            (span +:+ String zero (String skipped behind)) lx)
    by (destruct at_; [reflexivity | reflexivity | contradiction]).
  rewrite Hstep, memory_scan_span by (assumption || lia).
  cbn [Memory.scan]. change (code zero =? 0) with true. cbv iota.
  unfold Memory.push, Memory.terminate.
  assert (Hlen : String.length (Lexer.buffer (pushes span lx))
                 = (String.length (Lexer.buffer lx) + String.length span)%nat)
    by (cbn; apply length_append).
  rewrite Hlen.
  destruct (_ <=? _)%nat eqn:Hle; [| apply Nat.leb_gt in Hle; lia].
  rewrite bind_Ret. cbn [Lexer.push Lexer.buffer].
  rewrite length_append, Hlen. cbn [String.length].
  destruct (_ + 1 <=? room)%nat eqn:Hle'; [| apply Nat.leb_gt in Hle'; lia].
  rewrite bind_Ret. f_equal.
  destruct lx; unfold pushes, Lexer.push, nul; cbn. now rewrite append_assoc.
Qed.

Lemma open_quote_runs_past_the_terminator_witness :
  Memory.scan 4 AfterOperator
    {| Lexer.state := ScanValue; Lexer.buffer := ""; Lexer.keyword := "a";
       Lexer.operator := AssignOperator; Lexer.head := [] |}
    (String quote ("b" +:+ String zero (String zero ("xx" +:+ nul))))
  = Ret (Tokens [token "a" AssignOperator "b"]).
Proof.
  rewrite (open_quote_runs_past_the_terminator 4 AfterOperator _ "b" zero
             ("xx" +:+ nul));
    [reflexivity | discriminate | reflexivity | reflexivity | reflexivity
    | cbn; lia].
Defined.

(** With the line [a:1 bb=] typed before it, [=] lies behind the two
    terminators of [a:'b], and the lexer aborts: what an open quote gives
    depends on what the buffer held. *)
Lemma open_quote_reads_stale_bytes :
  Memory.SQLParser_Parse ("a:'b" +:+ nul +:+ nul +:+ "=" +:+ nul) = Ret Abort.
Proof. reflexivity. Qed.

(** ** UPDATE that matches no row *)

Lemma Forall2_nth_same {A} (R : A -> A -> Prop) (d : A) l l' :
  Forall2 R l l' ->
  forall k, (k < length l)%nat -> R (nth k l d) (nth k l' d).
Proof.
  induction 1 as [|x y l l' Hxy _ IH]; intros k Hk; [cbn in Hk; lia |].
  destruct k as [|k]; [exact Hxy |]. cbn in Hk |- *. apply IH. lia.
Qed.

Lemma file_field_same column column' :
  Column.value column' = Column.value column ->
  Column.type column' = Column.type column ->
  file_field column' = file_field column.
Proof. unfold file_field. now intros -> ->. Qed.

Lemma fields_same_fields row row' n : forall i,
  0 <= i ->
  (Z.to_nat i + n <= length (Row.columns row))%nat ->
  Forall2 (fun column column' =>
             Column.value column' = Column.value column
             /\ Column.type column' = Column.type column)
    (Row.columns row)
    (firstn (length (Row.columns row)) (Row.columns row')) ->
  fields file_field n i row' = fields file_field n i row.
Proof.
  intros i Hi Hlen Hsame. revert i Hi Hlen.
  induction n as [|n IH]; intros i Hi Hlen; [reflexivity |].
  cbn [fields]. unfold slot.
  destruct ((0 <=? i) && (i <? 128)); [| reflexivity].
  rewrite !bind_Ret.
  pose proof (Forall2_nth_same _ Column.zero _ _ Hsame (Z.to_nat i)
                ltac:(lia)) as [Hvalue Htype].
  rewrite nth_firstn in Htype, Hvalue.
  destruct (_ <? _)%nat eqn:Hk; [| apply Nat.ltb_ge in Hk; lia].
  rewrite (file_field_same _ _ Hvalue Htype).
  rewrite IH by lia. reflexivity.
Qed.

Lemma SQLwriteRowToFile_same_fields tableStructure row row' :
  storable_row tableStructure row = true ->
  same_fields row row' ->
  SQLwriteRowToFile row' = SQLwriteRowToFile row.
Proof.
  unfold storable_row. intros H [Hindex [Hcount Hsame]].
  apply andb_prop in H as [H _]. apply andb_prop in H as [H _].
  apply andb_prop in H as [H _]. apply andb_prop in H as [H Hlen].
  apply andb_prop in H as [_ Hcolumns].
  apply Z.eqb_eq in Hcolumns. apply Z.ltb_lt in Hlen.
  unfold SQLwriteRowToFile, turns. rewrite Hindex, Hcount.
  rewrite (fields_same_fields row row') by (cbn; lia || assumption).
  reflexivity.
Qed.

Lemma records_same_fields tableStructure table table' :
  Forall (fun row => storable_row tableStructure row = true) table ->
  Forall2 same_fields table table' ->
  records table' = records table.
Proof.
  intros Hall Hsame. induction Hsame as [|row row' table table' Hrow _ IH];
    [reflexivity |].
  inversion Hall as [|? ? Hstorable Hrest]; subst.
  cbn [records].
  rewrite (SQLwriteRowToFile_same_fields _ _ _ Hstorable Hrow), IH by assumption.
  reflexivity.
Qed.

(** X31.  An UPDATE that matches no row writes the table back as it was,
    when the table file holds the records of rows that fit the schema and
    the line buffer: the rows are loaded, each is written back through
    [SQLwriteRowToFile], and after the temporary file has taken the place
    of the table file every file has the content it had. *)
Theorem update_without_match_keeps_storable_table
    command conditions tableStructure table text w :
  0 <= TableStructureInfo.count tableStructure ->
  table <> [] ->
  Forall (fun row => storable_row tableStructure row = true) table ->
  records table = Ret text ->
  World.fopen_r (TableStructureInfo.name tableStructure) w = Some text ->
  (forall filename,
      World.tmpname w = Some filename -> World.files w !! filename = None) ->
  (forall loaded row,
      SQLloadTable [] tableStructure w = Ret loaded -> In row loaded ->
      SQLfilterRow (command :: conditions) tableStructure row = Ret 0) ->
  exists w',
    SQLupdate (command :: conditions) tableStructure w = Ret w'
    /\ World.files w' = World.files w.
Proof.
  intros Hcount Hne Hall Hrecords Hopen Hfresh Hno.
  destruct (load_rows_records _ _ Hcount Hall)
    as [text' [loaded [Hrecords' [Hload Hsame]]]].
  assert (text' = text) as -> by congruence.
  assert (Hloaded : SQLloadTable [] tableStructure w = Ret loaded).
  { unfold SQLloadTable. rewrite Hopen, Hload, bind_Ret.
    destruct loaded; [| reflexivity]. inversion Hsame; subst. congruence. }
  destruct (SQLupdate_no_match command conditions tableStructure w loaded text
              Hfresh Hloaded (fun row => Hno loaded row Hloaded))
    as [w' [Hrun Hfiles]].
  { now rewrite (records_same_fields _ _ _ Hall Hsame). }
  exists w'. split; [exact Hrun |].
  destruct Hfiles as [-> | ->]; [| reflexivity].
  apply insert_id. unfold World.fopen_r in Hopen.
  now destruct (World.openable _ w).
Qed.

(** [UPDATE:people age=99 age:1] on the table that holds Ann and Bob. *)
Lemma update_without_match_keeps_storable_table_witness :
  exists w',
    SQLupdate [token "UPDATE" AssignOperator "people";
               token "age" EqualOperator "99";
               token "age" AssignOperator "1"] persons
      (World.with_files {[ "people" := "0;'Ann';30;" +:+ newline
                                       +:+ "1;'Bob';41;" +:+ newline ]}
         fresh) = Ret w'
    /\ World.files w'
       = World.files
           (World.with_files {[ "people" := "0;'Ann';30;" +:+ newline
                                            +:+ "1;'Bob';41;" +:+ newline ]}
              fresh).
Proof.
  apply (update_without_match_keeps_storable_table
           (token "UPDATE" AssignOperator "people")
           [token "age" EqualOperator "99"; token "age" AssignOperator "1"]
           persons [ann; bob]
           ("0;'Ann';30;" +:+ newline +:+ "1;'Bob';41;" +:+ newline)).
  - cbn; lia.
  - discriminate.
  - repeat constructor.
  - vm_compute. reflexivity.
  - reflexivity.
  - intros filename [= <-]. reflexivity.
  - intros loaded row Hloaded Hin.
    vm_compute in Hloaded. injection Hloaded as <-.
    destruct Hin as [<- | [<- | []]]; vm_compute; reflexivity.
Defined.
